(** * A shallow embedding of [bpf/bpf_load.c]

    The loader reads a relocatable ELF object through libelf, creates the
    kernel maps it declares, patches map references into the bytecode and
    submits every program section to the kernel.

    The embedding keeps the shape of the C file:
    - C integers are [Z]; conversions that can wrap are written out;
    - the global arrays ([map_fd], [prog_fd], [event_fd], [processed_sec],
      [license]) are lists of their declared length; an access outside an
      array has no defined behaviour in C and is modelled by [Undef];
    - every function of libc, libelf's file access and the kernel interface
      is a [call] answered by the environment; a run against a handler
      records the [event]s in order;
    - what libelf reports for a section ([get_sec]) is data of the [Elf]
      object.  A section's buffer [d_buf] is kept under each view the C code
      takes of it (raw bytes, [struct bpf_map_def] array, [struct bpf_insn]
      array, relocation and symbol entries read through gelf). *)

From Stdlib Require Import ZArith Lia Bool String Ascii.
From Stdlib.Strings Require Import Byte.
From stdpp Require Import base list.

Local Open Scope string_scope.
Local Open Scope Z_scope.

(* ===================================================================== *)
(** ** Constants of the system headers *)
(* ===================================================================== *)

Definition EPERM : Z := 1.
Definition O_RDONLY : Z := 0.
Definition EV_NONE : Z := 0.
Definition EV_CURRENT : Z := 1.
Definition SHT_SYMTAB : Z := 2.
Definition SHT_REL : Z := 9.
Definition RLIMIT_MEMLOCK : Z := 8.
Definition RLIM_INFINITY : Z := 2 ^ 64 - 1.
Definition BPF_LD : Z := 0.
Definition BPF_IMM : Z := 0.
Definition BPF_DW : Z := 24.
Definition BPF_PSEUDO_MAP_FD : Z := 1.
Definition BPF_MAP_TYPE_PROG_ARRAY : Z := 3.
Definition BPF_PROG_TYPE_KPROBE : Z := 2.
Definition PERF_TYPE_TRACEPOINT : Z := 2.
Definition PERF_SAMPLE_RAW : Z := 1024.
Definition PERF_EVENT_IOC_ENABLE : Z := 9216.
Definition PERF_EVENT_IOC_SET_BPF : Z := 1074013192.
Definition sizeof_int : Z := 4.
Definition sizeof_bpf_insn : Z := 8.
Definition DEBUGFS : string := "/sys/kernel/debug/tracing/".

(** Conversions between C integer types. *)
Definition to_int (z : Z) : Z := (z + 2 ^ 31) mod 2 ^ 32 - 2 ^ 31.
Definition to_uint (z : Z) : Z := z mod 2 ^ 32.
Definition to_ulong (z : Z) : Z := z mod 2 ^ 64.

(* ===================================================================== *)
(** ** Data *)
(* ===================================================================== *)

(** [struct bpf_insn] *)
Record bpf_insn : Type := mk_insn {
  code : Z;
  dst_reg : Z;
  src_reg : Z;
  off : Z;
  imm : Z
}.

(** [struct bpf_map_def], with the fields [load_maps] reads. *)
Record bpf_map_def : Type := mk_map_def {
  type : Z;
  key_size : Z;
  value_size : Z;
  max_entries : Z;
  map_flags : Z
}.

Record GElf_Rel : Type := mk_rel { r_offset : Z; r_info : Z }.
Record GElf_Sym : Type := mk_sym { st_value : Z }.
Definition GELF_R_SYM (info : Z) : Z := Z.shiftr info 32.

Record GElf_Shdr : Type := mk_shdr {
  sh_type : Z;
  sh_size : Z;
  sh_entsize : Z;
  sh_info : Z;
  sh_link : Z;
  sh_flags : Z
}.

Record GElf_Ehdr : Type := mk_ehdr { e_shnum : Z }.

(** [Elf_Data]: the size and the buffer, the buffer under each view the
    loader takes of it. *)
Record Elf_Data : Type := mk_data {
  d_size : Z;
  d_buf : list byte;               (* as char[], for memcpy *)
  as_maps : list bpf_map_def;      (* as struct bpf_map_def[] *)
  as_insns : list bpf_insn;        (* as struct bpf_insn[] *)
  as_rels : list GElf_Rel;         (* entries gelf_getrel finds *)
  as_syms : list GElf_Sym          (* entries gelf_getsym finds *)
}.

Definition with_insns (d : Elf_Data) (l : list bpf_insn) : Elf_Data :=
  mk_data (d_size d) (d_buf d) (as_maps d) l (as_rels d) (as_syms d).

(** What libelf answers for one section index. *)
Record Elf_Scn : Type := mk_scn {
  scn_shdr : option GElf_Shdr;     (* gelf_getshdr *)
  scn_name : option string;        (* elf_strptr on sh_name *)
  scn_data : option Elf_Data;      (* elf_getdata(scn, 0) *)
  scn_more_data : bool             (* elf_getdata(scn, data) != NULL *)
}.

Record Elf : Type := mk_elf {
  elf_ehdr : option GElf_Ehdr;     (* gelf_getehdr *)
  elf_scns : list Elf_Scn          (* elf_getscn, by index *)
}.

Record rlimit : Type := mk_rlimit { rlim_cur : Z; rlim_max : Z }.

Record perf_event_attr : Type := mk_attr {
  attr_type : Z;
  attr_sample_type : Z;
  attr_sample_period : Z;
  attr_wakeup_events : Z;
  attr_config : Z
}.

(** The file's global variables. *)
Record globals : Type := mk_globals {
  license : list byte;             (* static char license[128] *)
  kern_version : Z;
  processed_sec : list bool;       (* static bool processed_sec[128] *)
  map_fd : list Z;                 (* int map_fd[32] *)
  prog_fd : list Z;                (* int prog_fd[32] *)
  event_fd : list Z;               (* int event_fd[32] *)
  prog_cnt : Z;
  prog_array_fd : Z
}.

(** The globals as the C runtime initialises them. *)
Definition initial_globals : globals :=
  mk_globals (replicate 128 x00) 0 (replicate 128 false)
             (replicate 32 0) (replicate 32 0) (replicate 32 0) 0 (-1).

Definition set_license (g : globals) (v : list byte) : globals :=
  mk_globals v (kern_version g) (processed_sec g) (map_fd g) (prog_fd g)
             (event_fd g) (prog_cnt g) (prog_array_fd g).
Definition set_kern_version (g : globals) (v : Z) : globals :=
  mk_globals (license g) v (processed_sec g) (map_fd g) (prog_fd g)
             (event_fd g) (prog_cnt g) (prog_array_fd g).
Definition set_processed_sec (g : globals) (v : list bool) : globals :=
  mk_globals (license g) (kern_version g) v (map_fd g) (prog_fd g)
             (event_fd g) (prog_cnt g) (prog_array_fd g).
Definition set_map_fd (g : globals) (v : list Z) : globals :=
  mk_globals (license g) (kern_version g) (processed_sec g) v (prog_fd g)
             (event_fd g) (prog_cnt g) (prog_array_fd g).
Definition set_prog_fd (g : globals) (v : list Z) : globals :=
  mk_globals (license g) (kern_version g) (processed_sec g) (map_fd g) v
             (event_fd g) (prog_cnt g) (prog_array_fd g).
Definition set_event_fd (g : globals) (v : list Z) : globals :=
  mk_globals (license g) (kern_version g) (processed_sec g) (map_fd g)
             (prog_fd g) v (prog_cnt g) (prog_array_fd g).
Definition set_prog_cnt (g : globals) (v : Z) : globals :=
  mk_globals (license g) (kern_version g) (processed_sec g) (map_fd g)
             (prog_fd g) (event_fd g) v (prog_array_fd g).
Definition set_prog_array_fd (g : globals) (v : Z) : globals :=
  mk_globals (license g) (kern_version g) (processed_sec g) (map_fd g)
             (prog_fd g) (event_fd g) (prog_cnt g) v.

(* ===================================================================== *)
(** ** Calls into the environment, and programs over them *)
(* ===================================================================== *)

(** The texts the loader prints, by format string. *)
Inductive message : Type :=
| msg_unknown_event (event : string)
| msg_prog_load_retry (err : Z)
| msg_setrlimit_failed (err : Z)
| msg_prog_load_failed (err : Z)
| msg_event_name_empty
| msg_kprobe_failed (event : string) (err : Z)
| msg_open_event_failed (event : string)
| msg_read_failed (event : string) (err : Z)
| msg_perf_event_failed (id efd err : Z)
| msg_map_failed (err : Z)
| msg_invalid_relo (insn_idx insn_code : Z)
| msg_invalid_version_size (size : Z).

(** A [call X] asks the environment for an [X]. *)
Inductive call : Type -> Type :=
| printf (m : message) : call unit
| errno : call Z
| bpf_create_map (map_type ksize vsize entries flags : Z) : call Z
| bpf_prog_load (prog_type : Z) (insns : list bpf_insn) (size : Z)
                (lic : list byte) (version : Z) : call Z
| getrlimit (resource : Z) : call (Z * rlimit)
| setrlimit (resource : Z) (rl : rlimit) : call Z
| system (command : string) : call Z
| open (path : string) (flags mode : Z) : call Z
| read (fd count : Z) : call (Z * string)
| close (fd : Z) : call Z
| perf_event_open (attr : perf_event_attr) (pid cpu group_fd flags : Z) : call Z
| ioctl (fd request arg : Z) : call Z
| elf_version (v : Z) : call Z
| elf_begin (fd : Z) : call (option Elf).

(** Behaviour C leaves undefined. *)
Inductive undefined : Type :=
| out_of_bounds (array : string) (index : Z)
| uninitialised (variable : string)
| division_by_zero.

(** A program: it returns, or leaves defined behaviour, or makes a call and
    goes on with the answer. *)
Inductive proc (A : Type) : Type :=
| Ret (a : A)
| Undef (u : undefined)
| Do (X : Type) (c : call X) (k : X -> proc A).

Arguments Ret {A} a.
Arguments Undef {A} u.
Arguments Do {A X} c k.

Fixpoint bind {A B : Type} (m : proc A) (f : A -> proc B) : proc B :=
  match m with
  | Ret a => f a
  | Undef u => Undef u
  | Do c k => Do c (fun x => bind (k x) f)
  end.

Definition perform {X : Type} (c : call X) : proc X := Do c Ret.

Notation "x <- m ;; k" := (bind m (fun x => k))
  (at level 100, m at next level, right associativity).
Notation "m ;;; k" := (bind m (fun _ => k))
  (at level 100, right associativity).

(** [for (i = lo; count iterations; i++) body], where the body either
    leaves the function with a value ([inl]) or goes on ([inr]). *)
Fixpoint for_loop {S R : Type} (count : nat) (i : Z)
    (body : Z -> S -> proc (R + S)) (s : S) : proc (R + S) :=
  match count with
  | O => Ret (inr s)
  | Datatypes.S n =>
      r <- body i s ;;
      match r with
      | inl v => Ret (inl v)
      | inr s' => for_loop n (i + 1) body s'
      end
  end.

(** Array access by a C index. *)
Definition zlookup {A : Type} (l : list A) (i : Z) : option A :=
  if 0 <=? i then l !! Z.to_nat i else None.

Definition array_get {A : Type} (name : string) (l : list A) (i : Z) : proc A :=
  match zlookup l i with
  | Some a => Ret a
  | None => Undef (out_of_bounds name i)
  end.

Definition array_set {A : Type} (name : string) (l : list A) (i : Z) (a : A)
    : proc (list A) :=
  match zlookup l i with
  | Some _ => Ret (<[Z.to_nat i := a]> l)
  | None => Undef (out_of_bounds name i)
  end.

(** *** Running a program against an environment *)

Inductive event : Type :=
| Ev (X : Type) (c : call X) (x : X).
Arguments Ev {X} c x.

Inductive outcome (A : Type) : Type :=
| Done (a : A)
| Undefined (u : undefined).
Arguments Done {A} a.
Arguments Undefined {A} u.

(** An environment: a state and an answer to every call. *)
Definition handler (W : Type) : Type := forall X : Type, call X -> W -> X * W.

Fixpoint run {W A : Type} (h : handler W) (m : proc A) (w : W)
    : outcome A * list event * W :=
  match m with
  | Ret a => (Done a, [], w)
  | Undef u => (Undefined u, [], w)
  | Do c k =>
      let '(x, w1) := h _ c w in
      let '(o, t, w2) := run h (k x) w1 in
      (o, Ev c x :: t, w2)
  end.

Definition result_of {W A : Type} (r : outcome A * list event * W) : outcome A :=
  fst (fst r).
Definition trace_of {W A : Type} (r : outcome A * list event * W) : list event :=
  snd (fst r).

(* ===================================================================== *)
(** ** C strings *)
(* ===================================================================== *)

Infix "+++" := String.append (at level 60, right associativity).

(** [strncmp(a, b, n) == 0] *)
Fixpoint strncmp_eq (a b : string) (n : nat) {struct n} : bool :=
  match n with
  | O => true
  | S n' =>
      match a, b with
      | EmptyString, EmptyString => true
      | String x a', String y b' =>
          if Ascii.eqb x y then strncmp_eq a' b' n' else false
      | _, _ => false
      end
  end.

(** [memcmp(a, b, n) == 0] for a literal [b] of [n] characters: the bytes of
    [a] are its characters and then its terminator, which differs from every
    character of the literal. *)
Fixpoint memcmp_eq (a b : string) (n : nat) {struct n} : bool :=
  match n with
  | O => true
  | S n' =>
      match a, b with
      | String x a', String y b' =>
          if Ascii.eqb x y then memcmp_eq a' b' n' else false
      | _, _ => false
      end
  end.

(** [s += n] on a string of at least [n] characters. *)
Fixpoint advance (n : nat) (s : string) : string :=
  match n, s with
  | S n', String _ s' => advance n' s'
  | _, _ => s
  end.

(** [snprintf] into [char buf[256]] keeps 255 characters. *)
Definition snprintf_256 (s : string) : string := String.substring 0 255 s.

Definition isspace (c : ascii) : bool :=
  let n := nat_of_ascii c in
  (Nat.eqb n 32 || (Nat.leb 9 n && Nat.leb n 13))%bool.

Definition digit_of (c : ascii) : option Z :=
  let n := Z.of_nat (nat_of_ascii c) in
  if (48 <=? n) && (n <=? 57) then Some (n - 48) else None.

Fixpoint atoi_digits (s : string) (acc : Z) : Z :=
  match s with
  | String c s' =>
      match digit_of c with
      | Some d => atoi_digits s' (10 * acc + d)
      | None => acc
      end
  | EmptyString => acc
  end.

Fixpoint atoi_skip (s : string) : string :=
  match s with
  | String c s' => if isspace c then atoi_skip s' else s
  | EmptyString => s
  end.

(** [atoi]: white space, a sign, digits; the value as an [int]. *)
Definition atoi (s : string) : Z :=
  match atoi_skip s with
  | String "-" s' => to_int (- atoi_digits s' 0)
  | String "+" s' => to_int (atoi_digits s' 0)
  | s' => to_int (atoi_digits s' 0)
  end.

(** A buffer read as a C string: up to the first NUL. *)
Fixpoint c_str (s : string) : string :=
  match s with
  | String c s' => if Ascii.eqb c zero then EmptyString else String c (c_str s')
  | EmptyString => EmptyString
  end.

(** [memcpy(&kern_version, d_buf, sizeof(int))] on a little-endian host. *)
Definition int_of_bytes (l : list byte) : option Z :=
  match l with
  | b0 :: b1 :: b2 :: b3 :: _ =>
      Some (to_int (Z.of_N (Byte.to_N b0) + 2 ^ 8 * Z.of_N (Byte.to_N b1)
                    + 2 ^ 16 * Z.of_N (Byte.to_N b2)
                    + 2 ^ 24 * Z.of_N (Byte.to_N b3)))
  | _ => None
  end.

(* ===================================================================== *)
(** ** The loader *)
(* ===================================================================== *)

Section Loader.

(** [sizeof(struct bpf_map_def)]: the struct is declared in [bpf_helpers.h],
    which is not part of the sources at hand, so its size is a parameter. *)
Variable sizeof_bpf_map_def : Z.

(** *** [load_and_attach] *)

(** Lines 85-166: after the submission. *)
Definition attach (event : string)
    (is_kprobe is_kretprobe is_tracepoint is_xdp is_perf_event : bool)
    (fd : Z) (g : globals) : proc (Z * globals) :=
  if fd <? 0 then
    e <- perform errno ;;
    perform (printf (msg_prog_load_failed e)) ;;;
    Ret (-1, g)
  else
    fds <- array_set "prog_fd" (prog_fd g) (prog_cnt g) fd ;;
    let g := set_prog_cnt (set_prog_fd g fds) (prog_cnt g + 1) in
    if is_xdp || is_perf_event then Ret (0, g)
    else
      (* the event's id file, or an early return *)
      let open_id (event : string) (buf : option string) : proc (Z * globals) :=
        match buf with
        | None => Undef (uninitialised "buf")
        | Some path =>
            if 256 <=? Z.of_nat (String.length path)
            then Undef (out_of_bounds "buf" (Z.of_nat (String.length path)))
            else
              efd <- perform (open path O_RDONLY 0) ;;
              if efd <? 0 then
                perform (printf (msg_open_event_failed event)) ;;;
                Ret (-1, g)
              else
                got <- perform (read efd 256) ;;
                let '(err, text) := got in
                if (err <? 0) || (256 <=? to_ulong err) then
                  e <- perform errno ;;
                  perform (printf (msg_read_failed event e)) ;;;
                  Ret (-1, g)
                else
                  perform (close efd) ;;;
                  let id := atoi (c_str (String.substring 0 (Z.to_nat err) text)) in
                  let attr := mk_attr PERF_TYPE_TRACEPOINT PERF_SAMPLE_RAW 1 1 id in
                  efd <- perform (perf_event_open attr (-1) 0 (-1) 0) ;;
                  if efd <? 0 then
                    e <- perform errno ;;
                    perform (printf (msg_perf_event_failed id efd e)) ;;;
                    Ret (-1, g)
                  else
                    efds <- array_set "event_fd" (event_fd g) (prog_cnt g - 1) efd ;;
                    let g := set_event_fd g efds in
                    perform (ioctl efd PERF_EVENT_IOC_ENABLE 0) ;;;
                    perform (ioctl efd PERF_EVENT_IOC_SET_BPF fd) ;;;
                    Ret (0, g)
        end in
      if is_kprobe || is_kretprobe then
        let event := if is_kprobe then advance 7 event else advance 10 event in
        match event with
        | EmptyString =>
            perform (printf msg_event_name_empty) ;;;
            Ret (-1, g)
        | _ =>
            let c := if is_kprobe then "p" else "r" in
            err <- perform (system (snprintf_256
                     ("echo '" +++ c +++ ":" +++ c +++ event +++ " " +++ event
                      +++ "' >> /sys/kernel/debug/tracing/kprobe_events"))) ;;
            if err <? 0 then
              e <- perform errno ;;
              perform (printf (msg_kprobe_failed event e)) ;;;
              Ret (-1, g)
            else
              open_id event
                (Some (DEBUGFS +++ "events/kprobes/" +++ c +++ event +++ "/id"))
        end
      else if is_tracepoint then
        let event := advance 11 event in
        match event with
        | EmptyString =>
            perform (printf msg_event_name_empty) ;;;
            Ret (-1, g)
        | _ => open_id event (Some (DEBUGFS +++ "events/" +++ event +++ "/id"))
        end
      else open_id event None.

Definition load_and_attach (event : string) (prog : list bpf_insn) (size : Z)
    (g : globals) : proc (Z * globals) :=
  let is_kprobe := strncmp_eq event "kprobe/" 7 in
  let is_kretprobe := strncmp_eq event "kretprobe/" 10 in
  let is_tracepoint := strncmp_eq event "tracepoint/" 11 in
  let is_xdp := strncmp_eq event "xdp" 3 in
  let is_perf_event := strncmp_eq event "perf_event" 10 in
  if is_kprobe || is_kretprobe then
    let prog_type := BPF_PROG_TYPE_KPROBE in
    let attach := attach event is_kprobe is_kretprobe is_tracepoint is_xdp
                         is_perf_event in
    fd <- perform (bpf_prog_load prog_type prog size (license g) (kern_version g)) ;;
    if fd <? 0 then
      e <- perform errno ;;
      if e =? EPERM then
        e <- perform errno ;;
        perform (printf (msg_prog_load_retry e)) ;;;
        got <- perform (getrlimit RLIMIT_MEMLOCK) ;;
        let '(r, rl) := got in
        if r =? 0 then
          let rl := mk_rlimit (rlim_cur rl) RLIM_INFINITY in
          let rl := mk_rlimit (rlim_max rl) (rlim_max rl) in
          r <- perform (setrlimit RLIMIT_MEMLOCK rl) ;;
          if r =? 0 then
            fd <- perform (bpf_prog_load prog_type prog size (license g)
                                         (kern_version g)) ;;
            attach fd g
          else
            e <- perform errno ;;
            perform (printf (msg_setrlimit_failed e)) ;;;
            Ret (-1, g)
        else attach fd g
      else attach fd g
    else attach fd g
  else
    perform (printf (msg_unknown_event event)) ;;;
    Ret (-1, g).

(** *** [load_maps] *)

Definition load_maps_body (maps : list bpf_map_def) (i : Z) (g : globals)
    : proc (Z * globals + globals) :=
  m <- array_get "maps" maps i ;;
  fd <- perform (bpf_create_map (type m) (key_size m) (value_size m)
                                (max_entries m) (map_flags m)) ;;
  fds <- array_set "map_fd" (map_fd g) i fd ;;
  let g := set_map_fd g fds in
  if fd <? 0 then
    e <- perform errno ;;
    perform (printf (msg_map_failed e)) ;;;
    Ret (inl (1, g))
  else if type m =? BPF_MAP_TYPE_PROG_ARRAY then
    Ret (inr (set_prog_array_fd g fd))
  else Ret (inr g).

Definition load_maps (maps : list bpf_map_def) (len : Z) (g : globals)
    : proc (Z * globals) :=
  r <- for_loop (Z.to_nat (to_ulong len / sizeof_bpf_map_def)) 0
                (load_maps_body maps) g ;;
  match r with
  | inl v => Ret v
  | inr g => Ret (0, g)
  end.

(** *** [get_sec] *)

Definition get_sec (elf : Elf) (i : Z)
    : Z + (string * GElf_Shdr * Elf_Data) :=
  match zlookup (elf_scns elf) (to_ulong i) with
  | None => inl 1
  | Some scn =>
      match scn_shdr scn with
      | None => inl 2
      | Some shdr =>
          match scn_name scn with
          | None => inl 3
          | Some shname =>
              if sh_size shdr =? 0 then inl 3
              else
                match scn_data scn with
                | None => inl 4
                | Some data =>
                    if scn_more_data scn then inl 4
                    else inr (shname, shdr, data)
                end
          end
      end
  end.

(** *** [parse_relo_and_apply] *)

(** libelf's readers of one relocation entry and of one symbol; they fail
    outside the table and then leave their result variable unset. *)
Definition gelf_getrel (data : Elf_Data) (ndx : Z) : option GElf_Rel :=
  zlookup (as_rels data) ndx.

Definition gelf_getsym (symbols : option Elf_Data) (ndx : Z) : option GElf_Sym :=
  match symbols with
  | Some s => zlookup (as_syms s) ndx
  | None => None
  end.

Definition relo_body (data : Elf_Data) (symbols : option Elf_Data)
    (g : globals) (i : Z) (insn : list bpf_insn)
    : proc (Z * list bpf_insn + list bpf_insn) :=
  match gelf_getrel data i with
  | None => Undef (uninitialised "rel")
  | Some rel =>
      let insn_idx := to_uint (r_offset rel / sizeof_bpf_insn) in
      let sym := gelf_getsym symbols (to_int (GELF_R_SYM (r_info rel))) in
      ins <- array_get "insn" insn insn_idx ;;
      if negb (code ins =? Z.lor (Z.lor BPF_LD BPF_IMM) BPF_DW) then
        perform (printf (msg_invalid_relo insn_idx (code ins))) ;;;
        Ret (inl (1, insn))
      else
        match sym with
        | None => Undef (uninitialised "sym")
        | Some sym =>
            fd <- array_get "map_fd" (map_fd g)
                            (st_value sym / sizeof_bpf_map_def) ;;
            Ret (inr (<[Z.to_nat insn_idx :=
                         mk_insn (code ins) (dst_reg ins) BPF_PSEUDO_MAP_FD
                                 (off ins) fd]> insn))
        end
  end.

Definition parse_relo_and_apply (data : Elf_Data) (symbols : option Elf_Data)
    (shdr : GElf_Shdr) (insn : list bpf_insn) (g : globals)
    : proc (Z * list bpf_insn) :=
  if sh_entsize shdr =? 0 then Undef division_by_zero
  else
    let nrels := to_int (sh_size shdr / sh_entsize shdr) in
    r <- for_loop (Z.to_nat nrels) 0 (relo_body data symbols g) insn ;;
    match r with
    | inl v => Ret v
    | inr insn => Ret (0, insn)
    end.

(** *** [load_bpf_file] *)

(** What the three scans carry: the globals, the object (whose section
    buffers relocation patches in place) and the local [symbols]. *)
Record state : Type := mk_state {
  st_g : globals;
  st_elf : Elf;
  st_symbols : option Elf_Data
}.

Definition with_g (s : state) (g : globals) : state :=
  mk_state g (st_elf s) (st_symbols s).

(** [memcpy(dst, src, n)] into a global array. *)
Definition memcpy (name : string) (dst src : list byte) (n : Z)
    : proc (list byte) :=
  if Z.of_nat (length dst) <? n
  then Undef (out_of_bounds name (Z.of_nat (length dst)))
  else if Z.of_nat (length src) <? n
  then Undef (out_of_bounds "d_buf" (Z.of_nat (length src)))
  else Ret (take (Z.to_nat n) src ++ drop (Z.to_nat n) dst)%list.

(** The six section-name tests of lines 323-328 and 342-347. *)
Definition is_prog_name (shname : string) : bool :=
  memcmp_eq shname "kprobe/" 7 || memcmp_eq shname "kretprobe/" 10
  || memcmp_eq shname "tracepoint/" 11 || memcmp_eq shname "xdp" 3
  || memcmp_eq shname "perf_event" 10 || memcmp_eq shname "socket" 6.

(** The instructions of section [i] after a patch in place. *)
Definition store_insns (elf : Elf) (i : Z) (insns : list bpf_insn) : Elf :=
  mk_elf (elf_ehdr elf)
    (alter (fun scn =>
              mk_scn (scn_shdr scn) (scn_name scn)
                     (option_map (fun d => with_insns d insns) (scn_data scn))
                     (scn_more_data scn))
           (Z.to_nat i) (elf_scns elf)).

(** Lines 273-301: scan over all sections to get license and map info. *)
Definition scan_body (i : Z) (s : state) : proc (Z * globals + state) :=
  let g := st_g s in
  match get_sec (st_elf s) i with
  | inl _ => Ret (inr s)
  | inr (shname, shdr, data) =>
      if String.eqb shname "license" then
        ps <- array_set "processed_sec" (processed_sec g) i true ;;
        let g := set_processed_sec g ps in
        lic <- memcpy "license" (license g) (d_buf data) (d_size data) ;;
        Ret (inr (with_g s (set_license g lic)))
      else if String.eqb shname "version" then
        ps <- array_set "processed_sec" (processed_sec g) i true ;;
        let g := set_processed_sec g ps in
        if negb (d_size data =? sizeof_int) then
          perform (printf (msg_invalid_version_size (d_size data))) ;;;
          Ret (inl (1, g))
        else
          match int_of_bytes (d_buf data) with
          | None => Undef (out_of_bounds "d_buf" (Z.of_nat (length (d_buf data))))
          | Some v => Ret (inr (with_g s (set_kern_version g v)))
          end
      else if String.eqb shname "maps" then
        ps <- array_set "processed_sec" (processed_sec g) i true ;;
        let g := set_processed_sec g ps in
        r <- load_maps (as_maps data) (to_int (d_size data)) g ;;
        let '(ret, g) := r in
        if negb (ret =? 0) then Ret (inl (1, g))
        else Ret (inr (with_g s g))
      else if sh_type shdr =? SHT_SYMTAB then
        Ret (inr (mk_state g (st_elf s) (Some data)))
      else Ret (inr s)
  end.

(** Lines 304-331: load programs that need map fixup (relocations). *)
Definition relo_pass_body (i : Z) (s : state) : proc (Z * globals + state) :=
  let g := st_g s in
  match get_sec (st_elf s) i with
  | inl _ => Ret (inr s)
  | inr (shname, shdr, data) =>
      if sh_type shdr =? SHT_REL then
        match get_sec (st_elf s) (to_int (sh_info shdr)) with
        | inl _ => Ret (inr s)
        | inr (shname_prog, shdr_prog, data_prog) =>
            let insns := as_insns data_prog in
            ps <- array_set "processed_sec" (processed_sec g) (sh_info shdr) true ;;
            ps <- array_set "processed_sec" ps i true ;;
            let g := set_processed_sec g ps in
            r <- parse_relo_and_apply data (st_symbols s) shdr insns g ;;
            let '(ret, insns) := r in
            let elf := store_insns (st_elf s) (to_ulong (to_int (sh_info shdr)))
                                   insns in
            if negb (ret =? 0) then Ret (inr (mk_state g elf (st_symbols s)))
            else if is_prog_name shname_prog then
              r <- load_and_attach shname_prog insns (to_int (d_size data_prog)) g ;;
              Ret (inr (mk_state (snd r) elf (st_symbols s)))
            else Ret (inr (mk_state g elf (st_symbols s)))
        end
      else Ret (inr s)
  end.

(** Lines 334-349: load programs that don't use maps. *)
Definition residual_body (i : Z) (s : state) : proc (Z * globals + state) :=
  let g := st_g s in
  p <- array_get "processed_sec" (processed_sec g) i ;;
  if p : bool then Ret (inr s)
  else
    match get_sec (st_elf s) i with
    | inl _ => Ret (inr s)
    | inr (shname, shdr, data) =>
        if is_prog_name shname then
          r <- load_and_attach shname (as_insns data) (to_int (d_size data)) g ;;
          Ret (inr (with_g s (snd r)))
        else Ret (inr s)
    end.

(** One [for (i = 1; i < ehdr.e_shnum; i++)]. *)
Definition scan_sections (ehdr : GElf_Ehdr)
    (body : Z -> state -> proc (Z * globals + state)) (s : state)
    : proc (Z * globals + state) :=
  for_loop (Z.to_nat (e_shnum ehdr - 1)) 1 body s.

Definition clear_kprobes : string :=
  "echo " +++ String (ascii_of_nat 34) (String (ascii_of_nat 34)
  " > /sys/kernel/debug/tracing/kprobe_events").

(** Lines 266-353: the object is open. *)
Definition load_elf (elf : Elf) (fd : Z) (g : globals) : proc (Z * globals) :=
  match elf_ehdr elf with
  | None => Ret (1, g)
  | Some ehdr =>
      perform (system clear_kprobes) ;;;
      r <- scan_sections ehdr scan_body (mk_state g elf None) ;;
      match r with
      | inl v => Ret v
      | inr s =>
          r <- scan_sections ehdr relo_pass_body s ;;
          match r with
          | inl v => Ret v
          | inr s =>
              r <- scan_sections ehdr residual_body s ;;
              match r with
              | inl v => Ret v
              | inr s =>
                  perform (close fd) ;;;
                  Ret (0, st_g s)
              end
          end
      end
  end.

Definition load_bpf_file (path : string) (g : globals) : proc (Z * globals) :=
  v <- perform (elf_version EV_CURRENT) ;;
  if v =? EV_NONE then Ret (1, g)
  else
    fd <- perform (open path O_RDONLY 0) ;;
    if fd <? 0 then Ret (1, g)
    else
      elf <- perform (elf_begin fd) ;;
      match elf with
      | None => Ret (1, g)
      | Some elf => load_elf elf fd g
      end.

End Loader.

(* ===================================================================== *)
(** ** Environments, traces and the vocabulary of the statements *)
(* ===================================================================== *)

(** A scripted environment: every call that yields an integer takes the
    next number of the script (0 once the script is used up); [elf_begin]
    yields the given object. *)
Definition next_answer (w : list Z) : Z * list Z :=
  match w with
  | x :: w' => (x, w')
  | [] => (0, [])
  end.

Definition scripted (obj : option Elf) : handler (list Z) :=
  fun X c =>
    match c in call X return list Z -> X * list Z with
    | printf _ => fun w => (tt, w)
    | errno => next_answer
    | bpf_create_map _ _ _ _ _ => next_answer
    | bpf_prog_load _ _ _ _ _ => next_answer
    | getrlimit _ => fun w => let '(r, w') := next_answer w in ((r, mk_rlimit 0 0), w')
    | setrlimit _ _ => next_answer
    | system _ => next_answer
    | open _ _ _ => next_answer
    | read _ _ => fun w => let '(r, w') := next_answer w in ((r, "1234"), w')
    | close _ => next_answer
    | perf_event_open _ _ _ _ _ => next_answer
    | ioctl _ _ _ => next_answer
    | elf_version _ => next_answer
    | elf_begin _ => fun w => (obj, w)
    end.

(** What a trace holds. *)
Definition printed (t : list event) : list message :=
  omap (fun e => match e with Ev (printf m) _ => Some m | _ => None end) t.

Definition is_create_map (e : event) : bool :=
  match e with Ev (bpf_create_map _ _ _ _ _) _ => true | _ => false end.
Definition is_prog_load (e : event) : bool :=
  match e with Ev (bpf_prog_load _ _ _ _ _) _ => true | _ => false end.
Definition is_getrlimit (e : event) : bool :=
  match e with Ev (getrlimit _) _ => true | _ => false end.
Definition is_setrlimit (e : event) : bool :=
  match e with Ev (setrlimit _ _) _ => true | _ => false end.
Definition is_system (e : event) : bool :=
  match e with Ev (system _) _ => true | _ => false end.
Definition is_close (e : event) : bool :=
  match e with Ev (close _) _ => true | _ => false end.

Definition count_events (p : event -> bool) (t : list event) : nat :=
  length (List.filter p t).

(** The maps a trace shows as created: type and handle of every
    [bpf_create_map] that did not fail, in order. *)
Definition created_map (e : event) : option (Z * Z) :=
  match e with
  | Ev c x =>
      match c in call X return X -> option (Z * Z) with
      | bpf_create_map ty _ _ _ _ =>
          fun fd => if fd <? 0 then None else Some (ty, fd)
      | _ => fun _ => None
      end x
  end.

Definition created_maps (t : list event) : list (Z * Z) := omap created_map t.

Definition create_call (m : bpf_map_def) : call Z :=
  bpf_create_map (type m) (key_size m) (value_size m) (max_entries m)
                 (map_flags m).

Definition create_events (ms : list bpf_map_def) (fds : list Z) : list event :=
  zip_with (fun m fd => Ev (create_call m) fd) ms fds.

(** The globals once the maps [ms] have been created from index [i] on with
    handles [fds]. *)
Fixpoint record_maps (i : nat) (ms : list bpf_map_def) (fds : list Z)
    (g : globals) : globals :=
  match ms, fds with
  | m :: ms', fd :: fds' =>
      let g1 := set_map_fd g (<[i := fd]> (map_fd g)) in
      record_maps (S i) ms' fds'
        (if type m =? BPF_MAP_TYPE_PROG_ARRAY then set_prog_array_fd g1 fd
         else g1)
  | _, _ => g
  end.

(** The program-array handle the loader remembers, given the maps created
    (type and handle, in order) and the handle remembered before: the handle
    of the last created map of program-array type. *)
Definition remembered (created : list (Z * Z)) (old : Z) : Z :=
  match last (filter (fun p => p.1 = BPF_MAP_TYPE_PROG_ARRAY) created) with
  | Some p => p.2
  | None => old
  end.

(** The number of records [load_maps] walks over: [len / sizeof(struct
    bpf_map_def)], computed in [unsigned long]. *)
Definition map_count (sz len : Z) : nat := Z.to_nat (to_ulong len / sz).

(** What a caller of [load_maps] is told: the value returned and the
    messages printed. *)
Definition report {W : Type} (r : outcome (Z * globals) * list event * W)
    : option Z * list message :=
  (match result_of r with
   | Done (ret, _) => Some ret
   | Undefined _ => None
   end,
   printed (trace_of r)).

(** The instruction a relocation entry points at, the patch it receives, and
    the number of entries of a relocation section. *)
Definition insn_index (rel : GElf_Rel) : nat :=
  Z.to_nat (to_uint (r_offset rel / sizeof_bpf_insn)).

Definition patched (ins : bpf_insn) (fd : Z) : bpf_insn :=
  mk_insn (code ins) (dst_reg ins) BPF_PSEUDO_MAP_FD (off ins) fd.

Definition nrels (shdr : GElf_Shdr) : nat :=
  Z.to_nat (to_int (sh_size shdr / sh_entsize shdr)).

Definition is_ld_imm_dw (ins : bpf_insn) : Prop :=
  code ins = Z.lor (Z.lor BPF_LD BPF_IMM) BPF_DW.

(** The instructions a loop result carries. *)
Definition insns_of (r : Z * list bpf_insn + list bpf_insn) : list bpf_insn :=
  match r with
  | inl (_, l) => l
  | inr l => l
  end.

(** [always m Q]: whatever the environment answers, the outcome and the
    trace of [m] satisfy [Q]. *)
Fixpoint always {A : Type} (m : proc A) (Q : outcome A -> list event -> Prop)
    : Prop :=
  match m with
  | Ret a => Q (Done a) []
  | Undef u => Q (Undefined u) []
  | Do c k => forall x, always (k x) (fun o t => Q o (Ev c x :: t))
  end.

(** The environment opens the object: [elf_version], [open] and [elf_begin]
    succeed and yield [elf] on descriptor [fd]. *)
Definition opens {W : Type} (h : handler W) (path : string) (w : W)
    (elf : Elf) (fd : Z) (w' : W) : Prop :=
  exists v w1 w2,
    h Z (elf_version EV_CURRENT) w = (v, w1) /\ v <> EV_NONE /\
    h Z (open path O_RDONLY 0) w1 = (fd, w2) /\ 0 <= fd /\
    h (option Elf) (elf_begin fd) w2 = (Some elf, w').

(** An event of the metadata scan: never a submission, and no map creation
    either when [nomaps] holds. *)
Definition quiet (nomaps : Prop) (e : event) : Prop :=
  is_prog_load e = false /\ (nomaps -> is_create_map e = false).

(** A relocation entry the loop gets through: its target is a 64-bit
    immediate load inside the program, its symbol exists and its map index
    lies inside [map_fd]. *)
Definition entry_ok (sz : Z) (symbols : option Elf_Data) (fds : list Z)
    (insn : list bpf_insn) (rel : GElf_Rel) : bool :=
  match insn !! insn_index rel,
        gelf_getsym symbols (to_int (GELF_R_SYM (r_info rel))) with
  | Some ins, Some sym =>
      (code ins =? Z.lor (Z.lor BPF_LD BPF_IMM) BPF_DW)
      && match zlookup fds (st_value sym / sz) with
         | Some _ => true
         | None => false
         end
  | _, _ => false
  end.

Definition invalid_relo (rel : GElf_Rel) (ins : bpf_insn) : message :=
  msg_invalid_relo (to_uint (r_offset rel / sizeof_bpf_insn)) (code ins).

(** The instructions a trace shows as submitted. *)
Definition submitted_insns (e : event) : option (list bpf_insn) :=
  match e with
  | Ev (bpf_prog_load _ insns _ _ _) _ => Some insns
  | _ => None
  end.

(** What [get_sec] tells about a section apart from its data. *)
Definition sec_kind (elf : Elf) (j : Z) : Z + string * GElf_Shdr :=
  match get_sec elf j with
  | inl e => inl e
  | inr (shname, shdr, _) => inr (shname, shdr)
  end.

(** A scan body that passes over the sections [skip] picks out. *)
Definition skipping (skip : Z -> bool)
    (body : Z -> state -> proc (Z * globals + state))
    : Z -> state -> proc (Z * globals + state) :=
  fun j s => if skip j then Ret (inr s) else body j s.

(** No submission and no change of the resource limit among these events. *)
Definition no_submission (t : list event) : Prop :=
  Forall (fun e => is_prog_load e = false /\ is_getrlimit e = false
                   /\ is_setrlimit e = false) t.

(** No probe registration among these events. *)
Definition no_registration (t : list event) : Prop :=
  Forall (fun e => is_system e = false) t.

(** The failure is reported: [errno] is read and printed with [what]. *)
Definition reported (what : Z -> message) (t : list event) : Prop :=
  exists e, t = [Ev errno e; Ev (printf (what e)) tt].

(** What [load_and_attach] does about a submission, told by the trace [t]
    and the outcome [o]: the program is submitted; when that fails with
    [EPERM], [errno] is printed and the locked-memory limit is read; when
    that succeeds, both limits are set to [RLIM_INFINITY]; when that succeeds
    too, the program is submitted a second and last time.  Every other
    failure is reported and ends the function with -1. *)
Definition retry_protocol (submit : call Z) (g : globals)
    (o : outcome (Z * globals)) (t : list event) : Prop :=
  exists fd1 rest,
    t = Ev submit fd1 :: rest /\
    (0 <= fd1 -> no_submission rest) /\
    (fd1 < 0 ->
     exists e rest1,
       rest = Ev errno e :: rest1 /\
       (e <> EPERM ->
        reported msg_prog_load_failed rest1 /\ o = Done (-1, g)) /\
       (e = EPERM ->
        exists e' ret rl rest2,
          rest1 = Ev errno e' :: Ev (printf (msg_prog_load_retry e')) tt
                  :: Ev (getrlimit RLIMIT_MEMLOCK) (ret, rl) :: rest2 /\
          (ret <> 0 ->
           reported msg_prog_load_failed rest2 /\ o = Done (-1, g)) /\
          (ret = 0 ->
           exists ret2 rest3,
             rest2 = Ev (setrlimit RLIMIT_MEMLOCK
                                   (mk_rlimit RLIM_INFINITY RLIM_INFINITY)) ret2
                     :: rest3 /\
             (ret2 <> 0 ->
              reported msg_setrlimit_failed rest3 /\ o = Done (-1, g)) /\
             (ret2 = 0 ->
              exists fd2 rest4,
                rest3 = Ev submit fd2 :: rest4 /\
                (0 <= fd2 -> no_submission rest4) /\
                (fd2 < 0 ->
                 reported msg_prog_load_failed rest4 /\ o = Done (-1, g)))))).

Definition probe_prefix (ret : bool) : string :=
  if ret then "kretprobe/" else "kprobe/".

Definition probe_prefix_length (ret : bool) : nat := if ret then 10%nat else 7%nat.

(** The command that registers a probe for [name]. *)
Definition registration (ret : bool) (name : string) : string :=
  let c := if ret then "r" else "p" in
  snprintf_256 ("echo '" +++ c +++ ":" +++ c +++ name +++ " " +++ name
                +++ "' >> /sys/kernel/debug/tracing/kprobe_events").

(** *** Further vocabulary: frames, event kinds, attachment *)

(** Two states of the globals that differ in [map_fd] and [prog_array_fd] at
    most: what map provisioning may change. *)
Definition same_but_maps (g g' : globals) : Prop :=
  license g' = license g /\ kern_version g' = kern_version g /\
  processed_sec g' = processed_sec g /\ prog_fd g' = prog_fd g /\
  event_fd g' = event_fd g /\ prog_cnt g' = prog_cnt g.

(** Two states of the globals that differ in [prog_fd], [prog_cnt] and
    [event_fd] at most: what [load_and_attach] may change. *)
Definition same_but_progs (g g' : globals) : Prop :=
  license g' = license g /\ kern_version g' = kern_version g /\
  processed_sec g' = processed_sec g /\ map_fd g' = map_fd g /\
  prog_array_fd g' = prog_array_fd g.

(** An instruction as relocation may leave it: as it was, or a 64-bit
    immediate load patched with one of the handles [fds]. *)
Definition kept_or_patched (fds : list Z) (ins ins' : bpf_insn) : Prop :=
  ins' = ins \/ (is_ld_imm_dw ins /\ exists fd, elem_of fd fds /\ ins' = patched ins fd).

(** The environment does not get as far as an object with an ELF header:
    [elf_version] fails, or [open], or [elf_begin], or [gelf_getehdr].  [t]
    holds the calls made and [w'] is the environment afterwards. *)
Definition fails_to_open {W : Type} (h : handler W) (path : string) (w : W)
    (t : list event) (w' : W) : Prop :=
  exists v w1,
    h Z (elf_version EV_CURRENT) w = (v, w1) /\
    ((v = EV_NONE /\ t = [Ev (elf_version EV_CURRENT) v] /\ w' = w1)
     \/
     (v <> EV_NONE /\
      exists fd w2,
        h Z (open path O_RDONLY 0) w1 = (fd, w2) /\
        ((fd < 0 /\
          t = [Ev (elf_version EV_CURRENT) v; Ev (open path O_RDONLY 0) fd] /\
          w' = w2)
         \/
         (0 <= fd /\
          exists elf,
            h (option Elf) (elf_begin fd) w2 = (elf, w') /\
            match elf with
            | None => True
            | Some e => elf_ehdr e = None
            end /\
            t = [Ev (elf_version EV_CURRENT) v; Ev (open path O_RDONLY 0) fd;
                 Ev (elf_begin fd) elf])))).

(** A map creation that failed. *)
Definition failed_create (e : event) : bool :=
  match e with
  | Ev c x =>
      match c in call X return X -> bool with
      | bpf_create_map _ _ _ _ _ => fun fd => fd <? 0
      | _ => fun _ => false
      end x
  end.

(** If [e] is a submission, it is one of a kprobe program under the license
    [lic] and the kernel version [ver]. *)
Definition submission_of (lic : list byte) (ver : Z) (e : event) : Prop :=
  match e with
  | Ev (bpf_prog_load ty _ _ l v) _ =>
      ty = BPF_PROG_TYPE_KPROBE /\ l = lic /\ v = ver
  | _ => True
  end.

(** An event of the two later scans: never a map creation. *)
Definition later_event (lic : list byte) (ver : Z) (e : event) : Prop :=
  is_create_map e = false /\ submission_of lic ver e.

(** An event of the metadata scan: neither a submission nor a [close]. *)
Definition scan_event (e : event) : Prop :=
  is_prog_load e = false /\ is_close e = false.

(** An event of a metadata scan that goes on: no map creation failed. *)
Definition scan_went_on (e : event) : Prop :=
  scan_event e /\ failed_create e = false.

(** What the two later scans keep for the scan to come. *)
Definition kept_by_later_scans (s s' : state) : Prop :=
  license (st_g s') = license (st_g s) /\
  kern_version (st_g s') = kern_version (st_g s) /\
  length (processed_sec (st_g s')) = length (processed_sec (st_g s)).

(** The handle the kernel answered a submission with, *)
Definition loaded_fd (e : event) : option Z :=
  match e with
  | Ev c x =>
      match c in call X return X -> option Z with
      | bpf_prog_load _ _ _ _ _ => fun fd => Some fd
      | _ => fun _ => None
      end x
  end.

(** and the handles a trace shows, in order. *)
Definition loaded_fds (t : list event) : list Z := omap loaded_fd t.

(** A submission that went through: the kernel holds one more program. *)
Definition is_loaded (e : event) : bool :=
  match loaded_fd e with
  | Some fd => negb (fd <? 0)
  | None => false
  end.

(** The test of [load_and_attach] for a kprobe or a kretprobe. *)
Definition is_probe_name (event : string) : bool :=
  strncmp_eq event "kprobe/" 7 || strncmp_eq event "kretprobe/" 10.

(** The file that holds the id of the probe registered for [name]. *)
Definition id_file (ret : bool) (name : string) : string :=
  DEBUGFS +++ "events/kprobes/" +++ (if ret then "r" else "p") +++ name +++ "/id".

(** The globals once the program handle [fd] has been recorded. *)
Definition record_prog (g : globals) (fd : Z) : globals :=
  set_prog_cnt (set_prog_fd g (<[Z.to_nat (prog_cnt g) := fd]> (prog_fd g)))
               (prog_cnt g + 1).

(** The calls that attach the program [fd] to the probe [name], with the
    answers of the environment: the probe is registered, its id is read
    from the id file, a perf event is opened for that id, enabled and given
    the program. *)
Definition attach_calls (ret : bool) (name : string) (fd : Z)
    (err efd0 n : Z) (text : string) (c : Z) (attr : perf_event_attr)
    (efd x y : Z) : list event :=
  [Ev (system (registration ret name)) err;
   Ev (open (id_file ret name) O_RDONLY 0) efd0;
   Ev (read efd0 256) (n, text);
   Ev (close efd0) c;
   Ev (perf_event_open attr (-1) 0 (-1) 0) efd;
   Ev (ioctl efd PERF_EVENT_IOC_ENABLE 0) x;
   Ev (ioctl efd PERF_EVENT_IOC_SET_BPF fd) y].

(** The id that [load_and_attach] takes from the [n] bytes read into
    [buf]: [buf[n] = 0; id = atoi(buf)]. *)
Definition id_read (n : Z) (text : string) : Z :=
  atoi (c_str (String.substring 0 (Z.to_nat n) text)).

(** The program [fd], recorded in [g1], has been attached to the probe
    [name] by the calls [t], which leaves the globals [g']. *)
Definition attached (ret : bool) (name : string) (fd : Z) (g1 g' : globals)
    (t : list event) : Prop :=
  exists err efd0 n text c efd x y,
    t = attach_calls ret name fd err efd0 n text c
          (mk_attr PERF_TYPE_TRACEPOINT PERF_SAMPLE_RAW 1 1 (id_read n text))
          efd x y /\
    name <> "" /\ Z.of_nat (String.length (id_file ret name)) < 256 /\
    0 <= err /\ 0 <= efd0 /\ 0 <= n /\ to_ulong n < 256 /\ 0 <= efd /\
    g' = set_event_fd g1 (<[Z.to_nat (prog_cnt g1 - 1) := efd]> (event_fd g1)).

(** The data of section [i] if the metadata scan takes it as the license,
    and if it takes it as the symbol table: a section is told by its name
    first and by its type last. *)
Definition license_section (elf : Elf) (i : Z) : option Elf_Data :=
  match get_sec elf i with
  | inr (shname, _, data) =>
      if String.eqb shname "license" then Some data else None
  | inl _ => None
  end.

Definition symtab_section (elf : Elf) (i : Z) : option Elf_Data :=
  match get_sec elf i with
  | inr (shname, shdr, data) =>
      if String.eqb shname "license" || String.eqb shname "version"
         || String.eqb shname "maps"
      then None
      else if sh_type shdr =? SHT_SYMTAB then Some data else None
  | inl _ => None
  end.

(** [license] after [memcpy(license, data->d_buf, data->d_size)]. *)
Definition license_copied (data : Elf_Data) (old : list byte) : list byte :=
  (take (Z.to_nat (d_size data)) (d_buf data)
   ++ drop (Z.to_nat (d_size data)) old)%list.

(** The report of a failed [read] of an id file. *)
Definition is_read_failure (e : event) : bool :=
  match e with
  | Ev (printf (msg_read_failed _ _)) _ => true
  | _ => false
  end.

(* ===================================================================== *)
(** ** Example objects *)
(* ===================================================================== *)

Definition prog_array_map : bpf_map_def := mk_map_def BPF_MAP_TYPE_PROG_ARRAY 4 4 10 0.
Definition hash_map : bpf_map_def := mk_map_def 1 4 8 10 0.

Definition ld_map_example : list bpf_insn :=
  [mk_insn 183 1 0 0 0; mk_insn 24 1 0 0 0; mk_insn 0 0 0 0 0; mk_insn 149 0 0 0 0].
Definition rel_example : Elf_Data :=
  mk_data 16 [] [] [] [mk_rel 8 (2 ^ 32)] [].
Definition symtab_example : Elf_Data :=
  mk_data 48 [] [] [] [] [mk_sym 0; mk_sym 20].
Definition rel_shdr_example : GElf_Shdr := mk_shdr SHT_REL 16 16 1 2 0.
Definition two_maps_globals : globals :=
  set_map_fd initial_globals (<[0%nat := 5]> (<[1%nat := 6]> (map_fd initial_globals))).

Definition null_scn : Elf_Scn :=
  mk_scn (Some (mk_shdr 0 0 0 0 0 0)) (Some "") None false.

Definition prog_scn (name : string) (insns : list bpf_insn) : Elf_Scn :=
  let size := 8 * Z.of_nat (length insns) in
  mk_scn (Some (mk_shdr 1 size 0 0 0 6)) (Some name)
         (Some (mk_data size [] [] insns [] [])) false.

Definition bytes_scn (name : string) (bytes : list byte) : Elf_Scn :=
  let size := Z.of_nat (length bytes) in
  mk_scn (Some (mk_shdr 1 size 0 0 0 3)) (Some name)
         (Some (mk_data size bytes [] [] [] [])) false.

Definition maps_scn (maps : list bpf_map_def) : Elf_Scn :=
  let size := 20 * Z.of_nat (length maps) in
  mk_scn (Some (mk_shdr 1 size 0 0 0 3)) (Some "maps")
         (Some (mk_data size [] maps [] [] [])) false.

Definition symtab_scn (syms : list GElf_Sym) : Elf_Scn :=
  let size := 24 * Z.of_nat (length syms) in
  mk_scn (Some (mk_shdr SHT_SYMTAB size 24 0 0 0)) (Some ".symtab")
         (Some (mk_data size [] [] [] [] syms)) false.

Definition rel_scn (name : string) (target : Z) (rels : list GElf_Rel) : Elf_Scn :=
  let size := 16 * Z.of_nat (length rels) in
  mk_scn (Some (mk_shdr SHT_REL size 16 target 0 0)) (Some name)
         (Some (mk_data size [] [] [] rels [])) false.

Definition object (scns : list Elf_Scn) : Elf :=
  mk_elf (Some (mk_ehdr (Z.of_nat (length scns)))) scns.

Definition kprobe_only : Elf :=
  object [null_scn; prog_scn "kprobe/do_sys_open" ld_map_example].

Definition version_only : Elf :=
  object [null_scn; bytes_scn "version" [x01; x02; x03];
          maps_scn [hash_map]; prog_scn "kprobe/do_sys_open" ld_map_example].

Definition maps_then_version : Elf :=
  object [null_scn; maps_scn [hash_map]; bytes_scn "version" [x01; x02; x03]].

Definition long_license : Elf :=
  object [null_scn; bytes_scn "license" (replicate 129 x47)].

Definition bad_rel_object : Elf :=
  object [null_scn; prog_scn "kprobe/do_sys_open" ld_map_example;
          symtab_scn [mk_sym 0; mk_sym 20];
          rel_scn ".relkprobe/do_sys_open" 1 [mk_rel 8 (2 ^ 32); mk_rel 0 (2 ^ 32)]].

Definition bad_rel_state : state :=
  mk_state two_maps_globals bad_rel_object (Some symtab_example).

Definition stray_map_object (st_value : Z) : Elf :=
  object [null_scn; maps_scn [hash_map];
          prog_scn "kprobe/do_sys_open"
                   [mk_insn 24 1 0 0 0; mk_insn 0 0 0 0 0; mk_insn 149 0 0 0 0];
          symtab_scn [mk_sym 0; mk_sym st_value];
          rel_scn ".relkprobe/do_sys_open" 2 [mk_rel 0 (2 ^ 32)]].

Definition twice_relocated : Elf :=
  object [null_scn;
          prog_scn "kprobe/do_sys_open"
                   [mk_insn 24 1 0 0 0; mk_insn 0 0 0 0 0; mk_insn 149 0 0 0 0];
          symtab_scn [mk_sym 0];
          rel_scn ".relkprobe/do_sys_open" 1 [mk_rel 0 0];
          rel_scn ".rel.again" 1 [mk_rel 0 0]].

(** An object without an ELF header. *)
Definition headerless : Elf := mk_elf None [null_scn].

(** A "version" section of size 0 before a probe. *)
Definition empty_version : Elf :=
  object [null_scn;
          mk_scn (Some (mk_shdr 1 0 0 0 0 3)) (Some "version")
                 (Some (mk_data 0 [] [] [] [] [])) false;
          prog_scn "kprobe/do_sys_open" ld_map_example].

(** Two maps and a probe. *)
Definition maps_and_probe : Elf :=
  object [null_scn; maps_scn [hash_map; hash_map];
          prog_scn "kprobe/do_sys_open" ld_map_example].

(** A license, a version and a probe. *)
Definition licensed_probe : Elf :=
  object [null_scn; bytes_scn "license" [x47; x50; x4c; x00];
          bytes_scn "version" [x01; x02; x03; x00];
          prog_scn "kprobe/do_sys_open" ld_map_example].

(** A probe with one relocation entry that resolves. *)
Definition good_rel_object : Elf :=
  object [null_scn; prog_scn "kprobe/do_sys_open" ld_map_example;
          symtab_scn [mk_sym 0; mk_sym 20];
          rel_scn ".relkprobe/do_sys_open" 1 [mk_rel 8 (2 ^ 32)]].

(** 130 sections: more than [processed_sec] has marks. *)
Definition many_sections : Elf := object (replicate 130 null_scn).

(** A probe name of 211 characters. *)
Definition long_name : string := string_of_list_ascii (repeat "a"%char 211).

(** The globals when [prog_fd] is full. *)
Definition full_globals : globals := set_prog_cnt initial_globals 32.

(** A license, a version, a map and a probe, and 125 empty sections after
    them: 130 sections, more than [processed_sec] has marks. *)
Definition complete_and_padded : Elf :=
  object ([null_scn; bytes_scn "license" [x47; x50; x4c; x00];
           bytes_scn "version" [x01; x02; x03; x00]; maps_scn [hash_map];
           prog_scn "kprobe/do_sys_open" ld_map_example]
          ++ replicate 125 null_scn).

(* ===================================================================== *)
(** ** Running programs: general facts *)
(* ===================================================================== *)

Lemma run_bind {W A B : Type} (h : handler W) (m : proc A) (f : A -> proc B) w :
  run h (bind m f) w =
  match run h m w with
  | (Done a, t, w1) =>
      let '(o, t', w2) := run h (f a) w1 in (o, (t ++ t')%list, w2)
  | (Undefined u, t, w1) => (Undefined u, t, w1)
  end.
Proof.
  revert w. induction m as [a|u|X c k IH]; intros w; simpl.
  - destruct (run h (f a) w) as [[o t] w2]. reflexivity.
  - reflexivity.
  - destruct (h X c w) as [x w1]. rewrite IH.
    destruct (run h (k x) w1) as [[[a|u] t] w2]; [|reflexivity].
    destruct (run h (f a) w2) as [[o t'] w3]. reflexivity.
Qed.

Lemma run_perform {W X : Type} (h : handler W) (c : call X) w :
  run h (perform c) w = (Done (fst (h X c w)), [Ev c (fst (h X c w))], snd (h X c w)).
Proof. unfold perform. simpl. destruct (h X c w). reflexivity. Qed.

Lemma zlookup_nat {A : Type} (l : list A) (i : nat) :
  zlookup l (Z.of_nat i) = l !! i.
Proof.
  unfold zlookup. destruct (0 <=? Z.of_nat i) eqn:E.
  - by rewrite Nat2Z.id.
  - apply Z.leb_gt in E. lia.
Qed.

Lemma zlookup_Some {A : Type} (l : list A) (i : Z) (a : A) :
  zlookup l i = Some a -> 0 <= i /\ l !! Z.to_nat i = Some a.
Proof.
  unfold zlookup. destruct (0 <=? i) eqn:E; [|discriminate].
  apply Z.leb_le in E. auto.
Qed.

Lemma for_loop_S {S R : Type} (n : nat) (i : Z)
    (body : Z -> S -> proc (R + S)) (s : S) :
  for_loop (Datatypes.S n) i body s =
  bind (body i s) (fun r => match r with
                            | inl v => Ret (inl v)
                            | inr s' => for_loop n (i + 1) body s'
                            end).
Proof. reflexivity. Qed.

(* ===================================================================== *)
(** ** Map provisioning: [load_maps] *)
(* ===================================================================== *)

Section Provisioning.

Context {W : Type} (h : handler W).

Lemma load_maps_body_run maps (i : nat) g w m :
  maps !! i = Some m ->
  (i < length (map_fd g))%nat ->
  run h (load_maps_body maps (Z.of_nat i) g) w =
  let '(fd, w1) := h Z (create_call m) w in
  let g1 := set_map_fd g (<[i := fd]> (map_fd g)) in
  if fd <? 0 then
    let '(e, w2) := h Z errno w1 in
    let '(u, w3) := h unit (printf (msg_map_failed e)) w2 in
    (Done (inl (1, g1)),
     [Ev (create_call m) fd; Ev errno e; Ev (printf (msg_map_failed e)) u], w3)
  else
    (Done (inr (if type m =? BPF_MAP_TYPE_PROG_ARRAY
                then set_prog_array_fd g1 fd else g1)),
     [Ev (create_call m) fd], w1).
Proof.
  intros Hm Hi. unfold load_maps_body, array_get, array_set.
  rewrite !zlookup_nat, Hm. simpl. unfold create_call.
  destruct (h Z _ w) as [fd w1].
  destruct (lookup_lt_is_Some_2 (map_fd g) i Hi) as [old Hold].
  rewrite Hold. simpl. rewrite Nat2Z.id.
  destruct (fd <? 0); simpl.
  - destruct (h Z errno w1) as [e w2].
    destruct (h unit (printf (msg_map_failed e)) w2) as [u w3]. reflexivity.
  - destruct (type m =? BPF_MAP_TYPE_PROG_ARRAY); reflexivity.
Qed.

Lemma record_maps_length i ms fds g :
  length (map_fd (record_maps i ms fds g)) = length (map_fd g).
Proof.
  revert i fds g. induction ms as [|m ms IH]; intros i [|fd fds] g; simpl; auto.
  rewrite IH. destruct (type m =? _); simpl; apply length_insert.
Qed.

(** The loop over the records [ms] found from index [i] on: either all are
    created, or the creation at position [length fds] fails. *)
Lemma load_maps_loop_run ms : forall maps (i : nat) g w,
  (forall j m, ms !! j = Some m -> maps !! (i + j)%nat = Some m) ->
  (i + length ms <= length (map_fd g))%nat ->
  exists fds w',
    Forall (fun fd => 0 <= fd) fds /\
    ((length fds = length ms /\
      run h (for_loop (length ms) (Z.of_nat i) (load_maps_body maps) g) w =
      (Done (inr (record_maps i ms fds g)), create_events ms fds, w'))
     \/
     (exists fd e,
        (length fds < length ms)%nat /\ fd < 0 /\
        let gk := record_maps i ms fds g in
        run h (for_loop (length ms) (Z.of_nat i) (load_maps_body maps) g) w =
        (Done (inl (1, set_map_fd gk (<[(i + length fds)%nat := fd]> (map_fd gk)))),
         (create_events ms (fds ++ [fd])
          ++ [Ev errno e; Ev (printf (msg_map_failed e)) tt])%list, w'))).
Proof.
  induction ms as [|m ms IH]; intros maps i g w Hs Hl.
  - exists [], w. split; [constructor|]. left. split; reflexivity.
  - simpl length in *. rewrite for_loop_S, run_bind.
    assert (Hm : maps !! i = Some m).
    { rewrite <- (Nat.add_0_r i). apply Hs. reflexivity. }
    rewrite (load_maps_body_run maps i g w m Hm); [|lia].
    destruct (h Z (create_call m) w) as [fd w1] eqn:Hcall.
    destruct (fd <? 0) eqn:Hfd.
    + apply Z.ltb_lt in Hfd.
      destruct (h Z errno w1) as [e w2].
      destruct (h unit (printf (msg_map_failed e)) w2) as [[] w3].
      exists [], w3. split; [constructor|]. right. exists fd, e.
      split; [simpl; lia|]. split; [assumption|].
      simpl. rewrite Nat.add_0_r. destruct ms; reflexivity.
    + apply Z.ltb_ge in Hfd. cbv beta iota zeta.
      set (g1 := if type m =? BPF_MAP_TYPE_PROG_ARRAY
                 then set_prog_array_fd (set_map_fd g (<[i:=fd]> (map_fd g))) fd
                 else set_map_fd g (<[i:=fd]> (map_fd g))).
      assert (Hg1 : length (map_fd g1) = length (map_fd g)).
      { subst g1. destruct (type m =? _); simpl; apply length_insert. }
      replace (Z.of_nat i + 1) with (Z.of_nat (S i)) by lia.
      cbv beta iota.
      destruct (IH maps (S i) g1 w1) as (fds & w' & Hpos & Hrun).
      { intros j m' Hj. replace (S i + j)%nat with (i + S j)%nat by lia.
        apply Hs. exact Hj. }
      { rewrite Hg1. lia. }
      exists (fd :: fds), w'. split; [constructor; assumption|].
      destruct Hrun as [[Hlen Hrun]|(fd' & e & Hlen & Hneg & Hrun)].
      * left. split; [simpl; lia|]. rewrite Hrun. reflexivity.
      * right. exists fd', e. split; [simpl; lia|]. split; [assumption|].
        cbv zeta in Hrun |- *. rewrite Hrun. simpl.
        replace (i + S (length fds))%nat with (S i + length fds)%nat by lia.
        reflexivity.
Qed.

End Provisioning.

(** *** The globals after provisioning *)

Lemma record_maps_nil_r i ms g : record_maps i ms [] g = g.
Proof. destruct ms; reflexivity. Qed.

Lemma map_fd_record_step (g : globals) (i : nat) (m : bpf_map_def) (fd : Z) :
  map_fd (if type m =? BPF_MAP_TYPE_PROG_ARRAY
          then set_prog_array_fd (set_map_fd g (<[i:=fd]> (map_fd g))) fd
          else set_map_fd g (<[i:=fd]> (map_fd g)))
  = <[i:=fd]> (map_fd g).
Proof. destruct (type m =? _); reflexivity. Qed.

Lemma record_maps_map_fd ms : forall i fds g,
  (length fds <= length ms)%nat ->
  (i + length fds <= length (map_fd g))%nat ->
  map_fd (record_maps i ms fds g) =
  (take i (map_fd g) ++ fds ++ drop (i + length fds) (map_fd g))%list.
Proof.
  induction ms as [|m ms IH]; intros i fds g Hlen Hi.
  - destruct fds; [|simpl in Hlen; lia]. simpl.
    rewrite Nat.add_0_r. symmetry. apply take_drop.
  - destruct fds as [|fd fds].
    + simpl. rewrite Nat.add_0_r. symmetry. apply take_drop.
    + simpl in Hlen, Hi. simpl record_maps.
      rewrite IH; rewrite ?map_fd_record_step; [|lia|rewrite length_insert; simpl; lia].
      rewrite (take_S_r _ i fd) by (apply list_lookup_insert_eq; lia).
      rewrite take_insert_ge by lia.
      rewrite drop_insert_lt by lia.
      rewrite <- app_assoc. simpl.
      replace (S (i + length fds)) with (i + S (length fds))%nat by lia.
      reflexivity.
Qed.

Lemma remembered_cons ty fd created old :
  remembered ((ty, fd) :: created) old =
  remembered created (if ty =? BPF_MAP_TYPE_PROG_ARRAY then fd else old).
Proof.
  unfold remembered. rewrite filter_cons. simpl.
  destruct (decide (ty = BPF_MAP_TYPE_PROG_ARRAY)) as [E|E].
  - rewrite last_cons. apply Z.eqb_eq in E as ->.
    destruct (last _); reflexivity.
  - apply Z.eqb_neq in E as ->. reflexivity.
Qed.

Lemma prog_array_fd_record_maps ms : forall i fds g,
  prog_array_fd (record_maps i ms fds g) =
  remembered (zip (type <$> ms) fds) (prog_array_fd g).
Proof.
  induction ms as [|m ms IH]; intros i fds g.
  - reflexivity.
  - destruct fds as [|fd fds]; [reflexivity|].
    simpl record_maps. rewrite IH. simpl. rewrite remembered_cons.
    destruct (type m =? _); reflexivity.
Qed.

Lemma created_maps_create_events ms : forall fds,
  Forall (fun fd => 0 <= fd) fds ->
  created_maps (create_events ms fds) = zip (type <$> ms) fds.
Proof.
  induction ms as [|m ms IH]; intros fds Hpos; [reflexivity|].
  destruct Hpos as [|fd fds Hfd Hpos]; [reflexivity|].
  unfold created_maps, create_events in *. simpl.
  apply Z.ltb_ge in Hfd. rewrite Hfd. simpl. f_equal. apply IH, Hpos.
Qed.

Lemma created_maps_failed ms : forall fds fd,
  Forall (fun fd => 0 <= fd) fds -> fd < 0 ->
  created_maps (create_events ms (fds ++ [fd])) = zip (type <$> ms) fds.
Proof.
  induction ms as [|m ms IH]; intros fds fd Hpos Hneg; [reflexivity|].
  destruct Hpos as [|fd0 fds Hfd Hpos].
  - unfold created_maps, create_events. simpl.
    apply Z.ltb_lt in Hneg. rewrite Hneg. destruct ms; reflexivity.
  - unfold created_maps, create_events in *. simpl.
    apply Z.ltb_ge in Hfd. rewrite Hfd. simpl. f_equal. apply IH; assumption.
Qed.

Lemma load_maps_run {W : Type} (h : handler W) (sz : Z) maps len g w :
  (map_count sz len <= length maps)%nat ->
  (map_count sz len <= length (map_fd g))%nat ->
  let ms := take (map_count sz len) maps in
  exists fds w',
    Forall (fun fd => 0 <= fd) fds /\
    ((length fds = map_count sz len /\
      run h (load_maps sz maps len g) w =
      (Done (0, record_maps 0 ms fds g), create_events ms fds, w'))
     \/
     (exists fd e,
        (length fds < map_count sz len)%nat /\ fd < 0 /\
        let gk := record_maps 0 ms fds g in
        run h (load_maps sz maps len g) w =
        (Done (1, set_map_fd gk (<[length fds := fd]> (map_fd gk))),
         (create_events ms (fds ++ [fd])
          ++ [Ev errno e; Ev (printf (msg_map_failed e)) tt])%list, w'))).
Proof.
  intros Hmaps Hfd ms.
  assert (Hms : length ms = map_count sz len).
  { subst ms. rewrite length_take. lia. }
  destruct (load_maps_loop_run h ms maps 0 g w) as (fds & w' & Hpos & Hrun).
  { intros j m Hj. subst ms. simpl.
    rewrite lookup_take in Hj. case_decide; [assumption|discriminate]. }
  { lia. }
  exists fds, w'. split; [assumption|].
  unfold load_maps. fold (map_count sz len). rewrite <- Hms, run_bind.
  change (Z.of_nat 0) with 0 in Hrun.
  destruct Hrun as [[Hlen Hrun]|(fd & e & Hlen & Hneg & Hrun)].
  - left. split; [assumption|]. rewrite Hrun. simpl.
    rewrite app_nil_r. reflexivity.
  - right. exists fd, e. split; [assumption|]. split; [assumption|].
    cbv zeta in Hrun |- *. rewrite Hrun. simpl.
    rewrite app_nil_r. reflexivity.
Qed.

Lemma count_events_0 (p : event -> bool) (t : list event) :
  Forall (fun e => p e = false) t -> count_events p t = 0%nat.
Proof.
  unfold count_events. induction 1 as [|e t He _ IH]; simpl; [reflexivity|].
  rewrite He. exact IH.
Qed.

Lemma create_events_no_close ms : forall fds,
  Forall (fun e => is_close e = false) (create_events ms fds).
Proof.
  induction ms as [|m ms IH]; intros [|fd fds]; try constructor.
  - reflexivity.
  - apply IH.
Qed.

(** C3, as the code has it: for a maps section of [N] records, [N] the byte
    length divided by the record size with the remainder dropped and at
    most the 32 slots of [map_fd], [load_maps] calls [bpf_create_map] once
    per record in definition order and makes no other call as long as the
    creations succeed; the first [N] slots of [map_fd] then hold the
    handles in definition order and 0 is returned.  At the first creation
    that fails it stops: the trace ends with that call, the read of [errno]
    and the message carrying that [errno]; 1 is returned.  No map is ever
    closed. *)
Theorem load_maps_creates_in_order {W : Type} (h : handler W) (sz : Z)
    maps len g w :
  (map_count sz len <= length maps)%nat ->
  (map_count sz len <= 32)%nat ->
  length (map_fd g) = 32%nat ->
  count_events is_close (trace_of (run h (load_maps sz maps len g) w)) = 0%nat /\
  exists fds g' w',
    Forall (fun fd => 0 <= fd) fds /\
    ((length fds = map_count sz len /\
      run h (load_maps sz maps len g) w =
      (Done (0, g'), create_events (take (map_count sz len) maps) fds, w') /\
      take (map_count sz len) (map_fd g') = fds)
     \/
     (exists fd e,
        (length fds < map_count sz len)%nat /\ fd < 0 /\
        run h (load_maps sz maps len g) w =
        (Done (1, g'),
         (create_events (take (S (length fds)) maps) (fds ++ [fd])
          ++ [Ev errno e; Ev (printf (msg_map_failed e)) tt])%list, w') /\
        take (S (length fds)) (map_fd g') = (fds ++ [fd])%list)).
Proof.
  intros Hmaps H32 Hg.
  destruct (load_maps_run h sz maps len g w) as (fds & w' & Hpos & Hrun);
    [assumption|lia|].
  split.
  { apply count_events_0.
    destruct Hrun as [[_ ->]|(fd & e & _ & _ & ->)]; unfold trace_of; cbn [fst snd].
    - apply create_events_no_close.
    - apply Forall_app. split; [apply create_events_no_close|].
      repeat constructor. }
  destruct Hrun as [[Hlen Hrun]|(fd & e & Hlen & Hneg & Hrun)].
  - exists fds, (record_maps 0 (take (map_count sz len) maps) fds g), w'.
    split; [assumption|]. left. split; [assumption|]. split; [assumption|].
    rewrite record_maps_map_fd; [|rewrite length_take; lia|lia].
    simpl. rewrite <- Hlen. apply take_app_length.
  - cbv zeta in Hrun.
    set (gk := record_maps 0 (take (map_count sz len) maps) fds g) in *.
    exists fds, (set_map_fd gk (<[length fds := fd]> (map_fd gk))), w'.
    split; [assumption|]. right. exists fd, e.
    split; [assumption|]. split; [assumption|]. split.
    + rewrite Hrun. f_equal. f_equal. f_equal.
      unfold create_events.
      rewrite <- (zip_with_take_l' _ (S (length fds)) (take _ maps));
        [|rewrite length_app; simpl; lia].
      rewrite take_take. f_equal. f_equal. lia.
    + simpl. subst gk.
      rewrite record_maps_map_fd; [|rewrite length_take; lia|lia].
      simpl.
      assert (Hd : (length fds < length (map_fd g))%nat) by lia.
      destruct (lookup_lt_is_Some_2 _ _ Hd) as [x Hx].
      rewrite (drop_S _ x _ Hx).
      rewrite insert_app_r_alt by lia. rewrite Nat.sub_diag. simpl.
      rewrite take_app_ge by lia.
      replace (S (length fds) - length fds)%nat with 1%nat by lia.
      reflexivity.
Qed.

(** C9: whatever [load_maps] returns, the program-array handle remembered
    afterwards is the handle of the last map of program-array type that was
    created, so with two or more such maps the last one wins; it is the
    handle remembered before when no such map was created. *)
Theorem load_maps_remembers_last_prog_array {W : Type} (h : handler W)
    (sz : Z) maps len g w ret g' t w' :
  (map_count sz len <= length maps)%nat ->
  (map_count sz len <= 32)%nat ->
  length (map_fd g) = 32%nat ->
  run h (load_maps sz maps len g) w = (Done (ret, g'), t, w') ->
  prog_array_fd g' = remembered (created_maps t) (prog_array_fd g).
Proof.
  intros Hmaps H32 Hg Hret.
  destruct (load_maps_run h sz maps len g w) as (fds & w1 & Hpos & Hrun);
    [assumption|lia|].
  destruct Hrun as [[Hlen Hrun]|(fd & e & Hlen & Hneg & Hrun)].
  - rewrite Hrun in Hret. injection Hret as <- <- <- <-.
    rewrite prog_array_fd_record_maps, created_maps_create_events by assumption.
    reflexivity.
  - cbv zeta in Hrun. rewrite Hrun in Hret. injection Hret as <- <- <- <-.
    unfold created_maps. rewrite omap_app. simpl. rewrite app_nil_r.
    fold (created_maps (create_events (take (map_count sz len) maps) (fds ++ [fd]))).
    rewrite created_maps_failed by assumption.
    simpl. apply prog_array_fd_record_maps.
Qed.

Lemma load_maps_creates_in_order_witness :
  (map_count 20 45 <= length [hash_map; prog_array_map])%nat /\
  (map_count 20 45 <= 32)%nat /\
  length (map_fd initial_globals) = 32%nat /\
  count_events is_close
    (trace_of (run (scripted None)
                   (load_maps 20 [hash_map; prog_array_map] 45 initial_globals)
                   [5; 6])) = 0%nat /\
  exists fds g' w',
    Forall (fun fd => 0 <= fd) fds /\
    ((length fds = map_count 20 45 /\
      run (scripted None)
          (load_maps 20 [hash_map; prog_array_map] 45 initial_globals) [5; 6] =
      (Done (0, g'),
       create_events (take (map_count 20 45) [hash_map; prog_array_map]) fds, w') /\
      take (map_count 20 45) (map_fd g') = fds)
     \/
     (exists fd e,
        (length fds < map_count 20 45)%nat /\ fd < 0 /\
        run (scripted None)
            (load_maps 20 [hash_map; prog_array_map] 45 initial_globals) [5; 6] =
        (Done (1, g'),
         (create_events (take (S (length fds)) [hash_map; prog_array_map])
                        (fds ++ [fd])
          ++ [Ev errno e; Ev (printf (msg_map_failed e)) tt])%list, w') /\
        take (S (length fds)) (map_fd g') = (fds ++ [fd])%list)).
Proof.
  assert (H1 : (map_count 20 45 <= length [hash_map; prog_array_map])%nat)
    by (vm_compute; lia).
  assert (H2 : (map_count 20 45 <= 32)%nat) by (vm_compute; lia).
  assert (H3 : length (map_fd initial_globals) = 32%nat) by reflexivity.
  split; [exact H1|]. split; [exact H2|]. split; [exact H3|].
  exact (load_maps_creates_in_order (scripted None) 20
           [hash_map; prog_array_map] 45 initial_globals [5; 6] H1 H2 H3).
Defined.

(** C3 as stated does not hold.  A creation failing at index 0 and one
    failing at index 1 are reported alike (same return value, same message),
    so no reading of the report yields the index that failed; and with 33
    records the 33rd handle is stored past the end of [map_fd]. *)
Lemma load_maps_report_omits_index :
  let fail_at_0 :=
    run (scripted None)
        (load_maps 20 [hash_map; hash_map] 40 initial_globals) [-1; 12] in
  let fail_at_1 :=
    run (scripted None)
        (load_maps 20 [hash_map; hash_map] 40 initial_globals) [5; -1; 12] in
  (count_events is_create_map (trace_of fail_at_0) = 1%nat /\
   count_events is_create_map (trace_of fail_at_1) = 2%nat /\
   report fail_at_0 = (Some 1, [msg_map_failed 12]) /\
   report fail_at_1 = (Some 1, [msg_map_failed 12]) /\
   ~ exists index_of : option Z * list message -> Z,
       index_of (report fail_at_0) = 0 /\ index_of (report fail_at_1) = 1) /\
  result_of (run (scripted None)
               (load_maps 20 (replicate 33 hash_map) 660 initial_globals) [])
  = Undefined (out_of_bounds "map_fd" 32).
Proof.
  cbv zeta. split; [|vm_compute; reflexivity].
  split; [vm_compute; reflexivity|]. split; [vm_compute; reflexivity|].
  split; [vm_compute; reflexivity|]. split; [vm_compute; reflexivity|].
  intros [index_of [H0 H1]].
  change (report (run (scripted None)
            (load_maps 20 [hash_map; hash_map] 40 initial_globals) [5; -1; 12]))
    with (report (run (scripted None)
            (load_maps 20 [hash_map; hash_map] 40 initial_globals) [-1; 12])) in H1.
  rewrite H0 in H1. discriminate.
Qed.

Lemma load_maps_remembers_last_prog_array_witness :
  exists ret g' t w',
    (map_count 20 60 <= length [prog_array_map; prog_array_map; hash_map])%nat /\
    (map_count 20 60 <= 32)%nat /\
    length (map_fd initial_globals) = 32%nat /\
    run (scripted None)
        (load_maps 20 [prog_array_map; prog_array_map; hash_map] 60
                   initial_globals) [5; 6; 7]
    = (Done (ret, g'), t, w') /\
    prog_array_fd g' = remembered (created_maps t) (prog_array_fd initial_globals) /\
    prog_array_fd g' = 6.
Proof.
  eexists _, _, _, _.
  assert (H1 : (map_count 20 60
                <= length [prog_array_map; prog_array_map; hash_map])%nat)
    by (vm_compute; lia).
  assert (H2 : (map_count 20 60 <= 32)%nat) by (vm_compute; lia).
  assert (H3 : length (map_fd initial_globals) = 32%nat) by reflexivity.
  split; [exact H1|]. split; [exact H2|]. split; [exact H3|].
  assert (H4 : run (scripted None)
        (load_maps 20 [prog_array_map; prog_array_map; hash_map] 60
                   initial_globals) [5; 6; 7]
      = (Done (0, _), _, _)) by (vm_compute; reflexivity).
  split; [exact H4|]. split; [|reflexivity].
  exact (load_maps_remembers_last_prog_array (scripted None) 20 _ 60
           initial_globals [5; 6; 7] _ _ _ _ H1 H2 H3 H4).
Defined.

(* ===================================================================== *)
(** ** Relocation: [parse_relo_and_apply] *)
(* ===================================================================== *)

Lemma run_bind_Done {W A B : Type} (h : handler W) (m : proc A)
    (f : A -> proc B) w b t w' :
  run h (bind m f) w = (Done b, t, w') ->
  exists a t1 w1 t2,
    run h m w = (Done a, t1, w1) /\ run h (f a) w1 = (Done b, t2, w')
    /\ t = (t1 ++ t2)%list.
Proof.
  rewrite run_bind. destruct (run h m w) as [[[a|u] t1] w1]; [|discriminate].
  destruct (run h (f a) w1) as [[o t2] w2] eqn:E. intros [= -> <- ->].
  exists a, t1, w1, t2. auto.
Qed.

Section Relocation.

Context {W : Type} (h : handler W) (sz : Z).
Context (data : Elf_Data) (symbols : option Elf_Data) (g : globals).

Lemma to_uint_nonneg z : 0 <= to_uint z.
Proof. unfold to_uint. apply Z.mod_pos_bound. lia. Qed.

(** One entry, when the loop body comes back: the entry and its target
    exist, and either the target is no 64-bit immediate load and the function
    returns 1 with the instructions as they were, or it is one and is
    patched with the handle found at [st_value / sz]. *)
Lemma relo_body_Done (i : nat) insn w r t w' :
  run h (relo_body sz data symbols g (Z.of_nat i) insn) w = (Done r, t, w') ->
  exists rel ins,
    as_rels data !! i = Some rel /\ insn !! insn_index rel = Some ins /\
    ((~ is_ld_imm_dw ins /\ r = inl (1, insn)
      /\ t = [Ev (printf (msg_invalid_relo (to_uint (r_offset rel / sizeof_bpf_insn))
                                          (code ins))) tt])
     \/
     (is_ld_imm_dw ins /\ t = [] /\ w' = w /\
      exists sym fd,
        gelf_getsym symbols (to_int (GELF_R_SYM (r_info rel))) = Some sym /\
        zlookup (map_fd g) (st_value sym / sz) = Some fd /\
        r = inr (<[insn_index rel := patched ins fd]> insn))).
Proof.
  unfold relo_body, gelf_getrel. rewrite zlookup_nat.
  destruct (as_rels data !! i) as [rel|] eqn:Hrel; [|discriminate].
  unfold array_get at 1. unfold zlookup at 1.
  pose proof (to_uint_nonneg (r_offset rel / sizeof_bpf_insn)) as Hnn.
  apply Z.leb_le in Hnn. rewrite Hnn. fold (insn_index rel).
  destruct (insn !! insn_index rel) as [ins|] eqn:Hins; [|discriminate].
  simpl. intros Hrun. exists rel, ins. split; [reflexivity|]. split; [assumption|].
  unfold is_ld_imm_dw.
  destruct (code ins =? Z.lor (Z.lor BPF_LD BPF_IMM) BPF_DW) eqn:Hc; simpl in Hrun.
  - apply Z.eqb_eq in Hc. right. split; [assumption|].
    destruct (gelf_getsym symbols _) as [sym|]; [|discriminate].
    unfold array_get in Hrun.
    destruct (zlookup (map_fd g) (st_value sym / sz)) as [fd|] eqn:Hfd;
      [|discriminate].
    simpl in Hrun. injection Hrun as <- <- <-.
    split; [reflexivity|]. split; [reflexivity|]. exists sym, fd. auto.
  - apply Z.eqb_neq in Hc. left. split; [assumption|].
    destruct (h unit _ w) as [[] w1]. injection Hrun as <- <- <-. auto.
Qed.

Lemma patched_patched ins fd fd' : patched (patched ins fd) fd' = patched ins fd'.
Proof. reflexivity. Qed.

Lemma patched_is_ld_imm_dw ins fd : is_ld_imm_dw ins -> is_ld_imm_dw (patched ins fd).
Proof. exact (fun H => H). Qed.

(** The loop from entry [i0] on, when it comes back: instructions no entry
    of the range points at are untouched; an entry reached with all targets
    so far being 64-bit immediate loads, and whose target no later entry
    points at, leaves its target patched. *)
Lemma relo_loop_Done count : forall (i0 : nat) insn0 w r t w',
  run h (for_loop count (Z.of_nat i0) (relo_body sz data symbols g) insn0) w
  = (Done r, t, w') ->
  (forall idx,
     (forall j rel, (i0 <= j < i0 + count)%nat -> as_rels data !! j = Some rel ->
                    insn_index rel <> idx) ->
     insns_of r !! idx = insn0 !! idx)
  /\
  (forall i rel,
     (i0 <= i < i0 + count)%nat -> as_rels data !! i = Some rel ->
     (forall j rel_j ins_j,
        (i0 <= j <= i)%nat -> as_rels data !! j = Some rel_j ->
        insn0 !! insn_index rel_j = Some ins_j -> is_ld_imm_dw ins_j) ->
     (forall j rel_j,
        (i < j < i0 + count)%nat -> as_rels data !! j = Some rel_j ->
        insn_index rel_j <> insn_index rel) ->
     exists ins sym fd,
       insn0 !! insn_index rel = Some ins /\
       gelf_getsym symbols (to_int (GELF_R_SYM (r_info rel))) = Some sym /\
       zlookup (map_fd g) (st_value sym / sz) = Some fd /\
       insns_of r !! insn_index rel = Some (patched ins fd)).
Proof.
  induction count as [|n IH]; intros i0 insn0 w r t w' Hrun.
  - simpl in Hrun. injection Hrun as <- <- <-. split; [reflexivity|].
    intros i rel Hi. lia.
  - rewrite for_loop_S in Hrun.
    apply run_bind_Done in Hrun as (a & t1 & w1 & t2 & Hbody & Hrest & ->).
    apply relo_body_Done in Hbody as (rel0 & ins0 & Hrel0 & Hins0 & Hcase).
    destruct Hcase as [(Hbad & -> & _)|(Hok & _ & _ & sym0 & fd0 & Hsym0 & Hfd0 & ->)].
    + simpl in Hrest. injection Hrest as <- <- <-. simpl. split; [reflexivity|].
      intros i rel Hi Hrel Hcodes _. exfalso. apply Hbad.
      apply (Hcodes i0 rel0 ins0); [lia|assumption|assumption].
    + replace (Z.of_nat i0 + 1) with (Z.of_nat (S i0)) in Hrest by lia.
      apply IH in Hrest as [Hframe Hpatch].
      assert (Hlt : (insn_index rel0 < length insn0)%nat)
        by (eapply lookup_lt_Some; eassumption).
      split.
      * intros idx Hidx. rewrite Hframe.
        -- apply list_lookup_insert_ne. apply (Hidx i0); [lia|assumption].
        -- intros j rel Hj. apply Hidx. lia.
      * intros i rel Hi Hrel Hcodes Hlater.
        destruct (decide (i = i0)) as [->|Hne].
        -- rewrite Hrel0 in Hrel. injection Hrel as <-.
           exists ins0, sym0, fd0. repeat split; try assumption.
           rewrite Hframe.
           ++ apply list_lookup_insert_eq. assumption.
           ++ intros j rel Hj. apply Hlater. lia.
        -- destruct (Hpatch i rel) as (ins1 & sym & fd & Hins1 & Hsym & Hfd & Hfin);
             [lia|assumption| |intros j rel_j Hj; apply Hlater; lia|].
           { intros j rel_j ins_j Hj Hrel_j Hins_j.
             destruct (decide (insn_index rel0 = insn_index rel_j)) as [E|E].
             - rewrite <- E, list_lookup_insert_eq in Hins_j by assumption.
               injection Hins_j as <-. apply patched_is_ld_imm_dw, Hok.
             - rewrite list_lookup_insert_ne in Hins_j by assumption.
               apply (Hcodes j rel_j ins_j); [lia|assumption|assumption]. }
           destruct (decide (insn_index rel0 = insn_index rel)) as [E|E].
           ++ rewrite <- E, list_lookup_insert_eq in Hins1 by assumption.
              injection Hins1 as <-. exists ins0, sym, fd.
              rewrite <- E in *. rewrite patched_patched in Hfin. auto.
           ++ rewrite list_lookup_insert_ne in Hins1 by assumption.
              exists ins1, sym, fd. auto.
Qed.

End Relocation.

Section RelocationSuccess.

Context {W : Type} (h : handler W) (sz : Z).
Context (data : Elf_Data) (symbols : option Elf_Data) (g : globals).

Lemma relo_body_passes (i : nat) insn w rel :
  as_rels data !! i = Some rel ->
  entry_ok sz symbols (map_fd g) insn rel = true ->
  exists ins fd,
    insn !! insn_index rel = Some ins /\ is_ld_imm_dw ins /\
    run h (relo_body sz data symbols g (Z.of_nat i) insn) w
    = (Done (inr (<[insn_index rel := patched ins fd]> insn)), [], w).
Proof.
  intros Hrel Hok. unfold entry_ok in Hok.
  destruct (insn !! insn_index rel) as [ins|] eqn:Hins; [|discriminate].
  destruct (gelf_getsym symbols _) as [sym|] eqn:Hsym; [|discriminate].
  apply andb_true_iff in Hok as [Hcode Hfd].
  destruct (zlookup (map_fd g) (st_value sym / sz)) as [fd|] eqn:Hfds;
    [|discriminate].
  exists ins, fd. split; [reflexivity|]. split; [apply Z.eqb_eq, Hcode|].
  unfold relo_body, gelf_getrel. rewrite zlookup_nat, Hrel.
  unfold array_get at 1. unfold zlookup at 1.
  pose proof (to_uint_nonneg (r_offset rel / sizeof_bpf_insn)) as Hnn.
  apply Z.leb_le in Hnn. rewrite Hnn. fold (insn_index rel). rewrite Hins.
  simpl. rewrite Hcode, Hsym. simpl. unfold array_get. rewrite Hfds.
  reflexivity.
Qed.

Lemma entry_ok_patched insn idx ins fd rel :
  insn !! idx = Some ins ->
  entry_ok sz symbols (map_fd g) (<[idx := patched ins fd]> insn) rel
  = entry_ok sz symbols (map_fd g) insn rel.
Proof.
  intros Hins. unfold entry_ok.
  destruct (decide (idx = insn_index rel)) as [<-|Hne].
  - rewrite list_lookup_insert_eq by (eapply lookup_lt_Some; eassumption).
    rewrite Hins. reflexivity.
  - rewrite list_lookup_insert_ne by assumption. reflexivity.
Qed.

(** When every entry is fine the loop goes through without a call. *)
Lemma relo_loop_passes count : forall (i0 : nat) insn0 w,
  (forall j, (j < count)%nat ->
     exists rel, as_rels data !! (i0 + j)%nat = Some rel
                 /\ entry_ok sz symbols (map_fd g) insn0 rel = true) ->
  exists insn',
    run h (for_loop count (Z.of_nat i0) (relo_body sz data symbols g) insn0) w
    = (Done (inr insn'), [], w).
Proof.
  induction count as [|n IH]; intros i0 insn0 w Hok.
  - exists insn0. reflexivity.
  - rewrite for_loop_S, run_bind.
    destruct (Hok 0%nat ltac:(lia)) as (rel0 & Hrel0 & Hok0).
    rewrite Nat.add_0_r in Hrel0.
    destruct (relo_body_passes i0 insn0 w rel0 Hrel0 Hok0)
      as (ins0 & fd0 & Hins0 & Hld & ->).
    cbv beta iota zeta.
    replace (Z.of_nat i0 + 1) with (Z.of_nat (S i0)) by lia.
    destruct (IH (S i0) (<[insn_index rel0 := patched ins0 fd0]> insn0) w)
      as [insn' Hrun].
    + intros j Hj. destruct (Hok (S j) ltac:(lia)) as (rel & Hrel' & Hok').
      exists rel. split.
      * replace (S i0 + j)%nat with (i0 + S j)%nat by lia. exact Hrel'.
      * rewrite entry_ok_patched by exact Hins0. exact Hok'.
    + exists insn'. rewrite Hrun. reflexivity.
Qed.

End RelocationSuccess.

(** C1: [parse_relo_and_apply] goes through a relocation section whose
    entries are all fine (every target a 64-bit immediate load inside the
    program, every symbol found, every map index inside [map_fd]) without a
    call and returns 0.  And whenever it comes back, every relocation entry
    it reached with a 64-bit immediate load as target (all targets up to this
    entry are such loads) has had that instruction, the one at index
    [r_offset / sizeof(struct bpf_insn)], patched: the map index is the
    symbol's [st_value] divided by the size of a map definition, the
    source-register field is [BPF_PSEUDO_MAP_FD] and the immediate is the
    handle [map_fd] holds at that index; the other fields are kept.  The
    patch is the one still seen in the end when no later entry points at the
    same instruction. *)
Theorem parse_relo_and_apply_patches {W : Type} (h : handler W) (sz : Z)
    data symbols shdr insn g w :
  (sh_entsize shdr <> 0 ->
   (nrels shdr <= length (as_rels data))%nat ->
   Forall (fun r => entry_ok sz symbols (map_fd g) insn r = true)
          (take (nrels shdr) (as_rels data)) ->
   exists insn',
     run h (parse_relo_and_apply sz data symbols shdr insn g) w
     = (Done (0, insn'), [], w))
  /\
  (forall ret insn' t w',
     run h (parse_relo_and_apply sz data symbols shdr insn g) w
     = (Done (ret, insn'), t, w') ->
     forall i rel,
       (i < nrels shdr)%nat -> as_rels data !! i = Some rel ->
       (forall j rel_j ins_j,
          (j <= i)%nat -> as_rels data !! j = Some rel_j ->
          insn !! insn_index rel_j = Some ins_j -> is_ld_imm_dw ins_j) ->
       (forall j rel_j,
          (i < j < nrels shdr)%nat -> as_rels data !! j = Some rel_j ->
          insn_index rel_j <> insn_index rel) ->
       exists ins sym fd,
         insn !! insn_index rel = Some ins /\
         gelf_getsym symbols (to_int (GELF_R_SYM (r_info rel))) = Some sym /\
         zlookup (map_fd g) (st_value sym / sz) = Some fd /\
         insn' !! insn_index rel =
         Some (mk_insn (code ins) (dst_reg ins) BPF_PSEUDO_MAP_FD (off ins) fd)).
Proof.
  split.
  - intros Hent Hlen Hok. unfold parse_relo_and_apply.
    apply Z.eqb_neq in Hent. rewrite Hent. rewrite run_bind.
    fold (nrels shdr). change 0 with (Z.of_nat 0) at 1.
    destruct (relo_loop_passes h sz data symbols g (nrels shdr) 0 insn w)
      as [insn' Hrun].
    + intros j Hj.
      destruct (lookup_lt_is_Some_2 (as_rels data) j ltac:(lia)) as [r Hr].
      exists r. split; [exact Hr|].
      rewrite Forall_lookup in Hok. apply (Hok j).
      rewrite lookup_take_lt by lia. exact Hr.
    + exists insn'. rewrite Hrun. reflexivity.
  - unfold parse_relo_and_apply. intros ret insn' t w' Hrun i rel Hi Hrel Hcodes Hlater.
    destruct (sh_entsize shdr =? 0); [discriminate|].
    apply run_bind_Done in Hrun as (r & t1 & w1 & t2 & Hloop & Hret & ->).
    change 0 with (Z.of_nat 0) in Hloop. fold (nrels shdr) in Hloop.
    apply relo_loop_Done in Hloop as [_ Hpatch].
    assert (Hfin : insn' = insns_of r).
    { destruct r as [[v l]|l]; simpl in Hret; injection Hret as <- <- <-;
        reflexivity. }
    subst insn'.
    apply (Hpatch i rel); [lia|assumption| |].
    + intros j rel_j ins_j Hj. apply Hcodes. lia.
    + intros j rel_j Hj. apply Hlater. lia.
Qed.

Lemma parse_relo_and_apply_patches_witness :
  (exists insn',
     run (scripted None)
         (parse_relo_and_apply 20 rel_example (Some symtab_example)
                               rel_shdr_example ld_map_example two_maps_globals) []
     = (Done (0, insn'), [], []))
  /\
  exists ins sym fd,
    ld_map_example !! insn_index (mk_rel 8 (2 ^ 32)) = Some ins /\
    gelf_getsym (Some symtab_example)
                (to_int (GELF_R_SYM (r_info (mk_rel 8 (2 ^ 32))))) = Some sym /\
    zlookup (map_fd two_maps_globals) (st_value sym / 20) = Some fd /\
    <[1%nat := mk_insn 24 1 1 0 6]> ld_map_example
      !! insn_index (mk_rel 8 (2 ^ 32)) =
    Some (mk_insn (code ins) (dst_reg ins) BPF_PSEUDO_MAP_FD (off ins) fd).
Proof.
  destruct (parse_relo_and_apply_patches (scripted None) 20 rel_example
              (Some symtab_example) rel_shdr_example ld_map_example
              two_maps_globals []) as [Hpass Hpatch].
  split.
  - apply Hpass.
    + simpl. discriminate.
    + vm_compute. lia.
    + repeat constructor.
  - apply (Hpatch 0 (<[1%nat := mk_insn 24 1 1 0 6]> ld_map_example) [] []
             eq_refl 0%nat (mk_rel 8 (2 ^ 32))).
    + vm_compute. lia.
    + reflexivity.
    + intros j rel_j ins_j Hj Hrel Hins.
      assert (j = 0%nat) as -> by lia.
      simpl in Hrel. injection Hrel as <-.
      vm_compute in Hins. injection Hins as <-. reflexivity.
    + intros j rel_j Hj. vm_compute in Hj. lia.
Defined.

(* ===================================================================== *)
(** ** Properties of every run *)
(* ===================================================================== *)

Lemma always_run {W A : Type} (h : handler W) (m : proc A) Q w :
  always m Q -> Q (result_of (run h m w)) (trace_of (run h m w)).
Proof.
  revert Q w. induction m as [a|u|X c k IH]; intros Q w Hm; simpl in *; auto.
  destruct (h X c w) as [x w1]. specialize (IH x _ w1 (Hm x)).
  destruct (run h (k x) w1) as [[o t] w2]. exact IH.
Qed.

Lemma always_mono {A : Type} (m : proc A) (Q Q' : outcome A -> list event -> Prop) :
  (forall o t, Q o t -> Q' o t) -> always m Q -> always m Q'.
Proof.
  revert Q Q'. induction m as [a|u|X c k IH]; intros Q Q' HQ Hm; simpl in *; auto.
  intros x. eapply IH; [|apply Hm]. intros o t. apply HQ.
Qed.

Lemma always_intro {A : Type} (m : proc A) (Q : outcome A -> list event -> Prop) :
  (forall o t, Q o t) -> always m Q.
Proof.
  revert Q. induction m as [a|u|X c k IH]; intros Q HQ; simpl; auto.
Qed.

Lemma always_bind {A B : Type} (m : proc A) (f : A -> proc B) Q :
  always m (fun o t =>
              match o with
              | Done a => always (f a) (fun o' t' => Q o' (t ++ t')%list)
              | Undefined u => Q (Undefined u) t
              end) ->
  always (bind m f) Q.
Proof.
  revert Q. induction m as [a|u|X c k IH]; intros Q Hm; simpl in *.
  - eapply always_mono; [|exact Hm]. auto.
  - exact Hm.
  - intros x. apply IH. eapply always_mono; [|apply Hm].
    intros [a|u] t; simpl; auto.
Qed.

Lemma always_conj {A : Type} (m : proc A) (Q Q' : outcome A -> list event -> Prop) :
  always m Q -> always m Q' -> always m (fun o t => Q o t /\ Q' o t).
Proof.
  revert Q Q'. induction m as [a|u|X c k IH]; intros Q Q' H1 H2; simpl in *; auto.
Qed.

(** A loop keeps an invariant [I] of its state and a property [P] of every
    event, and can only leave the function with values in [R']. *)
Lemma always_for_loop {S R : Type} (body : Z -> S -> proc (R + S))
    (I : S -> Prop) (R' : R -> Prop) (P : event -> Prop) count :
  (forall i s, I s ->
     always (body i s) (fun o t =>
       Forall P t /\
       match o with
       | Done (inl v) => R' v
       | Done (inr s') => I s'
       | Undefined _ => True
       end)) ->
  forall i s, I s ->
    always (for_loop count i body s) (fun o t =>
      Forall P t /\
      match o with
      | Done (inl v) => R' v
      | Done (inr s') => I s'
      | Undefined _ => True
      end).
Proof.
  intros Hbody. induction count as [|n IH]; intros i s Hs.
  - simpl. auto.
  - rewrite for_loop_S. apply always_bind.
    eapply always_mono; [|apply Hbody, Hs].
    intros [[v|s']|u] t [Ht Ho]; simpl.
    + rewrite app_nil_r. auto.
    + eapply always_mono; [|apply IH, Ho].
      intros o t' [Ht' Ho']. split; [|exact Ho']. apply Forall_app. auto.
    + auto.
Qed.

(* ===================================================================== *)
(** ** The three scans of [load_bpf_file] *)
(* ===================================================================== *)

(** One step through a program under [always]; [always_step] simplifies the
    goal as it goes, [always_go] below only unfolds [always] itself and so
    stays fast on the long bodies of [load_and_attach]. *)
Ltac always_step :=
  lazymatch goal with
  | |- always (bind _ _) _ => apply always_bind
  | |- always (Ret _) _ => simpl
  | |- always (Undef _) _ => simpl
  | |- always (perform _) _ => unfold perform; simpl; intros
  | |- always (Do _ _) _ => simpl; intros
  | |- always (array_set _ _ _ _) _ => unfold array_set
  | |- always (array_get _ _ _) _ => unfold array_get
  | |- always (match ?x with _ => _ end) _ => destruct x eqn:?
  | |- forall _, _ => intros
  end.

Section Scans.

Context (sz : Z).

(** Neither the relocation scan nor the residual scan leaves the function:
    what [load_and_attach] returns is dropped. *)
Lemma relo_pass_body_continues i s :
  always (relo_pass_body sz i s) (fun o t =>
    Forall (fun _ => True) t /\
    match o with
    | Done (inl v) => False
    | _ => True
    end).
Proof.
  assert (HT : forall t : list event, Forall (fun _ => True) t)
    by (intros; apply Forall_true; auto).
  unfold relo_pass_body.
  repeat first
    [ always_step
    | match goal with
      | |- always (parse_relo_and_apply _ _ _ _ _ _) _ =>
          apply always_intro; intros [[? ?]|?] ?
      | |- always (load_and_attach _ _ _ _) _ =>
          apply always_intro; intros [?|?] ?
      end ];
  auto.
Qed.

Lemma residual_body_continues i s :
  always (residual_body i s) (fun o t =>
    Forall (fun _ => True) t /\
    match o with
    | Done (inl v) => False
    | _ => True
    end).
Proof.
  assert (HT : forall t : list event, Forall (fun _ => True) t)
    by (intros; apply Forall_true; auto).
  unfold residual_body.
  repeat first
    [ always_step
    | match goal with
      | |- always (load_and_attach _ _ _ _) _ =>
          apply always_intro; intros [?|?] ?
      end ];
  auto.
Qed.

Lemma scan_continues {W : Type} (h : handler W) ehdr
    (body : Z -> state -> proc (Z * globals + state)) s w :
  (forall i s, always (body i s) (fun o t =>
     Forall (fun _ => True) t /\
     match o with
     | Done (inl v) => False
     | _ => True
     end)) ->
  forall v, result_of (run h (scan_sections ehdr body s) w) <> Done (inl v).
Proof.
  intros Hbody v Hv.
  assert (Hloop := always_for_loop body (fun _ => True) (fun _ => False)
                     (fun _ => True) (Z.to_nat (e_shnum ehdr - 1))
                     (fun i s _ => Hbody i s) 1 s I).
  apply (always_run h _ _ w) in Hloop as [_ H].
  unfold scan_sections in Hv. rewrite Hv in H. exact H.
Qed.

End Scans.

(** Once the first scan has gone through all sections, [load_elf] can only
    return 0 (or leave defined behaviour). *)
Lemma load_elf_after_scan {W : Type} (h : handler W) (sz : Z) elf fd g w
    ehdr s1 t1 w1 :
  elf_ehdr elf = Some ehdr ->
  run h (scan_sections ehdr (scan_body sz) (mk_state g elf None))
      (h Z (system clear_kprobes) w).2 = (Done (inr s1), t1, w1) ->
  (exists g', result_of (run h (load_elf sz elf fd g) w) = Done (0, g'))
  \/ (exists u, result_of (run h (load_elf sz elf fd g) w) = Undefined u).
Proof.
  intros Hehdr Hscan. unfold load_elf. rewrite Hehdr.
  rewrite run_bind, run_perform. cbv beta iota zeta.
  rewrite run_bind, Hscan. cbv beta iota zeta.
  rewrite run_bind.
  destruct (run h (scan_sections ehdr (relo_pass_body sz) s1) w1)
    as [[[[v|s2]|u] t2] w2] eqn:E2.
  - exfalso. apply (scan_continues h ehdr (relo_pass_body sz) s1 w1
                      (relo_pass_body_continues sz) v).
    rewrite E2. reflexivity.
  - cbv beta iota zeta. rewrite run_bind.
    destruct (run h (scan_sections ehdr residual_body s2) w2)
      as [[[[v|s3]|u] t3] w3] eqn:E3.
    + exfalso. apply (scan_continues h ehdr residual_body s2 w2
                        residual_body_continues v).
      rewrite E3. reflexivity.
    + left. exists (st_g s3). cbv beta iota zeta.
      rewrite run_bind, run_perform. reflexivity.
    + right. exists u. reflexivity.
  - right. exists u. reflexivity.
Qed.

Lemma load_bpf_file_opens {W : Type} (h : handler W) (sz : Z) path g w elf fd w3 :
  opens h path w elf fd w3 ->
  result_of (run h (load_bpf_file sz path g) w)
  = result_of (run h (load_elf sz elf fd g) w3)
  /\ exists v,
      trace_of (run h (load_bpf_file sz path g) w)
      = Ev (elf_version EV_CURRENT) v :: Ev (open path O_RDONLY 0) fd
        :: Ev (elf_begin fd) (Some elf)
        :: trace_of (run h (load_elf sz elf fd g) w3).
Proof.
  intros (v & w1 & w2 & Hv & Hne & Hfd & Hpos & Helf).
  unfold load_bpf_file. rewrite run_bind, run_perform, Hv. cbv beta iota zeta.
  simpl fst. simpl snd. apply Z.eqb_neq in Hne. rewrite Hne.
  rewrite run_bind, run_perform, Hfd. cbv beta iota zeta. simpl fst. simpl snd.
  apply Z.ltb_ge in Hpos. rewrite Hpos.
  rewrite run_bind, run_perform, Helf. cbv beta iota zeta. simpl fst. simpl snd.
  destruct (run h (load_elf sz elf fd g) w3) as [[o t] w4].
  split; [reflexivity|]. exists v. reflexivity.
Qed.

(* ===================================================================== *)
(** ** The metadata scan *)
(* ===================================================================== *)

Lemma always_for_loop_range {S R : Type} (body : Z -> S -> proc (R + S))
    (I : S -> Prop) (R' : R -> Prop) (P : event -> Prop) count :
  forall i s,
    (forall (k : nat) s, (k < count)%nat -> I s ->
       always (body (i + Z.of_nat k) s) (fun o t =>
         Forall P t /\
         match o with
         | Done (inl v) => R' v
         | Done (inr s') => I s'
         | Undefined _ => True
         end)) ->
    I s ->
    always (for_loop count i body s) (fun o t =>
      Forall P t /\
      match o with
      | Done (inl v) => R' v
      | Done (inr s') => I s'
      | Undefined _ => True
      end).
Proof.
  induction count as [|n IH]; intros i s Hbody Hs.
  - simpl. auto.
  - rewrite for_loop_S. apply always_bind.
    assert (H0 := Hbody 0%nat s ltac:(lia) Hs).
    change (Z.of_nat 0) with 0 in H0. rewrite Z.add_0_r in H0.
    eapply always_mono; [|exact H0].
    intros [[v|s']|u] t [Ht Ho]; simpl.
    + rewrite app_nil_r. auto.
    + eapply always_mono; [|apply IH; [|exact Ho]].
      * intros o t' [Ht' Ho']. split; [|exact Ho']. apply Forall_app. auto.
      * intros k s0 Hk Hs0.
        replace (i + 1 + Z.of_nat k) with (i + Z.of_nat (Datatypes.S k)) by lia.
        apply Hbody; [lia|exact Hs0].
    + auto.
Qed.

(** A loop of [a + b] rounds is [a] rounds and then [b] more. *)
Lemma always_for_loop_split {S R : Type} (body : Z -> S -> proc (R + S))
    (a b : nat) Q :
  forall i s,
    always (for_loop a i body s) (fun o t =>
      match o with
      | Done (inr s') =>
          always (for_loop b (i + Z.of_nat a) body s')
                 (fun o' t' => Q o' (t ++ t')%list)
      | Done (inl v) => Q (Done (inl v)) t
      | Undefined u => Q (Undefined u) t
      end) ->
    always (for_loop (a + b) i body s) Q.
Proof.
  revert Q. induction a as [|a IH]; intros Q i s H.
  - simpl in *. rewrite Z.add_0_r in H. exact H.
  - simpl Nat.add. rewrite for_loop_S in *.
    apply always_bind.
    assert (Hinv : forall (m : proc (R + S)) (Q0 : outcome (R + S) -> list event -> Prop),
      always (bind m (fun r => match r with
                               | inl v => Ret (inl v)
                               | inr s' => for_loop a (i + 1) body s'
                               end)) Q0 ->
      always m (fun o t =>
        match o with
        | Done (inl v) => Q0 (Done (inl v)) t
        | Done (inr s') => always (for_loop a (i + 1) body s')
                                  (fun o' t' => Q0 o' (t ++ t')%list)
        | Undefined u => Q0 (Undefined u) t
        end)).
    { clear. induction m as [x|u|X c k IHm]; intros Q0 Hm; simpl in *.
      - destruct x; simpl in *; [exact Hm|].
        eapply always_mono; [|exact Hm]. auto.
      - exact Hm.
      - intros x. apply (IHm x (fun o t => Q0 o (Ev c x :: t))), Hm. }
    apply Hinv in H.
    eapply always_mono; [|exact H].
    intros [[v|s']|u] t Ho; simpl.
    + rewrite app_nil_r. exact Ho.
    + apply IH. eapply always_mono; [|exact Ho].
      intros [[v|s'']|u] t' Ho'; simpl.
      * exact Ho'.
      * replace (i + 1 + Z.of_nat a) with (i + Z.of_nat (Datatypes.S a)) by lia.
        eapply always_mono; [|exact Ho']. intros o'' t''.
        rewrite app_assoc. auto.
      * exact Ho'.
    + exact Ho.
Qed.

Lemma load_maps_no_prog_load sz maps len g :
  always (load_maps sz maps len g)
         (fun _ t => Forall (fun e => is_prog_load e = false) t).
Proof.
  unfold load_maps. apply always_bind.
  eapply always_mono;
    [|apply (always_for_loop (load_maps_body maps) (fun _ => True)
               (fun _ => True) (fun e => is_prog_load e = false));
      [|exact I]].
  - intros [[v|g']|u] t [Ht _]; simpl; rewrite ?app_nil_r; exact Ht.
  - intros i s _. unfold load_maps_body.
    repeat always_step; repeat constructor.
Qed.

(** One section of the metadata scan: it submits nothing, creates maps only
    for a section named "maps", returns nothing but 1, and leaves the object
    as it is. *)
Lemma scan_body_spec sz i s (nomaps : Prop) :
  (nomaps -> forall shdr data, get_sec (st_elf s) i <> inr ("maps", shdr, data)) ->
  always (scan_body sz i s) (fun o t =>
    Forall (quiet nomaps) t /\
    match o with
    | Done (inl v) => v.1 = 1
    | Done (inr s') => st_elf s' = st_elf s
    | Undefined _ => True
    end).
Proof.
  intros Hnm. unfold scan_body, memcpy.
  destruct (get_sec (st_elf s) i) as [e|[[shname shdr] data]] eqn:Hsec;
    [simpl; auto|].
  destruct (String.eqb shname "license") eqn:Hlic.
  { repeat always_step; auto. }
  destruct (String.eqb shname "version") eqn:Hver.
  { repeat always_step; auto.
    split; [|reflexivity]. repeat constructor. }
  destruct (String.eqb shname "maps") eqn:Hmaps.
  { apply String.eqb_eq in Hmaps. subst shname.
    assert (Hq : forall e, is_prog_load e = false -> quiet nomaps e).
    { intros e He. split; [exact He|]. intros Hn. exfalso.
      exact (Hnm Hn shdr data eq_refl). }
    repeat always_step; auto.
    eapply always_mono; [|apply load_maps_no_prog_load].
    intros [[ret g']|u] t Ht; simpl.
    - destruct (negb (ret =? 0)); simpl; rewrite app_nil_r;
        (split; [eapply Forall_impl; eauto|]); reflexivity.
    - split; [eapply Forall_impl; eauto|exact I]. }
  repeat always_step; auto.
Qed.

Lemma scan_body_bad_version sz j s (nomaps : Prop) shdr data :
  get_sec (st_elf s) j = inr ("version", shdr, data) ->
  d_size data <> sizeof_int ->
  always (scan_body sz j s) (fun o t =>
    Forall (quiet nomaps) t /\
    match o with
    | Done (inl v) => v.1 = 1
    | Done (inr _) => False
    | Undefined _ => True
    end).
Proof.
  intros Hsec Hsize. unfold scan_body. rewrite Hsec.
  change (String.eqb "version" "license") with false.
  change (String.eqb "version" "version") with true. cbv iota.
  apply Z.eqb_neq in Hsize. rewrite Hsize. simpl negb. cbv iota.
  repeat always_step; auto.
  split; [|reflexivity]. repeat constructor.
Qed.

(** The metadata scan of an object with a malformed "version" section at
    index [j] never gets past that section. *)
Lemma scan_stops_at_bad_version sz elf ehdr j shdr data (nomaps : Prop) :
  1 <= j < e_shnum ehdr ->
  get_sec elf j = inr ("version", shdr, data) ->
  d_size data <> sizeof_int ->
  (nomaps -> forall i, 1 <= i < j ->
             forall shdr' data', get_sec elf i <> inr ("maps", shdr', data')) ->
  forall s0, st_elf s0 = elf ->
    always (scan_sections ehdr (scan_body sz) s0) (fun o t =>
      Forall (quiet nomaps) t /\
      match o with
      | Done (inl v) => v.1 = 1
      | Done (inr _) => False
      | Undefined _ => True
      end).
Proof.
  intros Hj Hsec Hsize Hnm s0 Hs0. unfold scan_sections.
  replace (Z.to_nat (e_shnum ehdr - 1))
    with (Z.to_nat (j - 1) + S (Z.to_nat (e_shnum ehdr - 1 - j)))%nat by lia.
  apply always_for_loop_split.
  eapply always_mono;
    [|apply (always_for_loop_range (scan_body sz) (fun s => st_elf s = elf)
               (fun v => v.1 = 1) (quiet nomaps) (Z.to_nat (j - 1)) 1 s0);
      [|exact Hs0]].
  - intros [[v|s']|u] t [Ht Ho]; [auto| |auto].
    rewrite for_loop_S. apply always_bind.
    replace (1 + Z.of_nat (Z.to_nat (j - 1))) with j by lia.
    eapply always_mono;
      [|apply (scan_body_bad_version sz j s' nomaps shdr data);
        [rewrite Ho; exact Hsec|exact Hsize]].
    intros [[v|s'']|u] t' [Ht' Ho']; simpl.
    + rewrite app_nil_r. split; [apply Forall_app; auto|exact Ho'].
    + contradiction.
    + split; [apply Forall_app; auto|exact I].
  - intros k s Hk Hs.
    eapply always_mono; [|apply (scan_body_spec sz _ s nomaps)].
    + intros [[v|s']|u] t [Ht Ho]; (split; [exact Ht|]); auto. congruence.
    + intros Hn. rewrite Hs. apply (Hnm Hn). lia.
Qed.

Lemma load_elf_bad_version sz elf fd g ehdr j shdr data (nomaps : Prop) :
  elf_ehdr elf = Some ehdr ->
  1 <= j < e_shnum ehdr ->
  get_sec elf j = inr ("version", shdr, data) ->
  d_size data <> sizeof_int ->
  (nomaps -> forall i, 1 <= i < j ->
             forall shdr' data', get_sec elf i <> inr ("maps", shdr', data')) ->
  always (load_elf sz elf fd g) (fun o t =>
    Forall (quiet nomaps) t /\
    match o with
    | Done v => v.1 = 1
    | Undefined _ => True
    end).
Proof.
  intros Hehdr Hj Hsec Hsize Hnm. unfold load_elf. rewrite Hehdr.
  apply always_bind. unfold perform. simpl. intros x.
  apply always_bind.
  eapply always_mono;
    [|apply (scan_stops_at_bad_version sz elf ehdr j shdr data nomaps Hj Hsec
               Hsize Hnm (mk_state g elf None) eq_refl)].
  intros [[v|s']|u] t [Ht Ho]; simpl.
  - rewrite app_nil_r. split; [|exact Ho].
    constructor; [|exact Ht]. split; [reflexivity|intros _; reflexivity].
  - contradiction.
  - split; [|exact I].
    constructor; [|exact Ht]. split; [reflexivity|intros _; reflexivity].
Qed.

(** C7 as stated does not hold: when the "maps" section comes before the
    malformed "version" section, the map has been created by the time the
    load fails. *)
Lemma bad_version_after_maps_creates_map :
  let r := run (scripted (Some maps_then_version))
               (load_bpf_file 20 "prog.o" initial_globals) [1; 3; 0; 5] in
  (exists g', result_of r = Done (1, g')) /\
  printed (trace_of r) = [msg_invalid_version_size 3] /\
  created_maps (trace_of r) = [(1, 5)] /\
  count_events is_create_map (trace_of r) <> 0%nat.
Proof.
  cbv zeta. split; [eexists; vm_compute; reflexivity|].
  split; [vm_compute; reflexivity|]. split; [vm_compute; reflexivity|].
  vm_compute. discriminate.
Qed.

(** C6 fails on the code: a "license" section of 129 bytes is not rejected;
    [memcpy] writes all 129 bytes into the 128-byte [license] array, and
    nothing is reported. *)
Theorem long_license_overruns_buffer :
  let r := run (scripted (Some long_license))
               (load_bpf_file 20 "prog.o" initial_globals) [1; 3; 0] in
  result_of r = Undefined (out_of_bounds "license" 128) /\
  printed (trace_of r) = [] /\
  (forall g', result_of r <> Done (1, g')).
Proof.
  cbv zeta. split; [vm_compute; reflexivity|]. split; [vm_compute; reflexivity|].
  intros g'. vm_compute. discriminate.
Qed.

(* ===================================================================== *)
(** ** A relocation that fails *)
(* ===================================================================== *)

Section RelocationFailure.

Context {W : Type} (h : handler W) (sz : Z).
Context (data : Elf_Data) (symbols : option Elf_Data) (g : globals).

Lemma relo_body_bad (i : nat) insn w rel ins :
  as_rels data !! i = Some rel ->
  insn !! insn_index rel = Some ins ->
  ~ is_ld_imm_dw ins ->
  run h (relo_body sz data symbols g (Z.of_nat i) insn) w
  = (Done (inl (1, insn)), [Ev (printf (invalid_relo rel ins)) tt],
     (h unit (printf (invalid_relo rel ins)) w).2).
Proof.
  intros Hrel Hins Hbad. unfold relo_body, gelf_getrel.
  rewrite zlookup_nat, Hrel.
  unfold array_get at 1. unfold zlookup at 1.
  pose proof (to_uint_nonneg (r_offset rel / sizeof_bpf_insn)) as Hnn.
  apply Z.leb_le in Hnn. rewrite Hnn. fold (insn_index rel). rewrite Hins.
  simpl. apply Z.eqb_neq in Hbad. rewrite Hbad. simpl.
  fold (invalid_relo rel ins).
  destruct (h unit (printf (invalid_relo rel ins)) w) as [[] w1]. reflexivity.
Qed.

(** The loop over the entries from [i0] on, when the first [k] are fine and
    the next one points at something else than a 64-bit immediate load: it
    prints the message for that entry and returns 1; nothing else happens. *)
Lemma relo_loop_fails k : forall (i0 : nat) insn0 count w rel_k ins_k,
  (k < count)%nat ->
  (forall j, (j < k)%nat ->
     exists rel, as_rels data !! (i0 + j)%nat = Some rel
                 /\ entry_ok sz symbols (map_fd g) insn0 rel = true) ->
  as_rels data !! (i0 + k)%nat = Some rel_k ->
  insn0 !! insn_index rel_k = Some ins_k ->
  ~ is_ld_imm_dw ins_k ->
  exists insn_k,
    run h (for_loop count (Z.of_nat i0) (relo_body sz data symbols g) insn0) w
    = (Done (inl (1, insn_k)), [Ev (printf (invalid_relo rel_k ins_k)) tt],
       (h unit (printf (invalid_relo rel_k ins_k)) w).2).
Proof.
  induction k as [|k IH]; intros i0 insn0 count w rel_k ins_k Hk Hok Hrel Hins Hbad;
    (destruct count as [|count]; [lia|]); rewrite for_loop_S, run_bind.
  - rewrite Nat.add_0_r in Hrel.
    rewrite (relo_body_bad i0 insn0 w rel_k ins_k Hrel Hins Hbad).
    exists insn0. simpl. reflexivity.
  - destruct (Hok 0%nat ltac:(lia)) as (rel0 & Hrel0 & Hok0).
    rewrite Nat.add_0_r in Hrel0.
    destruct (relo_body_passes h sz data symbols g i0 insn0 w rel0 Hrel0 Hok0)
      as (ins0 & fd0 & Hins0 & Hld & ->).
    cbv beta iota zeta.
    replace (Z.of_nat i0 + 1) with (Z.of_nat (S i0)) by lia.
    destruct (IH (S i0) (<[insn_index rel0 := patched ins0 fd0]> insn0) count w
                 rel_k ins_k) as [insn_k Hrun].
    + lia.
    + intros j Hj. destruct (Hok (S j) ltac:(lia)) as (rel & Hrel' & Hok').
      exists rel. split.
      * replace (S i0 + j)%nat with (i0 + S j)%nat by lia. exact Hrel'.
      * rewrite entry_ok_patched by exact Hins0. exact Hok'.
    + replace (S i0 + k)%nat with (i0 + S k)%nat by lia. exact Hrel.
    + rewrite list_lookup_insert_ne; [exact Hins|].
      intros E. rewrite E in Hins0. rewrite Hins in Hins0.
      injection Hins0 as ->. contradiction.
    + exact Hbad.
    + exists insn_k. rewrite Hrun. reflexivity.
Qed.

End RelocationFailure.

Lemma parse_relo_fails {W : Type} (h : handler W) (sz : Z) data symbols shdr
    insn g w (k : nat) rel ins :
  sh_entsize shdr <> 0 ->
  (k < nrels shdr)%nat ->
  Forall (fun r => entry_ok sz symbols (map_fd g) insn r = true)
         (take k (as_rels data)) ->
  as_rels data !! k = Some rel ->
  insn !! insn_index rel = Some ins ->
  ~ is_ld_imm_dw ins ->
  exists insn',
    run h (parse_relo_and_apply sz data symbols shdr insn g) w
    = (Done (1, insn'), [Ev (printf (invalid_relo rel ins)) tt],
       (h unit (printf (invalid_relo rel ins)) w).2).
Proof.
  intros Hent Hk Hok Hrel Hins Hbad. unfold parse_relo_and_apply.
  apply Z.eqb_neq in Hent. rewrite Hent. rewrite run_bind.
  fold (nrels shdr). change 0 with (Z.of_nat 0).
  destruct (relo_loop_fails h sz data symbols g k 0 insn (nrels shdr) w rel ins)
    as [insn' Hrun]; try assumption.
  - intros j Hj.
    assert (Hlt : (j < length (as_rels data))%nat).
    { apply lookup_lt_Some in Hrel. lia. }
    destruct (lookup_lt_is_Some_2 _ _ Hlt) as [r Hr].
    exists r. split; [exact Hr|].
    rewrite Forall_lookup in Hok. apply (Hok j).
    rewrite lookup_take_lt by lia. exact Hr.
  - exists insn'. rewrite Hrun. simpl. reflexivity.
Qed.

Lemma zlookup_lt {A : Type} (l : list A) (i : Z) :
  0 <= i < Z.of_nat (length l) -> exists a, zlookup l i = Some a.
Proof.
  intros Hi. unfold zlookup.
  destruct (0 <=? i) eqn:E; [|apply Z.leb_gt in E; lia].
  apply lookup_lt_is_Some_2. lia.
Qed.

(** C2, as the code has it: a relocation section with an entry whose target
    is not a 64-bit immediate load (the entries before it being fine) makes
    [parse_relo_and_apply] print the message for that entry and return 1.
    The failure stays with the section: this round of the relocation scan
    does nothing else (later entries are not applied, the program is not
    submitted), the scan goes on with the next section, and the load as a
    whole still returns 0 once the metadata scan has gone through. *)
Theorem relocation_error_is_section_scoped {W : Type} (h : handler W) (sz : Z)
    i s w shname shdr data shname_prog shdr_prog data_prog (k : nat) rel ins :
  length (processed_sec (st_g s)) = 128%nat ->
  0 <= i < 128 -> 0 <= sh_info shdr < 128 ->
  get_sec (st_elf s) i = inr (shname, shdr, data) ->
  sh_type shdr = SHT_REL ->
  get_sec (st_elf s) (to_int (sh_info shdr))
  = inr (shname_prog, shdr_prog, data_prog) ->
  sh_entsize shdr <> 0 ->
  (k < nrels shdr)%nat ->
  Forall (fun r => entry_ok sz (st_symbols s) (map_fd (st_g s))
                            (as_insns data_prog) r = true)
         (take k (as_rels data)) ->
  as_rels data !! k = Some rel ->
  as_insns data_prog !! insn_index rel = Some ins ->
  ~ is_ld_imm_dw ins ->
  let said := Ev (printf (invalid_relo rel ins)) tt in
  let w1 := (h unit (printf (invalid_relo rel ins)) w).2 in
  exists s',
    run h (relo_pass_body sz i s) w = (Done (inr s'), [said], w1)
    /\ (forall n,
          run h (for_loop (S n) i (relo_pass_body sz) s) w
          = let '(o, t, w2) := run h (for_loop n (i + 1) (relo_pass_body sz) s') w1 in
            (o, said :: t, w2))
    /\ (forall path g0 w0 elf fd w2 ehdr s1 t1 w3,
          opens h path w0 elf fd w2 ->
          elf_ehdr elf = Some ehdr ->
          run h (scan_sections ehdr (scan_body sz) (mk_state g0 elf None))
              (h Z (system clear_kprobes) w2).2 = (Done (inr s1), t1, w3) ->
          (exists g', result_of (run h (load_bpf_file sz path g0) w0) = Done (0, g'))
          \/ (exists u, result_of (run h (load_bpf_file sz path g0) w0)
                        = Undefined u)).
Proof.
  intros Hlen Hi Hinfo Hsec Hrel_t Hprog Hent Hk Hok Hrel Hins Hbad said w1.
  destruct (zlookup_lt (processed_sec (st_g s)) (sh_info shdr)) as [b1 Hb1];
    [lia|].
  destruct (zlookup_lt (<[Z.to_nat (sh_info shdr) := true]> (processed_sec (st_g s))) i)
    as [b2 Hb2]; [rewrite length_insert; lia|].
  set (g1 := set_processed_sec (st_g s)
               (<[Z.to_nat i := true]>
                  (<[Z.to_nat (sh_info shdr) := true]> (processed_sec (st_g s))))).
  destruct (parse_relo_fails h sz data (st_symbols s) shdr (as_insns data_prog)
              g1 w k rel ins Hent Hk Hok Hrel Hins Hbad) as [insn' Hparse].
  fold w1 in Hparse. fold said in Hparse.
  set (s' := mk_state g1 (store_insns (st_elf s) (to_ulong (to_int (sh_info shdr)))
                                      insn') (st_symbols s)).
  assert (Hstep : run h (relo_pass_body sz i s) w = (Done (inr s'), [said], w1)).
  { unfold relo_pass_body. rewrite Hsec. cbv beta iota zeta.
    apply Z.eqb_eq in Hrel_t. rewrite Hrel_t. rewrite Hprog. cbv beta iota zeta.
    unfold array_set. rewrite Hb1. simpl bind. rewrite Hb2. simpl bind.
    fold g1. rewrite run_bind, Hparse. reflexivity. }
  exists s'. split; [exact Hstep|]. split.
  - intros n. rewrite for_loop_S, run_bind, Hstep. cbv beta iota zeta.
    destruct (run h (for_loop n (i + 1) (relo_pass_body sz) s') w1) as [[o t] w2].
    reflexivity.
  - intros path g0 w0 elf fd w2 ehdr s1 t1 w3 Hopen Hehdr Hscan.
    destruct (load_bpf_file_opens h sz path g0 w0 elf fd w2 Hopen) as [-> _].
    exact (load_elf_after_scan h sz elf fd g0 w2 ehdr s1 t1 w3 Hehdr Hscan).
Qed.

Lemma relocation_error_is_section_scoped_witness :
  exists s',
    run (scripted None) (relo_pass_body 20 3 bad_rel_state) []
    = (Done (inr s'), [Ev (printf (msg_invalid_relo 0 183)) tt], [])
    /\ forall n,
         run (scripted None) (for_loop (S n) 3 (relo_pass_body 20) bad_rel_state) []
         = let '(o, t, w2) :=
             run (scripted None) (for_loop n (3 + 1) (relo_pass_body 20) s') [] in
           (o, Ev (printf (msg_invalid_relo 0 183)) tt :: t, w2).
Proof.
  destruct (relocation_error_is_section_scoped (scripted None) 20 3
              bad_rel_state [] ".relkprobe/do_sys_open"
              (mk_shdr SHT_REL 32 16 1 0 0)
              (mk_data 32 [] [] [] [mk_rel 8 (2 ^ 32); mk_rel 0 (2 ^ 32)] [])
              "kprobe/do_sys_open" (mk_shdr 1 32 0 0 0 6)
              (mk_data 32 [] [] ld_map_example [] [])
              1%nat (mk_rel 0 (2 ^ 32)) (mk_insn 183 1 0 0 0))
    as (s' & Hstep & Hnext & _).
  - reflexivity.
  - lia.
  - simpl. lia.
  - reflexivity.
  - reflexivity.
  - reflexivity.
  - simpl. discriminate.
  - vm_compute. lia.
  - repeat constructor.
  - reflexivity.
  - reflexivity.
  - vm_compute. discriminate.
  - exists s'. split; [exact Hstep|exact Hnext].
Defined.

(** C2 as stated does not hold for a map index that is out of range.  With
    one map created and a symbol value of 100 (map index 5), relocation
    reports nothing: the instruction is patched with the content of the
    unused slot 5 of [map_fd], the program is submitted and the load returns
    0.  With a symbol value of 640 (map index 32) [map_fd] is read past its
    end, and again no error is reported. *)
Lemma stray_map_index_is_not_reported :
  let r := run (scripted (Some (stray_map_object 100)))
               (load_bpf_file 20 "prog.o" initial_globals)
               [1; 3; 0; 7; 9; 0; 4; 2; 0; 11; 0; 0; 0] in
  let r' := run (scripted (Some (stray_map_object 640)))
                (load_bpf_file 20 "prog.o" initial_globals)
                [1; 3; 0; 7; 9; 0; 4; 2; 0; 11; 0; 0; 0] in
  ((exists g', result_of r = Done (0, g')) /\
   printed (trace_of r) = [] /\
   created_maps (trace_of r) = [(1, 7)] /\
   omap submitted_insns (trace_of r)
   = [[mk_insn 24 1 BPF_PSEUDO_MAP_FD 0 0; mk_insn 0 0 0 0 0; mk_insn 149 0 0 0 0]])
  /\
  (result_of r' = Undefined (out_of_bounds "map_fd" 32) /\
   printed (trace_of r') = []).
Proof.
  cbv zeta. split; [split; [eexists; vm_compute; reflexivity|]|];
    repeat split; vm_compute; reflexivity.
Qed.

(* ===================================================================== *)
(** ** The processed marks *)
(* ===================================================================== *)

Ltac always_go :=
  lazymatch goal with
  | |- always (bind _ _) _ => apply always_bind
  | |- always (Ret _) _ => cbn [always]
  | |- always (Undef _) _ => cbn [always]
  | |- always (perform _) _ => unfold perform; cbn [always]; intros
  | |- always (Do _ _) _ => cbn [always]; intros
  | |- always (array_set _ _ _ _) _ => unfold array_set
  | |- always (array_get _ _ _) _ => unfold array_get
  | |- always (match ?x with _ => _ end) _ => destruct x eqn:?
  | |- forall _, _ => intros
  end.

(** [load_and_attach] never touches the processed marks. *)
Lemma attach_keeps_marks event k kr tp xdp pe fd g :
  always (attach event k kr tp xdp pe fd g) (fun o _ =>
    match o with
    | Done r => processed_sec r.2 = processed_sec g
    | Undefined _ => True
    end).
Proof.
  unfold attach. cbv zeta.
  repeat always_go; try exact I; reflexivity.
Qed.

Lemma load_and_attach_keeps_marks event prog size g :
  always (load_and_attach event prog size g) (fun o _ =>
    match o with
    | Done r => processed_sec r.2 = processed_sec g
    | Undefined _ => True
    end).
Proof.
  unfold load_and_attach. cbv zeta.
  repeat first
    [ lazymatch goal with
      | |- always (attach _ _ _ _ _ _ _ _) _ =>
          eapply always_mono; [|apply attach_keeps_marks];
          intros [?|?] ? ?; assumption
      end
    | always_go ];
  try exact I; reflexivity.
Qed.

Lemma sec_kind_store_insns elf k insns j :
  sec_kind (store_insns elf k insns) j = sec_kind elf j.
Proof.
  unfold sec_kind, get_sec, store_insns, zlookup. simpl.
  destruct (0 <=? to_ulong j); [|reflexivity].
  destruct (decide (Z.to_nat k = Z.to_nat (to_ulong j))) as [<-|Hne].
  - rewrite list_lookup_alter_eq.
    destruct (elf_scns elf !! Z.to_nat k) as [[shdr name d more]|]; [|reflexivity].
    simpl. destruct shdr; [|reflexivity]. destruct name; [|reflexivity].
    destruct (sh_size _ =? 0); [reflexivity|].
    destruct d; simpl; [|reflexivity]. destruct more; reflexivity.
  - rewrite list_lookup_alter_ne by assumption. reflexivity.
Qed.

Lemma zlookup_insert_eq {A : Type} (l : list A) (i : Z) (a b : A) :
  zlookup l i = Some b -> zlookup (<[Z.to_nat i := a]> l) i = Some a.
Proof.
  intros H. apply zlookup_Some in H as [Hi Hl]. unfold zlookup.
  apply Z.leb_le in Hi. rewrite Hi. apply list_lookup_insert_eq.
  eapply lookup_lt_Some; eassumption.
Qed.

Lemma zlookup_insert_true (l : list bool) (i j : Z) (b : bool) :
  zlookup l i = Some b ->
  zlookup l j = Some true -> zlookup (<[Z.to_nat i := true]> l) j = Some true.
Proof.
  intros Hi Hj. apply zlookup_Some in Hi as [Hi Hli].
  apply zlookup_Some in Hj as [Hj Hlj]. unfold zlookup.
  apply Z.leb_le in Hj. rewrite Hj.
  destruct (decide (Z.to_nat i = Z.to_nat j)) as [E|E].
  - rewrite E. apply list_lookup_insert_eq. eapply lookup_lt_Some; eassumption.
  - rewrite list_lookup_insert_ne by assumption. exact Hlj.
Qed.

Section Marks.

Context (sz : Z).

(** One round of the relocation scan keeps what [get_sec] tells about every
    section and never clears a mark. *)
Lemma relo_pass_body_keeps j s :
  always (relo_pass_body sz j s) (fun o t =>
    Forall (fun _ => True) t /\
    match o with
    | Done (inl _) => False
    | Done (inr s') =>
        (forall k, sec_kind (st_elf s') k = sec_kind (st_elf s) k) /\
        (forall k, zlookup (processed_sec (st_g s)) k = Some true ->
                   zlookup (processed_sec (st_g s')) k = Some true)
    | Undefined _ => True
    end).
Proof.
  assert (HT : forall t : list event, Forall (fun _ => True) t)
    by (intros; apply Forall_true; auto).
  unfold relo_pass_body.
  repeat first
    [ lazymatch goal with
      | |- always (parse_relo_and_apply _ _ _ _ _ _) _ =>
          apply always_intro; intros [[? ?]|?] ?
      | |- always (load_and_attach _ _ _ _) _ =>
          eapply always_mono; [|apply load_and_attach_keeps_marks];
          intros [[? ?]|?] ? ?
      end
    | always_go ];
  (split; [apply HT|]); try exact I; cbn [st_elf st_g processed_sec set_processed_sec];
  try (split; [reflexivity|tauto]);
  (split; [intros; apply sec_kind_store_insns|]);
  intros k Hk; cbn [snd] in *;
  repeat match goal with
         | H : processed_sec _ = _ |- _ => rewrite H; clear H
         end;
  cbn [processed_sec set_processed_sec];
  (eapply zlookup_insert_true; [eassumption|]);
  (eapply zlookup_insert_true; [eassumption|]); exact Hk.
Qed.

End Marks.

Section MarksOfRelocation.

Context (sz : Z).

(** The round of the relocation scan for a relocation section whose target
    resolves: whenever it comes back, both sections are marked, whether the
    relocation went through or not. *)
Lemma relo_pass_body_marks i s shname shdr shname_prog shdr_prog :
  sec_kind (st_elf s) i = inr (shname, shdr) ->
  sh_type shdr = SHT_REL ->
  sec_kind (st_elf s) (to_int (sh_info shdr)) = inr (shname_prog, shdr_prog) ->
  always (relo_pass_body sz i s) (fun o t =>
    Forall (fun _ => True) t /\
    match o with
    | Done (inl _) => False
    | Done (inr s') =>
        zlookup (processed_sec (st_g s')) i = Some true /\
        zlookup (processed_sec (st_g s')) (sh_info shdr) = Some true
    | Undefined _ => True
    end).
Proof.
  intros Hi Hrel Hprog.
  assert (HT : forall t : list event, Forall (fun _ => True) t)
    by (intros; apply Forall_true; auto).
  unfold sec_kind in Hi, Hprog. unfold relo_pass_body.
  destruct (get_sec (st_elf s) i) as [e|[[n sh] data]]; [discriminate|].
  injection Hi as -> ->.
  apply Z.eqb_eq in Hrel. rewrite Hrel.
  destruct (get_sec (st_elf s) (to_int (sh_info shdr))) as [e|[[pn psh] pdata]];
    [discriminate|].
  repeat first
    [ lazymatch goal with
      | |- always (parse_relo_and_apply _ _ _ _ _ _) _ =>
          apply always_intro; intros [[? ?]|?] ?
      | |- always (load_and_attach _ _ _ _) _ =>
          eapply always_mono; [|apply load_and_attach_keeps_marks];
          intros [[? ?]|?] ? ?
      end
    | always_go ];
  (split; [apply HT|]); try exact I;
  cbn [snd st_g processed_sec set_processed_sec] in *;
  repeat match goal with
         | H : processed_sec _ = _ |- _ => rewrite H; clear H
         end;
  cbn [processed_sec set_processed_sec];
  (split;
   [eapply zlookup_insert_eq; eassumption
   |eapply zlookup_insert_true;
    [eassumption|eapply zlookup_insert_eq; eassumption]]).
Qed.

(** The whole relocation scan: a relocation section inside the scanned range
    whose target resolves ends up marked together with its target. *)
Lemma relo_scan_marks ehdr s i shname shdr shname_prog shdr_prog :
  1 <= i < e_shnum ehdr ->
  sec_kind (st_elf s) i = inr (shname, shdr) ->
  sh_type shdr = SHT_REL ->
  sec_kind (st_elf s) (to_int (sh_info shdr)) = inr (shname_prog, shdr_prog) ->
  always (scan_sections ehdr (relo_pass_body sz) s) (fun o t =>
    Forall (fun _ => True) t /\
    match o with
    | Done (inl _) => False
    | Done (inr s') =>
        zlookup (processed_sec (st_g s')) i = Some true /\
        zlookup (processed_sec (st_g s')) (sh_info shdr) = Some true
    | Undefined _ => True
    end).
Proof.
  intros Hi Hkind Hrel Hprog. unfold scan_sections.
  assert (HT : forall t : list event, Forall (fun _ => True) t)
    by (intros; apply Forall_true; auto).
  replace (Z.to_nat (e_shnum ehdr - 1))
    with (Z.to_nat (i - 1) + S (Z.to_nat (e_shnum ehdr - 1 - i)))%nat by lia.
  apply always_for_loop_split.
  eapply always_mono;
    [|apply (always_for_loop_range (relo_pass_body sz)
               (fun s' => forall k, sec_kind (st_elf s') k = sec_kind (st_elf s) k)
               (fun _ => False) (fun _ => True) (Z.to_nat (i - 1)) 1 s);
      [|reflexivity]].
  - intros [[v|s1]|u] t [_ Ho]; [contradiction| |auto].
    rewrite for_loop_S. apply always_bind.
    replace (1 + Z.of_nat (Z.to_nat (i - 1))) with i by lia.
    eapply always_mono;
      [|apply (relo_pass_body_marks i s1 shname shdr shname_prog shdr_prog);
        [rewrite Ho; exact Hkind|exact Hrel|rewrite Ho; exact Hprog]].
    intros [[v|s2]|u] t' [_ Ho']; [contradiction| |auto].
    eapply always_mono;
      [|apply (always_for_loop (relo_pass_body sz)
                 (fun s' => zlookup (processed_sec (st_g s')) i = Some true /\
                            zlookup (processed_sec (st_g s')) (sh_info shdr)
                            = Some true)
                 (fun _ => False) (fun _ => True));
        [|exact Ho']].
    + intros [[v|s3]|u] t'' [_ Ho'']; auto.
    + intros j s3 [H1 H2].
      eapply always_mono; [|apply relo_pass_body_keeps].
      intros [[v|s4]|u] t'' [_ Ho'']; (split; [apply HT|]); auto.
      destruct Ho'' as [_ Hm]. auto.
  - intros k s1 _ Hs1.
    eapply always_mono; [|apply relo_pass_body_keeps].
    intros [[v|s2]|u] t [_ Ho]; (split; [apply HT|]); auto.
    destruct Ho as [Hk _]. intros k'. rewrite Hk. apply Hs1.
Qed.

End MarksOfRelocation.

(** The residual scan passes over a marked section without a call, and
    changes no mark. *)
Lemma residual_body_skips i s :
  zlookup (processed_sec (st_g s)) i = Some true ->
  residual_body i s = Ret (inr s).
Proof. intros H. unfold residual_body, array_get. rewrite H. reflexivity. Qed.

Lemma residual_body_keeps_marks j s :
  always (residual_body j s) (fun o _ =>
    match o with
    | Done (inl _) => False
    | Done (inr s') => processed_sec (st_g s') = processed_sec (st_g s)
    | Undefined _ => True
    end).
Proof.
  unfold residual_body.
  repeat first
    [ lazymatch goal with
      | |- always (load_and_attach _ _ _ _) _ =>
          eapply always_mono; [|apply load_and_attach_keeps_marks];
          intros [[? ?]|?] ? ?
      end
    | always_go ];
  try exact I; try reflexivity; cbn [snd st_g with_g] in *; assumption.
Qed.

(** Two loop bodies that agree on every state satisfying an invariant the
    first one keeps run alike. *)
Lemma for_loop_run_ext {W S R : Type} (h : handler W)
    (body body' : Z -> S -> proc (R + S)) (I : S -> Prop) :
  (forall j s, I s -> body j s = body' j s) ->
  (forall j s, I s ->
     always (body j s) (fun o _ =>
       match o with
       | Done (inr s') => I s'
       | _ => True
       end)) ->
  forall n j s w, I s ->
    run h (for_loop n j body s) w = run h (for_loop n j body' s) w.
Proof.
  intros Heq Hinv. induction n as [|n IH]; intros j s w Hs; [reflexivity|].
  rewrite !for_loop_S, !run_bind, <- (Heq j s Hs).
  pose proof (always_run h _ _ w (Hinv j s Hs)) as Hpost.
  destruct (run h (body j s) w) as [[[[v|s']|u] t] w1]; try reflexivity.
  simpl in Hpost. rewrite (IH (j + 1) s' w1 Hpost). reflexivity.
Qed.

(** C5, as the code has it: a relocation section whose target resolves is
    marked processed together with its target in the relocation scan, before
    relocation is attempted, so the marks are there whenever the scan comes
    back, also when the relocation failed.  The residual scan then behaves
    exactly like a scan that passes over these two sections: a section
    handled in the relocation scan is never loaded again in the residual
    scan. *)
Theorem relocated_sections_are_not_reloaded {W : Type} (h : handler W) (sz : Z)
    ehdr s w i shname shdr data shname_prog shdr_prog data_prog s2 t2 w2 :
  1 <= i < e_shnum ehdr ->
  get_sec (st_elf s) i = inr (shname, shdr, data) ->
  sh_type shdr = SHT_REL ->
  get_sec (st_elf s) (to_int (sh_info shdr))
  = inr (shname_prog, shdr_prog, data_prog) ->
  run h (scan_sections ehdr (relo_pass_body sz) s) w = (Done (inr s2), t2, w2) ->
  zlookup (processed_sec (st_g s2)) i = Some true /\
  zlookup (processed_sec (st_g s2)) (sh_info shdr) = Some true /\
  forall w',
    run h (scan_sections ehdr residual_body s2) w'
    = run h (scan_sections ehdr
               (skipping (fun j => (j =? i) || (j =? sh_info shdr)) residual_body)
               s2) w'.
Proof.
  intros Hi Hsec Hrel Hprog Hrun.
  assert (Hmarks :
    zlookup (processed_sec (st_g s2)) i = Some true /\
    zlookup (processed_sec (st_g s2)) (sh_info shdr) = Some true).
  { pose proof (always_run h _ _ w
                  (relo_scan_marks sz ehdr s i shname shdr shname_prog shdr_prog
                     Hi ltac:(unfold sec_kind; rewrite Hsec; reflexivity) Hrel
                     ltac:(unfold sec_kind; rewrite Hprog; reflexivity)))
      as [_ H].
    rewrite Hrun in H. exact H. }
  destruct Hmarks as [Hm1 Hm2]. split; [exact Hm1|]. split; [exact Hm2|].
  intros w'. unfold scan_sections.
  apply (for_loop_run_ext h residual_body _
           (fun s' => processed_sec (st_g s') = processed_sec (st_g s2))).
  - intros j s' Hs'. unfold skipping.
    destruct ((j =? i) || (j =? sh_info shdr)) eqn:E; [|reflexivity].
    apply residual_body_skips. rewrite Hs'.
    apply orb_true_iff in E as [E|E]; apply Z.eqb_eq in E; subst j; assumption.
  - intros j s' Hs'.
    eapply always_mono; [|apply residual_body_keeps_marks].
    intros [[v|s'']|u] t Ho; auto. congruence.
  - reflexivity.
Qed.

Lemma relocated_sections_are_not_reloaded_witness :
  exists s2 t2 w2,
    run (scripted None)
        (scan_sections (mk_ehdr 4) (relo_pass_body 20) bad_rel_state) []
    = (Done (inr s2), t2, w2) /\
    printed t2 = [msg_invalid_relo 0 183] /\
    zlookup (processed_sec (st_g s2)) 3 = Some true /\
    zlookup (processed_sec (st_g s2)) 1 = Some true /\
    forall w',
      run (scripted None) (scan_sections (mk_ehdr 4) residual_body s2) w'
      = run (scripted None)
            (scan_sections (mk_ehdr 4)
               (skipping (fun j => (j =? 3) || (j =? 1)) residual_body) s2) w'.
Proof.
  eexists _, _, _.
  assert (Hrun : run (scripted None)
                   (scan_sections (mk_ehdr 4) (relo_pass_body 20) bad_rel_state) []
                 = (Done (inr _), _, _)) by (vm_compute; reflexivity).
  split; [exact Hrun|]. split; [reflexivity|].
  apply (relocated_sections_are_not_reloaded (scripted None) 20 (mk_ehdr 4)
           bad_rel_state [] 3 ".relkprobe/do_sys_open"
           (mk_shdr SHT_REL 32 16 1 0 0)
           (mk_data 32 [] [] [] [mk_rel 8 (2 ^ 32); mk_rel 0 (2 ^ 32)] [])
           "kprobe/do_sys_open" (mk_shdr 1 32 0 0 0 6)
           (mk_data 32 [] [] ld_map_example [] []) _ _ _
           ltac:(simpl; lia) eq_refl eq_refl eq_refl Hrun).
Defined.

(** C5 as stated does not hold: the marks guard the residual scan only.  When
    two relocation sections name the same program section as their target,
    the relocation scan submits that program twice. *)
Lemma program_with_two_relocation_sections_is_loaded_twice :
  let r := run (scripted (Some twice_relocated))
               (load_bpf_file 20 "prog.o" initial_globals) [1; 3] in
  omap submitted_insns (trace_of r)
  = [[mk_insn 24 1 1 0 0; mk_insn 0 0 0 0 0; mk_insn 149 0 0 0 0];
     [mk_insn 24 1 1 0 0; mk_insn 0 0 0 0 0; mk_insn 149 0 0 0 0]]
  /\ count_events is_prog_load (trace_of r) = 2%nat
  /\ exists g', result_of r = Done (0, g') /\ prog_cnt g' = 2.
Proof.
  cbv zeta. split; [vm_compute; reflexivity|]. split; [vm_compute; reflexivity|].
  eexists. split; [vm_compute; reflexivity|]. reflexivity.
Qed.

(* ===================================================================== *)
(** ** Submission and attachment: [load_and_attach] *)
(* ===================================================================== *)

Lemma attach_failed event k kr tp xdp pe fd g :
  fd < 0 ->
  always (attach event k kr tp xdp pe fd g) (fun o t =>
    reported msg_prog_load_failed t /\ o = Done (-1, g)).
Proof.
  intros Hfd. unfold attach. apply Z.ltb_lt in Hfd. rewrite Hfd.
  repeat always_go. split; [|reflexivity].
  match goal with x : Z |- _ => exists x end.
  match goal with u : unit |- _ => destruct u end. reflexivity.
Qed.

Lemma attach_submits_nothing event k kr tp xdp pe fd g :
  always (attach event k kr tp xdp pe fd g) (fun _ t => no_submission t).
Proof.
  unfold attach, no_submission. cbv zeta.
  repeat always_go; repeat (constructor; [repeat split; reflexivity|]);
    constructor.
Qed.

Lemma load_and_attach_retry_protocol event prog size g :
  strncmp_eq event "kprobe/" 7 || strncmp_eq event "kretprobe/" 10 = true ->
  always (load_and_attach event prog size g)
         (retry_protocol (bpf_prog_load BPF_PROG_TYPE_KPROBE prog size
                                        (license g) (kern_version g)) g).
Proof.
  intros Hprobe. unfold load_and_attach. cbv zeta. rewrite Hprobe.
  apply always_bind. unfold perform. cbn [always]. intros fd1. cbn [app].
  destruct (fd1 <? 0) eqn:Hfd1.
  2:{ apply Z.ltb_ge in Hfd1.
      eapply always_mono; [|apply attach_submits_nothing].
      intros o t Ht. exists fd1, t. split; [reflexivity|].
      split; [auto|]. intros; lia. }
  apply Z.ltb_lt in Hfd1.
  apply always_bind. cbn [always]. intros e. cbn [app].
  destruct (e =? EPERM) eqn:He.
  2:{ apply Z.eqb_neq in He.
      eapply always_mono; [|apply attach_failed; exact Hfd1].
      intros o t [Hrep Ho]. exists fd1, (Ev errno e :: t).
      split; [reflexivity|]. split; [intros; lia|]. intros _.
      exists e, t. split; [reflexivity|]. split; [auto|]. intros; contradiction. }
  apply Z.eqb_eq in He.
  apply always_bind. cbn [always]. intros e'. cbn [app].
  apply always_bind. cbn [always]. intros []. cbn [app].
  apply always_bind. cbn [always]. intros [ret rl]. cbn [app].
  assert (Hshape : forall o rest2,
    ((ret <> 0 -> reported msg_prog_load_failed rest2 /\ o = Done (-1, g)) /\
     (ret = 0 ->
      exists ret2 rest3,
        rest2 = Ev (setrlimit RLIMIT_MEMLOCK
                              (mk_rlimit RLIM_INFINITY RLIM_INFINITY)) ret2
                :: rest3 /\
        (ret2 <> 0 -> reported msg_setrlimit_failed rest3 /\ o = Done (-1, g)) /\
        (ret2 = 0 ->
         exists fd2 rest4,
           rest3 = Ev (bpf_prog_load BPF_PROG_TYPE_KPROBE prog size (license g)
                                     (kern_version g)) fd2 :: rest4 /\
           (0 <= fd2 -> no_submission rest4) /\
           (fd2 < 0 -> reported msg_prog_load_failed rest4 /\ o = Done (-1, g))))) ->
    retry_protocol (bpf_prog_load BPF_PROG_TYPE_KPROBE prog size (license g)
                                  (kern_version g)) g o
      (Ev (bpf_prog_load BPF_PROG_TYPE_KPROBE prog size (license g)
                         (kern_version g)) fd1
       :: Ev errno e :: Ev errno e' :: Ev (printf (msg_prog_load_retry e')) tt
       :: Ev (getrlimit RLIMIT_MEMLOCK) (ret, rl) :: rest2)).
  { intros o rest2 [H1 H2]. eexists fd1, _. split; [reflexivity|].
    split; [intros; lia|]. intros _. eexists e, _. split; [reflexivity|].
    split; [intros; contradiction|]. intros _.
    exists e', ret, rl, rest2. split; [reflexivity|]. split; assumption. }
  destruct (ret =? 0) eqn:Hret.
  2:{ apply Z.eqb_neq in Hret.
      eapply always_mono; [|apply attach_failed; exact Hfd1].
      intros o t [Hrep Ho]. apply Hshape. split; [auto|]. intros; contradiction. }
  apply Z.eqb_eq in Hret.
  apply always_bind. cbn [always rlim_max rlim_cur]. intros ret2. cbn [app].
  destruct (ret2 =? 0) eqn:Hret2.
  - apply Z.eqb_eq in Hret2.
    apply always_bind. cbn [always]. intros fd2. cbn [app].
    destruct (Z_lt_le_dec fd2 0) as [Hfd2|Hfd2].
    + eapply always_mono; [|apply attach_failed; exact Hfd2].
      intros o t [Hrep Ho]. apply Hshape. split; [intros; contradiction|].
      intros _. eexists ret2, _. split; [reflexivity|].
      split; [intros; contradiction|]. intros _.
      exists fd2, t. split; [reflexivity|]. split; [intros; lia|auto].
    + eapply always_mono; [|apply attach_submits_nothing].
      intros o t Ht. apply Hshape. split; [intros; contradiction|].
      intros _. eexists ret2, _. split; [reflexivity|].
      split; [intros; contradiction|]. intros _.
      exists fd2, t. split; [reflexivity|]. split; [auto|intros; lia].
  - apply Z.eqb_neq in Hret2.
    apply always_bind. cbn [always]. intros e4. cbn [app]. intros [].
    apply Hshape. split; [intros; contradiction|]. intros _.
    eexists ret2, _. split; [reflexivity|]. split; [|intros; contradiction].
    intros _. split; [|reflexivity]. exists e4. reflexivity.
Qed.

Lemma count_events_cons p e t :
  count_events p (e :: t) = ((if p e then 1 else 0) + count_events p t)%nat.
Proof. unfold count_events. simpl. destruct (p e); reflexivity. Qed.

Lemma no_submission_counts t :
  no_submission t ->
  count_events is_prog_load t = 0%nat /\ count_events is_getrlimit t = 0%nat
  /\ count_events is_setrlimit t = 0%nat.
Proof.
  intros H. repeat split; apply count_events_0;
    (eapply Forall_impl; [exact H|]); intros e He; apply He.
Qed.

Lemma reported_counts what t :
  reported what t ->
  count_events is_prog_load t = 0%nat /\ count_events is_getrlimit t = 0%nat
  /\ count_events is_setrlimit t = 0%nat.
Proof. intros [e ->]. repeat split; reflexivity. Qed.

Lemma retry_protocol_counts pt insns size lic ver g o t :
  retry_protocol (bpf_prog_load pt insns size lic ver) g o t ->
  (1 <= count_events is_prog_load t <= 2)%nat
  /\ (count_events is_getrlimit t <= 1)%nat
  /\ (count_events is_setrlimit t <= 1)%nat.
Proof.
  intros (fd1 & rest & -> & Hok & Hfail).
  assert (Hs : forall x,
            is_prog_load (Ev (bpf_prog_load pt insns size lic ver) x) = true
            /\ is_getrlimit (Ev (bpf_prog_load pt insns size lic ver) x) = false
            /\ is_setrlimit (Ev (bpf_prog_load pt insns size lic ver) x) = false).
  { intros x. repeat split. }
  destruct (Hs fd1) as (Hs1 & Hs2 & Hs3).
  rewrite !count_events_cons, Hs1, Hs2, Hs3.
  destruct (Z_lt_le_dec fd1 0) as [Hfd1|Hfd1].
  2:{ destruct (no_submission_counts _ (Hok Hfd1)) as (-> & -> & ->). lia. }
  destruct (Hfail Hfd1) as (e & rest1 & -> & Hne & Heq).
  rewrite !count_events_cons. cbn [is_prog_load is_getrlimit is_setrlimit].
  destruct (Z.eq_dec e EPERM) as [He|He].
  2:{ destruct (Hne He) as [Hrep _].
      destruct (reported_counts _ _ Hrep) as (-> & -> & ->). lia. }
  destruct (Heq He) as (e' & ret & rl & rest2 & -> & Hrne & Hreq).
  rewrite !count_events_cons. cbn [is_prog_load is_getrlimit is_setrlimit].
  destruct (Z.eq_dec ret 0) as [Hret|Hret].
  2:{ destruct (Hrne Hret) as [Hrep _].
      destruct (reported_counts _ _ Hrep) as (-> & -> & ->). lia. }
  destruct (Hreq Hret) as (ret2 & rest3 & -> & Hsne & Hseq).
  rewrite !count_events_cons. cbn [is_prog_load is_getrlimit is_setrlimit].
  destruct (Z.eq_dec ret2 0) as [Hret2|Hret2].
  2:{ destruct (Hsne Hret2) as [Hrep _].
      destruct (reported_counts _ _ Hrep) as (-> & -> & ->). lia. }
  destruct (Hseq Hret2) as (fd2 & rest4 & -> & Hok2 & Hfail2).
  destruct (Hs fd2) as (Hs1' & Hs2' & Hs3').
  rewrite !count_events_cons, Hs1', Hs2', Hs3'.
  destruct (Z_lt_le_dec fd2 0) as [Hfd2|Hfd2].
  - destruct (Hfail2 Hfd2) as [Hrep _].
    destruct (reported_counts _ _ Hrep) as (-> & -> & ->). lia.
  - destruct (no_submission_counts _ (Hok2 Hfd2)) as (-> & -> & ->). lia.
Qed.

(** C4, as the code has it: a probe program is submitted once; only when
    that submission fails with [EPERM] does the loader read the
    locked-memory limit, and only when the read succeeds does it set both
    the soft and the hard limit to [RLIM_INFINITY], and only when that
    succeeds does it submit once more.  There is never a third submission
    nor a second escalation; a failure other than [EPERM], a failed read or
    raise of the limit, and a failure of the second submission are reported
    and end [load_and_attach] with -1. *)
Theorem permission_denied_is_retried_once {W : Type} (h : handler W)
    event prog size g w :
  strncmp_eq event "kprobe/" 7 || strncmp_eq event "kretprobe/" 10 = true ->
  retry_protocol (bpf_prog_load BPF_PROG_TYPE_KPROBE prog size (license g)
                                (kern_version g)) g
                 (result_of (run h (load_and_attach event prog size g) w))
                 (trace_of (run h (load_and_attach event prog size g) w))
  /\ (1 <= count_events is_prog_load
             (trace_of (run h (load_and_attach event prog size g) w)) <= 2)%nat
  /\ (count_events is_getrlimit
        (trace_of (run h (load_and_attach event prog size g) w)) <= 1)%nat
  /\ (count_events is_setrlimit
        (trace_of (run h (load_and_attach event prog size g) w)) <= 1)%nat.
Proof.
  intros Hprobe.
  pose proof (always_run h _ _ w
                (load_and_attach_retry_protocol event prog size g Hprobe)) as H.
  split; [exact H|].
  eapply retry_protocol_counts. exact H.
Qed.

Lemma permission_denied_is_retried_once_witness :
  strncmp_eq "kprobe/do_sys_open" "kprobe/" 7
  || strncmp_eq "kprobe/do_sys_open" "kretprobe/" 10 = true /\
  let r := run (scripted None)
               (load_and_attach "kprobe/do_sys_open" ld_map_example 32
                                initial_globals)
               [-1; 1; 1; 0; 0; -1; 13] in
  retry_protocol (bpf_prog_load BPF_PROG_TYPE_KPROBE ld_map_example 32
                                (license initial_globals)
                                (kern_version initial_globals)) initial_globals
                 (result_of r) (trace_of r)
  /\ (1 <= count_events is_prog_load (trace_of r) <= 2)%nat
  /\ (count_events is_getrlimit (trace_of r) <= 1)%nat
  /\ (count_events is_setrlimit (trace_of r) <= 1)%nat.
Proof.
  split; [reflexivity|].
  exact (permission_denied_is_retried_once (scripted None) "kprobe/do_sys_open"
           ld_map_example 32 initial_globals [-1; 1; 1; 0; 0; -1; 13] eq_refl).
Defined.

(** C4 as stated does not hold: a submission that fails with [EPERM] is not
    retried when the limit cannot be raised ([setrlimit] fails), nor when it
    cannot be read ([getrlimit] fails, and then no limit is raised either). *)
Lemma no_retry_when_limit_cannot_be_raised :
  let setrlimit_fails :=
    run (scripted None)
        (load_and_attach "kprobe/do_sys_open" ld_map_example 32 initial_globals)
        [-1; EPERM; EPERM; 0; -1; EPERM] in
  let getrlimit_fails :=
    run (scripted None)
        (load_and_attach "kprobe/do_sys_open" ld_map_example 32 initial_globals)
        [-1; EPERM; EPERM; -1; 14] in
  (count_events is_prog_load (trace_of setrlimit_fails) = 1%nat /\
   count_events is_setrlimit (trace_of setrlimit_fails) = 1%nat /\
   printed (trace_of setrlimit_fails)
   = [msg_prog_load_retry EPERM; msg_setrlimit_failed EPERM] /\
   result_of setrlimit_fails = Done (-1, initial_globals))
  /\
  (count_events is_prog_load (trace_of getrlimit_fails) = 1%nat /\
   count_events is_setrlimit (trace_of getrlimit_fails) = 0%nat /\
   printed (trace_of getrlimit_fails)
   = [msg_prog_load_retry EPERM; msg_prog_load_failed 14] /\
   result_of getrlimit_fails = Done (-1, initial_globals)).
Proof. cbv zeta. repeat split; vm_compute; reflexivity. Qed.

(** *** Probe names *)

Lemma probe_flags (ret : bool) (name : string) :
  let event := probe_prefix ret +++ name in
  strncmp_eq event "kprobe/" 7 = negb ret /\
  strncmp_eq event "kretprobe/" 10 = ret /\
  strncmp_eq event "tracepoint/" 11 = false /\
  strncmp_eq event "xdp" 3 = false /\
  strncmp_eq event "perf_event" 10 = false /\
  advance (probe_prefix_length ret) event = name.
Proof. destruct ret; repeat split; reflexivity. Qed.

(** After a submission that went through, for a probe whose name is just the
    prefix: the program handle is recorded, the empty name is reported and
    -1 returned, and no probe is registered. *)
Lemma attach_empty_name (ret : bool) event tp fd g :
  advance (probe_prefix_length ret) event = "" ->
  always (attach event (negb ret) ret tp false false fd g) (fun o t =>
    no_registration t /\ forall g', o <> Done (0, g')).
Proof.
  intros Hname. unfold attach, no_registration. cbv zeta.
  replace (negb ret || ret) with true by (destruct ret; reflexivity).
  replace (if negb ret then advance 7 event else advance 10 event) with ""
    by (destruct ret; symmetry; exact Hname).
  cbn [orb].
  repeat always_go;
    (split; [repeat (constructor; [reflexivity|]); constructor|]);
    intros g'; discriminate.
Qed.

Lemma attach_run_registers {W : Type} (h : handler W) (ret : bool) event tp
    fd g w b :
  0 <= fd ->
  zlookup (prog_fd g) (prog_cnt g) = Some b ->
  let name := advance (probe_prefix_length ret) event in
  let g1 := set_prog_cnt
              (set_prog_fd g (<[Z.to_nat (prog_cnt g) := fd]> (prog_fd g)))
              (prog_cnt g + 1) in
  (name = "" ->
   run h (attach event (negb ret) ret tp false false fd g) w
   = (Done (-1, g1), [Ev (printf msg_event_name_empty) tt],
      (h unit (printf msg_event_name_empty) w).2))
  /\
  (name <> "" ->
   exists more,
     trace_of (run h (attach event (negb ret) ret tp false false fd g) w)
     = Ev (system (registration ret name))
          (h Z (system (registration ret name)) w).1 :: more).
Proof.
  intros Hfd Hslot name g1. unfold attach. cbv zeta.
  apply Z.ltb_ge in Hfd. rewrite Hfd.
  replace (negb ret || ret) with true by (destruct ret; reflexivity).
  replace (if negb ret then advance 7 event else advance 10 event) with name
    by (destruct ret; reflexivity).
  rewrite !run_bind. unfold array_set. rewrite Hslot.
  cbn [run orb]. cbv beta iota zeta. fold g1. split.
  - intros ->. rewrite run_bind, run_perform. simpl.
    destruct (h unit (printf msg_event_name_empty) w) as [[] w1]. reflexivity.
  - intros Hne. destruct name as [|a s] eqn:Hn; [contradiction|].
    replace (if negb ret then "p" else "r") with (if ret then "r" else "p")
      by (destruct ret; reflexivity).
    fold (registration ret (String a s)).
    rewrite run_bind, run_perform.
    destruct (run h _ _) as [[o t] w']. eexists. reflexivity.
Qed.

Lemma load_and_attach_empty_name (ret : bool) prog size g :
  always (load_and_attach (probe_prefix ret +++ "") prog size g) (fun o t =>
    no_registration t /\ forall g', o <> Done (0, g')).
Proof.
  unfold load_and_attach. cbv zeta.
  destruct (probe_flags ret "") as (-> & -> & -> & -> & -> & Hadv).
  replace (negb ret || ret) with true by (destruct ret; reflexivity).
  repeat first
    [ lazymatch goal with
      | |- always (attach _ _ _ _ _ _ _ _) _ =>
          eapply always_mono; [|apply (attach_empty_name ret); exact Hadv];
          intros ? ? [? ?]
      end
    | always_go ];
  cbn [app]; unfold no_registration in *;
  (split; [repeat (constructor; [reflexivity|]); try assumption; constructor|]);
  try assumption; intros g'; discriminate.
Qed.

(** C8, as the code has it.  For a program named [kprobe/NAME] or
    [kretprobe/NAME], skipping the 7 or 10 characters of the prefix yields
    [NAME].  When [NAME] is empty no probe is ever registered and
    [load_and_attach] does not return 0; when moreover the submission goes
    through, the empty name is what is reported, and -1 returned.  When
    [NAME] is not empty and the submission goes through, the next call
    registers the probe under [NAME].  A name with neither prefix, a
    tracepoint name for one, is turned down as an unknown event before
    anything is submitted. *)
Theorem probe_name_is_stripped {W : Type} (h : handler W) (ret : bool)
    (name : string) prog size g w :
  let event := probe_prefix ret +++ name in
  let submit := bpf_prog_load BPF_PROG_TYPE_KPROBE prog size (license g)
                              (kern_version g) in
  let r := run h (load_and_attach event prog size g) w in
  advance (probe_prefix_length ret) event = name
  /\ (name = "" ->
      no_registration (trace_of r) /\ forall g', result_of r <> Done (0, g'))
  /\ (0 <= (h Z submit w).1 ->
      zlookup (prog_fd g) (prog_cnt g) <> None ->
      (name = "" ->
       printed (trace_of r) = [msg_event_name_empty]
       /\ exists g', result_of r = Done (-1, g'))
      /\ (name <> "" ->
          exists more,
            trace_of r
            = Ev submit (h Z submit w).1
              :: Ev (system (registration ret name))
                    (h Z (system (registration ret name)) (h Z submit w).2).1
              :: more))
  /\ (forall other,
        strncmp_eq other "kprobe/" 7 || strncmp_eq other "kretprobe/" 10 = false ->
        run h (load_and_attach other prog size g) w
        = (Done (-1, g), [Ev (printf (msg_unknown_event other)) tt],
           (h unit (printf (msg_unknown_event other)) w).2)).
Proof.
  intros event submit r.
  destruct (probe_flags ret name) as (Hk & Hkr & Htp & Hxdp & Hpe & Hadv).
  fold event in Hk, Hkr, Htp, Hxdp, Hpe, Hadv.
  split; [exact Hadv|]. split; [|split].
  3:{ intros other Hother. unfold load_and_attach. cbv zeta. rewrite Hother.
      rewrite run_bind, run_perform. simpl.
      destruct (h unit (printf (msg_unknown_event other)) w) as [[] w1].
      reflexivity. }
  - intros ->. subst r event.
    exact (always_run h _ _ w (load_and_attach_empty_name ret prog size g)).
  - intros Hfd Hslot.
    destruct (zlookup (prog_fd g) (prog_cnt g)) as [b|] eqn:Hb; [|contradiction].
    assert (Hrun : r = let '(o, t, w') :=
                         run h (attach event (negb ret) ret false false false
                                       (h Z submit w).1 g) (h Z submit w).2 in
                       (o, Ev submit (h Z submit w).1 :: t, w')).
    { subst r. unfold load_and_attach. cbv zeta.
      rewrite Hk, Hkr, Htp, Hxdp, Hpe.
      replace (negb ret || ret) with true by (destruct ret; reflexivity).
      rewrite run_bind, run_perform. fold submit. cbv beta iota zeta.
      apply Z.ltb_ge in Hfd. rewrite Hfd.
      destruct (run h _ _) as [[o t] w']. reflexivity. }
    destruct (attach_run_registers h ret event false (h Z submit w).1 g
                (h Z submit w).2 b Hfd Hb) as [Hempty Hreg].
    rewrite Hadv in Hempty, Hreg. rewrite Hrun. split.
    + intros Hn. rewrite (Hempty Hn). split; [reflexivity|].
      eexists. reflexivity.
    + intros Hn. destruct (Hreg Hn) as [more Hmore]. revert Hmore.
      destruct (run h (attach _ _ _ _ _ _ _ _) _) as [[o t] w'].
      unfold trace_of. cbn [fst snd]. intros ->.
      exists more. reflexivity.
Qed.

Lemma probe_name_is_stripped_witness :
  let r := run (scripted None)
               (load_and_attach "kprobe/do_sys_open" ld_map_example 32
                                initial_globals) [7; 0; 4; 2] in
  advance 7 "kprobe/do_sys_open" = "do_sys_open" /\
  exists more,
    trace_of r
    = Ev (bpf_prog_load BPF_PROG_TYPE_KPROBE ld_map_example 32
                        (license initial_globals) (kern_version initial_globals)) 7
      :: Ev (system "echo 'p:pdo_sys_open do_sys_open' >> /sys/kernel/debug/tracing/kprobe_events") 0
      :: more.
Proof.
  destruct (probe_name_is_stripped (scripted None) false "do_sys_open"
              ld_map_example 32 initial_globals [7; 0; 4; 2])
    as (H1 & _ & H3 & _).
  destruct H3 as [_ H]; [simpl; lia|discriminate|].
  split; [exact H1|]. apply H. discriminate.
Defined.

(** C8 as stated does not hold.  A name that is exactly [tracepoint/] is
    turned down as an unknown event before anything is submitted, not as an
    empty event name, and the prefix of a tracepoint has 11 characters, so
    that skipping 10 leaves the slash.  A name that is exactly [kprobe/]
    whose submission fails is reported as a failed submission. *)
Lemma prefix_only_name_is_not_always_an_empty_name :
  let tracepoint :=
    run (scripted None)
        (load_and_attach "tracepoint/" ld_map_example 32 initial_globals) [] in
  let kprobe :=
    run (scripted None)
        (load_and_attach "kprobe/" ld_map_example 32 initial_globals)
        [-1; 22; 22] in
  (trace_of tracepoint = [Ev (printf (msg_unknown_event "tracepoint/")) tt] /\
   result_of tracepoint = Done (-1, initial_globals) /\
   advance 10 "tracepoint/sched_switch" = "/sched_switch")
  /\
  (printed (trace_of kprobe) = [msg_prog_load_failed 22] /\
   result_of kprobe = Done (-1, initial_globals)).
Proof. cbv zeta. repeat split; vm_compute; reflexivity. Qed.

(* ===================================================================== *)
(** ** Further properties of the loader *)
(* ===================================================================== *)


(** A loop whose invariant may depend on the round, with what it can leave
    the function with ([E]) and where it can leave defined behaviour
    ([U]). *)
Lemma always_for_loop_ind {S R : Type} (body : Z -> S -> proc (R + S))
    (P : event -> Prop) (E : R -> Prop) (U : undefined -> Prop) count :
  forall (I : nat -> S -> Prop) i0,
    (forall (k : nat) s, (k < count)%nat -> I k s ->
       always (body (i0 + Z.of_nat k) s) (fun o t =>
         Forall P t /\
         match o with
         | Done (inl v) => E v
         | Done (inr s') => I (Datatypes.S k) s'
         | Undefined u => U u
         end)) ->
    forall s, I 0%nat s ->
      always (for_loop count i0 body s) (fun o t =>
        Forall P t /\
        match o with
        | Done (inl v) => E v
        | Done (inr s') => I count s'
        | Undefined u => U u
        end).
Proof.
  induction count as [|n IH]; intros I i0 Hbody s Hs.
  - simpl. auto.
  - rewrite for_loop_S. apply always_bind.
    assert (H0 := Hbody 0%nat s ltac:(lia) Hs).
    change (Z.of_nat 0) with 0 in H0. rewrite Z.add_0_r in H0.
    eapply always_mono; [|exact H0].
    intros [[v|s']|u] t [Ht Ho]; simpl.
    + rewrite app_nil_r. auto.
    + eapply always_mono;
        [|apply (IH (fun k => I (Datatypes.S k)) (i0 + 1)); [|exact Ho]].
      * intros o t' [Ht' Ho']. split; [|exact Ho']. apply Forall_app. auto.
      * intros k s0 Hk Hs0.
        replace (i0 + 1 + Z.of_nat k) with (i0 + Z.of_nat (Datatypes.S k)) by lia.
        apply Hbody; [lia|exact Hs0].
    + auto.
Qed.

(** *** What [load_maps] leaves alone *)

Lemma load_maps_body_frame maps g0 (count k : nat) g :
  (k < count)%nat ->
  same_but_maps g0 g /\ length (map_fd g) = length (map_fd g0) /\
  (forall j, (count <= j)%nat -> map_fd g !! j = map_fd g0 !! j) ->
  always (load_maps_body maps (0 + Z.of_nat k) g) (fun o t =>
    Forall (fun _ => True) t /\
    match o with
    | Done (inl v) =>
        same_but_maps g0 v.2 /\ length (map_fd v.2) = length (map_fd g0) /\
        (forall j, (count <= j)%nat -> map_fd v.2 !! j = map_fd g0 !! j)
    | Done (inr g') =>
        same_but_maps g0 g' /\ length (map_fd g') = length (map_fd g0) /\
        (forall j, (count <= j)%nat -> map_fd g' !! j = map_fd g0 !! j)
    | Undefined _ => True
    end).
Proof.
  intros Hk (Hsame & Hlen & Hrest).
  assert (HT : forall t : list event, Forall (fun _ => True) t)
    by (intros; apply Forall_true; auto).
  assert (Hins : forall fd,
    length (<[k := fd]> (map_fd g)) = length (map_fd g0) /\
    (forall j, (count <= j)%nat -> <[k := fd]> (map_fd g) !! j = map_fd g0 !! j)).
  { intros fd. rewrite length_insert. split; [exact Hlen|].
    intros j Hj. rewrite list_lookup_insert_ne by lia. apply Hrest, Hj. }
  unfold load_maps_body. rewrite Z.add_0_l.
  repeat always_step; (split; [apply HT|]); try exact I;
    cbn [snd map_fd set_map_fd set_prog_array_fd];
    rewrite Nat2Z.id;
    (split; [exact Hsame|apply Hins]).
Qed.

(** X1: [load_maps] changes nothing but the slots of [map_fd] it walks over and
    [prog_array_fd]. *)
Theorem load_maps_touches_only_its_slots {W : Type} (h : handler W) (sz : Z)
    maps len g w ret g' t w' :
  run h (load_maps sz maps len g) w = (Done (ret, g'), t, w') ->
  same_but_maps g g' /\ length (map_fd g') = length (map_fd g) /\
  forall j, (map_count sz len <= j)%nat -> map_fd g' !! j = map_fd g !! j.
Proof.
  intros Hrun.
  assert (H : always (load_maps sz maps len g) (fun o _ =>
    match o with
    | Done (_, g') =>
        same_but_maps g g' /\ length (map_fd g') = length (map_fd g) /\
        forall j, (map_count sz len <= j)%nat -> map_fd g' !! j = map_fd g !! j
    | Undefined _ => True
    end)).
  { unfold load_maps. fold (map_count sz len). apply always_bind.
    eapply always_mono;
      [|apply (always_for_loop_ind (load_maps_body maps) (fun _ => True)
                 (fun v => same_but_maps g v.2 /\
                           length (map_fd v.2) = length (map_fd g) /\
                           forall j, (map_count sz len <= j)%nat ->
                                     map_fd v.2 !! j = map_fd g !! j)
                 (fun _ => True) (map_count sz len)
                 (fun _ g' => same_but_maps g g' /\
                              length (map_fd g') = length (map_fd g) /\
                              forall j, (map_count sz len <= j)%nat ->
                                        map_fd g' !! j = map_fd g !! j) 0)].
    - intros [[[r0 g0]|g0]|u] t0 [_ Ho]; simpl; auto.
    - intros k s Hk Hs. apply (load_maps_body_frame maps g _ k s Hk Hs).
    - repeat split; reflexivity. }
  apply (always_run h _ _ w) in H. rewrite Hrun in H. exact H.
Qed.

Lemma load_maps_touches_only_its_slots_witness :
  exists ret g' t w',
    run (scripted None)
        (load_maps 20 [hash_map; prog_array_map] 45 two_maps_globals) [8; 9]
    = (Done (ret, g'), t, w') /\
    map_fd g' !! 0%nat = Some 8 /\ map_fd g' !! 1%nat = Some 9 /\
    same_but_maps two_maps_globals g' /\
    length (map_fd g') = length (map_fd two_maps_globals) /\
    forall j, (map_count 20 45 <= j)%nat ->
              map_fd g' !! j = map_fd two_maps_globals !! j.
Proof.
  eexists _, _, _, _.
  assert (Hrun : run (scripted None)
                   (load_maps 20 [hash_map; prog_array_map] 45 two_maps_globals)
                   [8; 9]
                 = (Done (0, _), _, _)) by (vm_compute; reflexivity).
  split; [exact Hrun|]. split; [reflexivity|]. split; [reflexivity|].
  exact (load_maps_touches_only_its_slots (scripted None) 20 _ 45
           two_maps_globals [8; 9] _ _ _ _ Hrun).
Defined.

(** *** More definitions than [map_fd] has slots *)

Lemma load_maps_body_in_range maps (k : nat) g :
  (k < length maps)%nat -> (k < length (map_fd g))%nat ->
  always (load_maps_body maps (0 + Z.of_nat k) g) (fun o t =>
    Forall (fun _ => True) t /\
    match o with
    | Done (inl v) => v.1 = 1
    | Done (inr g') => length (map_fd g') = length (map_fd g)
    | Undefined u => False
    end).
Proof.
  intros Hm Hfd.
  assert (HT : forall t : list event, Forall (fun _ => True) t)
    by (intros; apply Forall_true; auto).
  destruct (lookup_lt_is_Some_2 _ _ Hm) as [m Hmk].
  destruct (lookup_lt_is_Some_2 _ _ Hfd) as [old Hold].
  unfold load_maps_body, array_get, array_set. rewrite Z.add_0_l, !zlookup_nat.
  rewrite Hmk, Hold.
  repeat always_step; (split; [apply HT|]); try reflexivity;
    cbn [map_fd set_map_fd set_prog_array_fd]; apply length_insert.
Qed.

Lemma load_maps_body_past_the_end maps g :
  length (map_fd g) = 32%nat -> (32 < length maps)%nat ->
  always (load_maps_body maps 32 g) (fun o t =>
    match o with
    | Done _ => False
    | Undefined u => u = out_of_bounds "map_fd" 32
    end).
Proof.
  intros Hfd Hm.
  destruct (lookup_lt_is_Some_2 maps 32 Hm) as [m Hmk].
  unfold load_maps_body, array_get, array_set.
  change 32 with (Z.of_nat 32). rewrite !zlookup_nat, Hmk.
  rewrite (lookup_ge_None_2 (map_fd g) 32) by lia.
  simpl. intros fd. reflexivity.
Qed.

(** X2: with more than 32 definitions [load_maps] never returns 0: either one of
    the first 32 creations fails and it returns 1, or the 33rd handle is
    stored past the end of [map_fd]. *)
Theorem load_maps_never_succeeds_past_32 {W : Type} (h : handler W) (sz : Z)
    maps len g w :
  length (map_fd g) = 32%nat ->
  (32 < map_count sz len)%nat ->
  (map_count sz len <= length maps)%nat ->
  (exists g', result_of (run h (load_maps sz maps len g) w) = Done (1, g'))
  \/ result_of (run h (load_maps sz maps len g) w)
     = Undefined (out_of_bounds "map_fd" 32).
Proof.
  intros Hfd Hcount Hmaps.
  assert (H : always (load_maps sz maps len g) (fun o _ =>
    match o with
    | Done (ret, _) => ret = 1
    | Undefined u => u = out_of_bounds "map_fd" 32
    end)).
  { unfold load_maps. fold (map_count sz len). apply always_bind.
    replace (map_count sz len)
      with (32 + Datatypes.S (map_count sz len - 33))%nat by lia.
    apply always_for_loop_split.
    eapply always_mono;
      [|apply (always_for_loop_ind (load_maps_body maps) (fun _ => True)
                 (fun v => v.1 = 1) (fun _ => False) 32
                 (fun _ g' => length (map_fd g') = 32%nat) 0)].
    - intros [[[r0 g0]|g0]|u] t0 [_ Ho]; [exact Ho| |contradiction].
      rewrite for_loop_S. apply always_bind.
      eapply always_mono; [|apply (load_maps_body_past_the_end maps g0 Ho); lia].
      intros [a|u] t1; simpl; [contradiction|auto].
    - intros k s Hk Hs.
      eapply always_mono; [|apply (load_maps_body_in_range maps k s); lia].
      intros [[v|g']|u] t0 [Ht Ho]; (split; [exact Ht|]); auto. lia.
    - exact Hfd. }
  apply (always_run h _ _ w) in H.
  destruct (result_of (run h (load_maps sz maps len g) w)) as [[ret g']|u].
  - left. exists g'. subst ret. reflexivity.
  - right. subst u. reflexivity.
Qed.

Lemma load_maps_never_succeeds_past_32_witness :
  length (map_fd initial_globals) = 32%nat /\
  (32 < map_count 20 660)%nat /\
  (map_count 20 660 <= length (replicate 33 hash_map))%nat /\
  ((exists g',
      result_of (run (scripted None)
                     (load_maps 20 (replicate 33 hash_map) 660 initial_globals)
                     [3; 4; -1]) = Done (1, g'))
   \/ result_of (run (scripted None)
                     (load_maps 20 (replicate 33 hash_map) 660 initial_globals)
                     [3; 4; -1])
      = Undefined (out_of_bounds "map_fd" 32)).
Proof.
  assert (H1 : length (map_fd initial_globals) = 32%nat) by reflexivity.
  assert (H2 : (32 < map_count 20 660)%nat) by (vm_compute; lia).
  assert (H3 : (map_count 20 660 <= length (replicate 33 hash_map))%nat)
    by (vm_compute; lia).
  split; [exact H1|]. split; [exact H2|]. split; [exact H3|].
  exact (load_maps_never_succeeds_past_32 (scripted None) 20
           (replicate 33 hash_map) 660 initial_globals [3; 4; -1] H1 H2 H3).
Defined.

(** *** What relocation leaves of a program *)

Lemma Forall2_insert_same {A : Type} (P : A -> A -> Prop) (l : list A) i x y :
  (forall z, P z z) -> l !! i = Some x -> P x y -> Forall2 P l (<[i := y]> l).
Proof.
  intros Hrefl. revert i. induction l as [|a l IH]; intros [|i] Hi Hxy;
    try discriminate; simpl in *.
  - injection Hi as ->. constructor; [exact Hxy|].
    apply Forall_Forall2_diag, Forall_forall. auto.
  - constructor; [apply Hrefl|]. apply IH; assumption.
Qed.

Lemma kept_or_patched_trans fds a b c :
  kept_or_patched fds a b -> kept_or_patched fds b c -> kept_or_patched fds a c.
Proof.
  intros [->|(Ha & fd & Hfd & ->)] Hbc; [exact Hbc|].
  destruct Hbc as [->|(_ & fd' & Hfd' & ->)]; right; (split; [exact Ha|]).
  - exists fd. auto.
  - exists fd'. auto.
Qed.

Section RelocationShape.

Context {W : Type} (h : handler W) (sz : Z).
Context (data : Elf_Data) (symbols : option Elf_Data) (g : globals).

Lemma relo_loop_shape count : forall (i0 : nat) insn0 w r t w',
  run h (for_loop count (Z.of_nat i0) (relo_body sz data symbols g) insn0) w
  = (Done r, t, w') ->
  Forall2 (kept_or_patched (map_fd g)) insn0 (insns_of r) /\
  match r with
  | inr _ => t = [] /\ w' = w
  | inl (ret, insn') =>
      ret = 1 /\
      exists rel ins,
        elem_of rel (as_rels data) /\ insn' !! insn_index rel = Some ins /\
        ~ is_ld_imm_dw ins /\ t = [Ev (printf (invalid_relo rel ins)) tt]
  end.
Proof.
  assert (Hrefl : forall l, Forall2 (kept_or_patched (map_fd g)) l l).
  { intros l. apply Forall_Forall2_diag, Forall_forall. intros x _. left.
    reflexivity. }
  induction count as [|n IH]; intros i0 insn0 w r t w' Hrun.
  - simpl in Hrun. injection Hrun as <- <- <-. simpl. auto.
  - rewrite for_loop_S in Hrun.
    apply run_bind_Done in Hrun as (a & t1 & w1 & t2 & Hbody & Hrest & ->).
    apply relo_body_Done in Hbody as (rel0 & ins0 & Hrel0 & Hins0 & Hcase).
    destruct Hcase as [(Hbad & -> & ->)|(Hok & -> & -> & sym0 & fd0 & Hsym0 & Hfd0 & ->)].
    + simpl in Hrest. injection Hrest as <- <- <-. simpl.
      split; [apply Hrefl|]. split; [reflexivity|].
      exists rel0, ins0. repeat split; try assumption.
      eapply list_elem_of_lookup_2. exact Hrel0.
    + replace (Z.of_nat i0 + 1) with (Z.of_nat (S i0)) in Hrest by lia.
      apply IH in Hrest as [Hshape Hout]. simpl. split; [|exact Hout].
      eapply Forall2_trans; [apply kept_or_patched_trans| |exact Hshape].
      apply (Forall2_insert_same _ _ _ ins0); [left; reflexivity|exact Hins0|].
      right. split; [exact Hok|]. exists fd0. split; [|reflexivity].
      apply zlookup_Some in Hfd0 as [_ Hfd0].
      eapply list_elem_of_lookup_2. exact Hfd0.
Qed.

End RelocationShape.

(** X3: whenever [parse_relo_and_apply] comes back, the program has the length
    it had and every instruction is the one it was or, for a 64-bit
    immediate load, that instruction with [BPF_PSEUDO_MAP_FD] as source
    register and a handle of [map_fd] as immediate: opcode, destination
    register and offset are never changed.  It comes back with 0 and without
    a call, or with 1 and the one message that names a relocation entry
    whose target is no 64-bit immediate load. *)
Theorem relocation_keeps_program_shape {W : Type} (h : handler W) (sz : Z)
    data symbols shdr insn g w ret insn' t w' :
  run h (parse_relo_and_apply sz data symbols shdr insn g) w
  = (Done (ret, insn'), t, w') ->
  Forall2 (kept_or_patched (map_fd g)) insn insn' /\
  ((ret = 0 /\ t = [] /\ w' = w)
   \/ (ret = 1 /\
       exists rel ins,
         elem_of rel (as_rels data) /\ insn !! insn_index rel = Some ins /\
         insn' !! insn_index rel = Some ins /\
         ~ is_ld_imm_dw ins /\ t = [Ev (printf (invalid_relo rel ins)) tt])).
Proof.
  unfold parse_relo_and_apply. intros Hrun.
  destruct (sh_entsize shdr =? 0); [discriminate|].
  apply run_bind_Done in Hrun as (r & t1 & w1 & t2 & Hloop & Hret & ->).
  change 0 with (Z.of_nat 0) in Hloop.
  apply relo_loop_shape in Hloop as [Hshape Hout].
  destruct r as [[v l]|l]; simpl in Hret; injection Hret as <- <- <- <-;
    simpl in Hshape; (split; [exact Hshape|]); rewrite app_nil_r.
  - right. destruct Hout as (-> & rel & ins & Hrel & Hins & Hbad & ->).
    split; [reflexivity|]. exists rel, ins. repeat split; try assumption.
    destruct (Forall2_lookup_r _ _ _ _ _ Hshape Hins) as (ins0 & Hins0 & Hk).
    destruct Hk as [->|(Hld & fd & _ & ->)]; [exact Hins0|].
    exfalso. apply Hbad. exact Hld.
  - left. destruct Hout as [-> ->]. auto.
Qed.

Lemma relocation_keeps_program_shape_witness :
  exists ret insn' t w',
    run (scripted None)
        (parse_relo_and_apply 20 rel_example (Some symtab_example)
                              rel_shdr_example ld_map_example two_maps_globals) []
    = (Done (ret, insn'), t, w') /\
    insn' = <[1%nat := mk_insn 24 1 1 0 6]> ld_map_example /\
    Forall2 (kept_or_patched (map_fd two_maps_globals)) ld_map_example insn' /\
    ((ret = 0 /\ t = [] /\ w' = [])
     \/ (ret = 1 /\
         exists rel ins,
           elem_of rel (as_rels rel_example) /\
           ld_map_example !! insn_index rel = Some ins /\
           insn' !! insn_index rel = Some ins /\
           ~ is_ld_imm_dw ins /\ t = [Ev (printf (invalid_relo rel ins)) tt])).
Proof.
  eexists _, _, _, _.
  assert (Hrun : run (scripted None)
        (parse_relo_and_apply 20 rel_example (Some symtab_example)
                              rel_shdr_example ld_map_example two_maps_globals) []
      = (Done (0, _), _, _)) by (vm_compute; reflexivity).
  split; [exact Hrun|]. split; [reflexivity|].
  exact (relocation_keeps_program_shape (scripted None) 20 rel_example
           (Some symtab_example) rel_shdr_example ld_map_example
           two_maps_globals [] _ _ _ _ Hrun).
Defined.

(* ===================================================================== *)
(** ** Objects that cannot be opened, and sections [get_sec] turns down *)
(* ===================================================================== *)

(** X4: when libelf's version check fails, the file cannot be opened,
    [elf_begin] yields no object or the object has no ELF header,
    [load_bpf_file] returns 1 and has called nothing else: the globals are as
    they were, [kprobe_events] is not cleared and a descriptor that was
    opened is not closed. *)
Theorem object_that_cannot_be_opened {W : Type} (h : handler W) (sz : Z)
    path g w t w' :
  fails_to_open h path w t w' ->
  run h (load_bpf_file sz path g) w = (Done (1, g), t, w').
Proof.
  intros (v & w1 & Hv & Hcase). unfold load_bpf_file.
  rewrite run_bind, run_perform, Hv. cbv beta iota zeta. simpl fst. simpl snd.
  destruct Hcase as [(-> & -> & ->)|(Hne & fd & w2 & Hfd & Hcase)].
  { reflexivity. }
  apply Z.eqb_neq in Hne. rewrite Hne.
  rewrite run_bind, run_perform, Hfd. cbv beta iota zeta. simpl fst. simpl snd.
  destruct Hcase as [(Hneg & -> & ->)|(Hpos & elf & Helf & Hhdr & ->)].
  { apply Z.ltb_lt in Hneg. rewrite Hneg. reflexivity. }
  apply Z.ltb_ge in Hpos. rewrite Hpos.
  rewrite run_bind, run_perform, Helf. cbv beta iota zeta. simpl fst. simpl snd.
  destruct elf as [e|]; [|reflexivity].
  unfold load_elf. rewrite Hhdr. reflexivity.
Qed.

Lemma object_that_cannot_be_opened_witness :
  fails_to_open (scripted (Some headerless)) "prog.o" [1; 3]
    [Ev (elf_version EV_CURRENT) 1; Ev (open "prog.o" O_RDONLY 0) 3;
     Ev (elf_begin 3) (Some headerless)] [] /\
  run (scripted (Some headerless)) (load_bpf_file 20 "prog.o" initial_globals)
      [1; 3]
  = (Done (1, initial_globals),
     [Ev (elf_version EV_CURRENT) 1; Ev (open "prog.o" O_RDONLY 0) 3;
      Ev (elf_begin 3) (Some headerless)], []).
Proof.
  assert (H : fails_to_open (scripted (Some headerless)) "prog.o" [1; 3]
                [Ev (elf_version EV_CURRENT) 1; Ev (open "prog.o" O_RDONLY 0) 3;
                 Ev (elf_begin 3) (Some headerless)] []).
  { exists 1, [3]. split; [reflexivity|]. right. split; [discriminate|].
    exists 3, []. split; [reflexivity|]. right. split; [lia|].
    exists (Some headerless). repeat split. }
  split; [exact H|].
  exact (object_that_cannot_be_opened (scripted (Some headerless)) 20 "prog.o"
           initial_globals [1; 3] _ _ H).
Defined.

(** X5: an object with no section beyond the null section: [load_bpf_file]
    clears [kprobe_events], closes the file and returns 0; the globals are as
    they were. *)
Theorem object_without_sections {W : Type} (h : handler W) (sz : Z)
    path g w elf fd w0 ehdr :
  opens h path w elf fd w0 ->
  elf_ehdr elf = Some ehdr ->
  e_shnum ehdr <= 1 ->
  exists v x c w',
    run h (load_bpf_file sz path g) w
    = (Done (0, g),
       [Ev (elf_version EV_CURRENT) v; Ev (open path O_RDONLY 0) fd;
        Ev (elf_begin fd) (Some elf); Ev (system clear_kprobes) x;
        Ev (close fd) c], w').
Proof.
  intros (v & w1 & w2 & Hv & Hne & Hfd & Hpos & Helf) Hehdr Hnum.
  exists v, (h Z (system clear_kprobes) w0).1,
         (h Z (close fd) (h Z (system clear_kprobes) w0).2).1,
         (h Z (close fd) (h Z (system clear_kprobes) w0).2).2.
  unfold load_bpf_file. rewrite run_bind, run_perform, Hv.
  cbv beta iota zeta. simpl fst. simpl snd.
  apply Z.eqb_neq in Hne. rewrite Hne.
  rewrite run_bind, run_perform, Hfd. cbv beta iota zeta. simpl fst. simpl snd.
  apply Z.ltb_ge in Hpos. rewrite Hpos.
  rewrite run_bind, run_perform, Helf. cbv beta iota zeta. simpl fst. simpl snd.
  unfold load_elf, scan_sections. rewrite Hehdr.
  replace (Z.to_nat (e_shnum ehdr - 1)) with 0%nat by lia.
  rewrite run_bind, run_perform. cbv beta iota zeta.
  cbn [for_loop bind]. rewrite run_bind, run_perform. reflexivity.
Qed.

Lemma object_without_sections_witness :
  opens (scripted (Some (object [null_scn]))) "prog.o" [1; 3; 0; 0]
        (object [null_scn]) 3 [0; 0] /\
  exists v x c w',
    run (scripted (Some (object [null_scn])))
        (load_bpf_file 20 "prog.o" initial_globals) [1; 3; 0; 0]
    = (Done (0, initial_globals),
       [Ev (elf_version EV_CURRENT) v; Ev (open "prog.o" O_RDONLY 0) 3;
        Ev (elf_begin 3) (Some (object [null_scn]));
        Ev (system clear_kprobes) x; Ev (close 3) c], w').
Proof.
  assert (H : opens (scripted (Some (object [null_scn]))) "prog.o" [1; 3; 0; 0]
                    (object [null_scn]) 3 [0; 0]).
  { exists 1, [3; 0; 0], [0; 0].
    repeat split; try reflexivity; try discriminate. }
  split; [exact H|].
  apply (object_without_sections (scripted (Some (object [null_scn]))) 20
           "prog.o" initial_globals [1; 3; 0; 0] (object [null_scn]) 3 [0; 0]
           (mk_ehdr 1) H eq_refl).
  simpl. lia.
Defined.

(** X6: a section that [get_sec] turns down, and so every section whose header
    gives it the size 0, whatever its name, is passed over by all three
    scans: no call is made and nothing changes. *)
Theorem empty_section_is_passed_over (sz : Z) (s : state) (i : Z) scn shdr :
  zlookup (elf_scns (st_elf s)) (to_ulong i) = Some scn ->
  scn_shdr scn = Some shdr ->
  sh_size shdr = 0 ->
  get_sec (st_elf s) i = inl 3 /\
  scan_body sz i s = Ret (inr s) /\
  relo_pass_body sz i s = Ret (inr s) /\
  (zlookup (processed_sec (st_g s)) i <> None -> residual_body i s = Ret (inr s)).
Proof.
  intros Hscn Hshdr Hsize.
  assert (Hsec : get_sec (st_elf s) i = inl 3).
  { unfold get_sec. rewrite Hscn, Hshdr, Hsize.
    destruct (scn_name scn); reflexivity. }
  split; [exact Hsec|].
  unfold scan_body, relo_pass_body, residual_body. rewrite Hsec.
  split; [reflexivity|]. split; [reflexivity|].
  intros Hmark. unfold array_get.
  destruct (zlookup (processed_sec (st_g s)) i) as [[|]|]; [| |contradiction];
    reflexivity.
Qed.

Lemma empty_section_is_passed_over_witness :
  let s := mk_state initial_globals empty_version None in
  get_sec empty_version 1 = inl 3 /\
  scan_body 20 1 s = Ret (inr s) /\
  relo_pass_body 20 1 s = Ret (inr s) /\
  (zlookup (processed_sec initial_globals) 1 <> None ->
   residual_body 1 s = Ret (inr s)).
Proof.
  exact (empty_section_is_passed_over 20
           (mk_state initial_globals empty_version None) 1
           (mk_scn (Some (mk_shdr 1 0 0 0 0 3)) (Some "version")
                   (Some (mk_data 0 [] [] [] [] [])) false)
           (mk_shdr 1 0 0 0 0 3) eq_refl eq_refl eq_refl).
Defined.

(* ===================================================================== *)
(** ** The calls of the three scans *)
(* ===================================================================== *)

Ltac later_events :=
  repeat (constructor; [split; [reflexivity|first [exact I|repeat split]]|]).

Lemma attach_later event k kr tp xdp pe fd g lic ver :
  always (attach event k kr tp xdp pe fd g) (fun o t =>
    Forall (later_event lic ver) t /\
    match o with
    | Done r => same_but_progs g r.2
    | Undefined _ => True
    end).
Proof.
  unfold attach. cbv zeta.
  repeat always_go;
    (split; [later_events; constructor|]); try exact I; repeat split.
Qed.

Lemma load_and_attach_later event prog size g :
  always (load_and_attach event prog size g) (fun o t =>
    Forall (later_event (license g) (kern_version g)) t /\
    match o with
    | Done r => same_but_progs g r.2
    | Undefined _ => True
    end).
Proof.
  unfold load_and_attach. cbv zeta.
  repeat first
    [ lazymatch goal with
      | |- always (attach _ _ _ _ _ _ _ _) _ =>
          eapply always_mono;
          [|apply (attach_later _ _ _ _ _ _ _ _ (license g) (kern_version g))];
          intros ? ? [? ?]
      end
    | always_go ];
  cbn [app];
  (split; [later_events; first [assumption|constructor]|]);
  first [assumption|exact I|repeat split].
Qed.

Lemma parse_relo_prints_only sz data symbols shdr insn g (P : event -> Prop) :
  (forall m u, P (Ev (printf m) u)) ->
  always (parse_relo_and_apply sz data symbols shdr insn g)
         (fun _ t => Forall P t).
Proof.
  intros HP. unfold parse_relo_and_apply.
  destruct (sh_entsize shdr =? 0); [constructor|].
  apply always_bind.
  eapply always_mono;
    [|apply (always_for_loop (relo_body sz data symbols g) (fun _ => True)
               (fun _ => True) P); [|exact I]].
  - intros [[v|l]|u] t [Ht _]; simpl; rewrite ?app_nil_r; exact Ht.
  - intros i l _. unfold relo_body, gelf_getrel.
    repeat always_step; repeat constructor; apply HP.
Qed.

Lemma relo_pass_body_later sz i s :
  always (relo_pass_body sz i s) (fun o t =>
    Forall (later_event (license (st_g s)) (kern_version (st_g s))) t /\
    match o with
    | Done (inl _) => False
    | Done (inr s') => kept_by_later_scans s s'
    | Undefined _ => True
    end).
Proof.
  unfold relo_pass_body.
  repeat first
    [ lazymatch goal with
      | |- always (parse_relo_and_apply _ _ _ _ _ _) _ =>
          eapply always_mono;
          [|apply (parse_relo_prints_only _ _ _ _ _ _
                     (later_event (license (st_g s)) (kern_version (st_g s))));
            intros; split; [reflexivity|exact I]];
          intros [[? ?]|?] ? ?
      | |- always (load_and_attach _ _ _ _) _ =>
          eapply always_mono; [|apply load_and_attach_later];
          intros [[? ?]|?] ? [? ?]
      end
    | always_go ];
  cbn [app]; rewrite ?app_nil_r;
  (split; [first [assumption|apply Forall_nil|apply Forall_app; split; assumption]|]);
  try exact I; unfold kept_by_later_scans;
  repeat match goal with
         | H : same_but_progs _ _ |- _ => destruct H as (? & ? & ? & _ & _)
         end;
  cbn [snd st_g license kern_version processed_sec set_processed_sec] in *;
  repeat split; try congruence;
  repeat match goal with
         | H : processed_sec _ = _ |- _ => rewrite H; clear H
         end;
  rewrite ?length_insert; reflexivity.
Qed.

Lemma residual_body_later i s :
  always (residual_body i s) (fun o t =>
    Forall (later_event (license (st_g s)) (kern_version (st_g s))) t /\
    match o with
    | Done (inl _) => False
    | Done (inr s') => kept_by_later_scans s s'
    | Undefined _ => True
    end).
Proof.
  unfold residual_body.
  repeat first
    [ lazymatch goal with
      | |- always (load_and_attach _ _ _ _) _ =>
          eapply always_mono; [|apply load_and_attach_later];
          intros [[? ?]|?] ? [? ?]
      end
    | always_go ];
  cbn [app]; rewrite ?app_nil_r;
  (split; [first [assumption|apply Forall_nil]|]);
  try exact I; unfold kept_by_later_scans;
  repeat match goal with
         | H : same_but_progs _ _ |- _ => destruct H as (? & ? & ? & _ & _)
         end;
  cbn [snd st_g with_g] in *; repeat split; congruence.
Qed.

(** A whole later scan: it never leaves the function, creates no map, and
    submits under the license and the kernel version it started with. *)
Lemma later_scan (body : Z -> state -> proc (Z * globals + state)) :
  (forall i s,
     always (body i s) (fun o t =>
       Forall (later_event (license (st_g s)) (kern_version (st_g s))) t /\
       match o with
       | Done (inl _) => False
       | Done (inr s') => kept_by_later_scans s s'
       | Undefined _ => True
       end)) ->
  forall count i s,
    always (for_loop count i body s) (fun o t =>
      Forall (later_event (license (st_g s)) (kern_version (st_g s))) t /\
      match o with
      | Done (inl _) => False
      | Done (inr s') => kept_by_later_scans s s'
      | Undefined _ => True
      end).
Proof.
  intros Hbody count i s.
  apply (always_for_loop body (kept_by_later_scans s) (fun _ => False)
           (later_event (license (st_g s)) (kern_version (st_g s))) count);
    [|repeat split].
  intros j s' (Hl & Hv & Hp).
  eapply always_mono; [|apply Hbody].
  intros [[v|s'']|u] t [Ht Ho]; rewrite Hl, Hv in Ht; (split; [exact Ht|]); auto.
  destruct Ho as (Hl' & Hv' & Hp'). repeat split; congruence.
Qed.

Lemma later_event_no_failed_create lic ver e :
  later_event lic ver e -> failed_create e = false.
Proof.
  intros [H _]. destruct e as [X c x].
  destruct c; try reflexivity; discriminate.
Qed.

(** A loop that tells the rounds that go on from the one that leaves. *)
Lemma always_for_loop_exit {S R : Type} (body : Z -> S -> proc (R + S))
    (I : S -> Prop) (P P' : event -> Prop) (E : R -> Prop) count :
  (forall e, P e -> P' e) ->
  (forall i s, I s ->
     always (body i s) (fun o t =>
       match o with
       | Done (inr s') => Forall P t /\ I s'
       | Done (inl v) => Forall P' t /\ E v
       | Undefined _ => Forall P' t
       end)) ->
  forall i s, I s ->
    always (for_loop count i body s) (fun o t =>
      match o with
      | Done (inr s') => Forall P t /\ I s'
      | Done (inl v) => Forall P' t /\ E v
      | Undefined _ => Forall P' t
      end).
Proof.
  intros HP Hbody. induction count as [|n IH]; intros i s Hs.
  - simpl. auto.
  - rewrite for_loop_S. apply always_bind.
    eapply always_mono; [|apply Hbody, Hs].
    intros [[v|s']|u] t Ho; simpl.
    + rewrite app_nil_r. exact Ho.
    + destruct Ho as [Ht Hs']. eapply always_mono; [|apply IH, Hs'].
      intros [[v|s'']|u] t' Ho'.
      * destruct Ho' as [Ht' Hv]. split; [|exact Hv].
        apply Forall_app. split; [|exact Ht'].
        eapply Forall_impl; [exact Ht|exact HP].
      * destruct Ho' as [Ht' Hv]. split; [|exact Hv].
        apply Forall_app. auto.
      * apply Forall_app. split; [|exact Ho'].
        eapply Forall_impl; [exact Ht|exact HP].
    + exact Ho.
Qed.

Lemma load_maps_body_exit maps i g0 g :
  same_but_maps g0 g ->
  always (load_maps_body maps i g) (fun o t =>
    match o with
    | Done (inr g') => Forall scan_went_on t /\ same_but_maps g0 g'
    | Done (inl v) => Forall scan_event t /\ v.1 = 1 /\ same_but_maps g0 v.2
    | Undefined _ => Forall scan_event t
    end).
Proof.
  intros Hsame. unfold load_maps_body.
  repeat always_step;
    repeat match goal with
           | H : (_ <? 0) = false |- _ =>
               first [ split; [repeat constructor; exact H|exact Hsame] ]
           end;
    try (repeat constructor; fail);
    split; [repeat constructor|split; [reflexivity|exact Hsame]].
Qed.

Lemma load_maps_outcome sz maps len g :
  always (load_maps sz maps len g) (fun o t =>
    match o with
    | Done (ret, g') =>
        same_but_maps g g' /\
        ((ret = 0 /\ Forall scan_went_on t) \/ (ret = 1 /\ Forall scan_event t))
    | Undefined _ => Forall scan_event t
    end).
Proof.
  unfold load_maps. apply always_bind.
  eapply always_mono;
    [|apply (always_for_loop_exit (load_maps_body maps) (same_but_maps g)
               scan_went_on scan_event
               (fun v => v.1 = 1 /\ same_but_maps g v.2));
      [intros e [He _]; exact He
      |intros i s Hs; apply load_maps_body_exit, Hs
      |repeat split]].
  intros [[[r0 g0]|g0]|u] t Ho; simpl; rewrite ?app_nil_r.
  - destruct Ho as (Ht & Hr & Hs). simpl in Hr. subst r0. auto.
  - destruct Ho as [Ht Hs]. auto.
  - exact Ho.
Qed.

(** One round of the metadata scan: it submits nothing and closes nothing;
    it leaves the function with 1 only; when it goes on no map creation has
    failed, the object is as it was and [processed_sec] has the length it
    had. *)
Lemma scan_body_outcome sz i s :
  always (scan_body sz i s) (fun o t =>
    match o with
    | Done (inr s') =>
        Forall scan_went_on t /\ st_elf s' = st_elf s /\
        length (processed_sec (st_g s')) = length (processed_sec (st_g s))
    | Done (inl v) => Forall scan_event t /\ v.1 = 1
    | Undefined _ => Forall scan_event t
    end).
Proof.
  unfold scan_body, memcpy.
  destruct (get_sec (st_elf s) i) as [e|[[shname shdr] data]] eqn:Hsec;
    [simpl; auto|].
  destruct (String.eqb shname "license") eqn:Hlic.
  { repeat always_step; try constructor;
      cbn [st_g st_elf with_g processed_sec set_license set_processed_sec];
      rewrite ?length_insert; auto. }
  destruct (String.eqb shname "version") eqn:Hver.
  { repeat always_step; try (repeat constructor; fail);
      (split; [repeat constructor|]);
      cbn [st_g st_elf with_g processed_sec set_kern_version set_processed_sec];
      rewrite ?length_insert; auto. }
  destruct (String.eqb shname "maps") eqn:Hmaps.
  { repeat always_step; try constructor.
    eapply always_mono; [|apply load_maps_outcome].
    intros [[ret g']|u] t Ho; simpl; [|exact Ho].
    destruct Ho as [(_ & _ & Hps & _) [[-> Ht]|[-> Ht]]]; simpl;
      rewrite app_nil_r; (split; [exact Ht|]); [|reflexivity].
    split; [reflexivity|]. simpl. rewrite Hps. simpl. apply length_insert. }
  repeat always_step; auto.
Qed.

Lemma scan_event_system c x : scan_event (Ev (system c) x).
Proof. split; reflexivity. Qed.

(** What [load_elf] can come to: 1 out of the metadata scan, before anything
    was submitted or closed; or 0 after all three scans, with no map
    creation failed and the [close] of the file as its last call. *)
Lemma load_elf_outcome sz elf fd g :
  always (load_elf sz elf fd g) (fun o t =>
    match o with
    | Done (ret, _) =>
        (ret = 1 /\ Forall scan_event t)
        \/ (ret = 0 /\ Forall (fun e => failed_create e = false) t /\
            exists t' c, t = (t' ++ [Ev (close fd) c])%list)
    | Undefined _ =>
        Forall scan_event t \/ Forall (fun e => failed_create e = false) t
    end).
Proof.
  unfold load_elf.
  destruct (elf_ehdr elf) as [ehdr|]; [|left; split; [reflexivity|constructor]].
  apply always_bind. unfold perform. cbn [always]. intros x.
  apply always_bind. unfold scan_sections.
  eapply always_mono;
    [|apply (always_for_loop_exit (scan_body sz) (fun _ => True)
               scan_went_on scan_event (fun v => v.1 = 1));
      [intros e [He _]; exact He
      |intros i s _;
       eapply always_mono; [|apply scan_body_outcome];
       intros [[v|s']|u] t Ho; intuition
      |exact I]].
  intros [[[r1 g1]|s1]|u] t1 Ho.
  { destruct Ho as [Ht Hr]. simpl in Hr. subst r1. left. split; [reflexivity|].
    simpl. rewrite app_nil_r. constructor; [apply scan_event_system|exact Ht]. }
  2:{ left. constructor; [apply scan_event_system|exact Ho]. }
  destruct Ho as [Ht1 _].
  assert (Hno1 : Forall (fun e => failed_create e = false)
                        (Ev (system clear_kprobes) x :: t1)).
  { constructor; [reflexivity|].
    eapply Forall_impl; [exact Ht1|]. intros e [_ He]. exact He. }
  apply always_bind.
  eapply always_mono; [|apply (later_scan _ (relo_pass_body_later sz))].
  intros [[v|s2]|u] t2 [Ht2 Ho2]; [contradiction| |].
  2:{ right. change (Forall (fun e => failed_create e = false)
                       ((Ev (system clear_kprobes) x :: t1) ++ t2)).
      apply Forall_app. split; [exact Hno1|].
      eapply Forall_impl; [exact Ht2|]. intros e. apply later_event_no_failed_create. }
  assert (Hno2 : Forall (fun e => failed_create e = false)
                        ((Ev (system clear_kprobes) x :: t1) ++ t2)).
  { apply Forall_app. split; [exact Hno1|].
    eapply Forall_impl; [exact Ht2|]. intros e. apply later_event_no_failed_create. }
  apply always_bind.
  eapply always_mono; [|apply (later_scan _ residual_body_later)].
  intros [[v|s3]|u] t3 [Ht3 Ho3]; [contradiction| |].
  2:{ right. change (Forall (fun e => failed_create e = false)
                       ((Ev (system clear_kprobes) x :: t1) ++ t2 ++ t3)).
      rewrite app_assoc. apply Forall_app. split; [exact Hno2|].
      eapply Forall_impl; [exact Ht3|]. intros e. apply later_event_no_failed_create. }
  apply always_bind. cbn [always]. intros c. right. split; [reflexivity|].
  change (Forall (fun e => failed_create e = false)
            ((Ev (system clear_kprobes) x :: t1) ++ t2 ++ t3 ++ [Ev (close fd) c] ++ [])
          /\ exists t' c0,
               ((Ev (system clear_kprobes) x :: t1) ++ t2 ++ t3 ++ [Ev (close fd) c] ++ [])%list
               = (t' ++ [Ev (close fd) c0])%list).
  rewrite app_nil_r. split.
  - rewrite !app_assoc. apply Forall_app. split; [|repeat constructor].
    apply Forall_app. split; [exact Hno2|].
    eapply Forall_impl; [exact Ht3|]. intros e. apply later_event_no_failed_create.
  - exists ((Ev (system clear_kprobes) x :: t1) ++ t2 ++ t3)%list, c.
    rewrite <- !app_assoc. reflexivity.
Qed.

Lemma load_bpf_file_outcome sz path g :
  always (load_bpf_file sz path g) (fun o t =>
    match o with
    | Done (ret, _) =>
        (ret = 1 /\ Forall scan_event t)
        \/ (ret = 0 /\ Forall (fun e => failed_create e = false) t /\
            exists v fd t' c,
              t = Ev (elf_version EV_CURRENT) v :: Ev (open path O_RDONLY 0) fd
                  :: (t' ++ [Ev (close fd) c])%list)
    | Undefined _ =>
        Forall scan_event t \/ Forall (fun e => failed_create e = false) t
    end).
Proof.
  unfold load_bpf_file.
  apply always_bind. unfold perform. cbn [always]. intros v. cbn [app].
  destruct (v =? EV_NONE).
  { left. split; [reflexivity|]. repeat constructor. }
  apply always_bind. cbn [always]. intros fd. cbn [app].
  destruct (fd <? 0).
  { left. split; [reflexivity|]. repeat constructor. }
  apply always_bind. cbn [always]. intros [elf|]; cbn [app].
  2:{ left. split; [reflexivity|]. repeat constructor. }
  eapply always_mono; [|apply load_elf_outcome].
  intros [[ret g']|u] t Ho.
  - destruct Ho as [[-> Ht]|(-> & Ht & t' & c & ->)].
    + left. split; [reflexivity|]. repeat (constructor; [split; reflexivity|]).
      exact Ht.
    + right. split; [reflexivity|]. split.
      * repeat (constructor; [reflexivity|]). exact Ht.
      * exists v, fd, (Ev (elf_begin fd) (Some elf) :: t'), c. reflexivity.
  - destruct Ho as [Ht|Ht]; [left|right].
    + repeat (constructor; [split; reflexivity|]). exact Ht.
    + repeat (constructor; [reflexivity|]). exact Ht.
Qed.

Lemma scan_event_counts t :
  Forall scan_event t ->
  count_events is_close t = 0%nat /\ count_events is_prog_load t = 0%nat.
Proof.
  intros H. split; apply count_events_0;
    (eapply Forall_impl; [exact H|]); intros e He; apply He.
Qed.

(** X7: [load_bpf_file] returns 0 or 1.  When it returns 1 it has submitted no
    program and closed nothing: the descriptor of the object, if one was
    opened, stays open.  When it returns 0 its last call closes the
    descriptor that [open] gave it. *)
Theorem load_closes_the_file_only_on_success {W : Type} (h : handler W)
    (sz : Z) path g w ret g' :
  result_of (run h (load_bpf_file sz path g) w) = Done (ret, g') ->
  (ret = 1 /\
   count_events is_close (trace_of (run h (load_bpf_file sz path g) w)) = 0%nat /\
   count_events is_prog_load (trace_of (run h (load_bpf_file sz path g) w)) = 0%nat)
  \/
  (ret = 0 /\
   exists v fd t c,
     trace_of (run h (load_bpf_file sz path g) w)
     = Ev (elf_version EV_CURRENT) v :: Ev (open path O_RDONLY 0) fd
       :: (t ++ [Ev (close fd) c])%list).
Proof.
  intros Hres.
  pose proof (always_run h _ _ w (load_bpf_file_outcome sz path g)) as H.
  rewrite Hres in H.
  destruct H as [[-> Ht]|(-> & _ & Hclose)].
  - left. split; [reflexivity|]. apply scan_event_counts, Ht.
  - right. split; [reflexivity|]. exact Hclose.
Qed.

Lemma load_closes_the_file_only_on_success_witness :
  exists g',
    result_of (run (scripted (Some kprobe_only))
                   (load_bpf_file 20 "prog.o" initial_globals)
                   [1; 3; 0; -1; 22; 22; 0]) = Done (0, g') /\
    exists v fd t c,
      trace_of (run (scripted (Some kprobe_only))
                    (load_bpf_file 20 "prog.o" initial_globals)
                    [1; 3; 0; -1; 22; 22; 0])
      = Ev (elf_version EV_CURRENT) v :: Ev (open "prog.o" O_RDONLY 0) fd
        :: (t ++ [Ev (close fd) c])%list.
Proof.
  eexists.
  assert (Hres : result_of (run (scripted (Some kprobe_only))
                   (load_bpf_file 20 "prog.o" initial_globals)
                   [1; 3; 0; -1; 22; 22; 0]) = Done (0, _))
    by (vm_compute; reflexivity).
  split; [exact Hres|].
  destruct (load_closes_the_file_only_on_success (scripted (Some kprobe_only))
              20 "prog.o" initial_globals [1; 3; 0; -1; 22; 22; 0] 0 _ Hres)
    as [[H _]|[_ H]]; [discriminate|exact H].
Defined.

(** X8: a map creation that fails makes the load fail before any program is
    submitted: whenever the trace of [load_bpf_file] holds a failed
    [bpf_create_map], no [bpf_prog_load] was called and 0 is not
    returned. *)
Theorem failed_map_creation_fails_the_load {W : Type} (h : handler W)
    (sz : Z) path g w :
  Exists (fun e => failed_create e = true)
         (trace_of (run h (load_bpf_file sz path g) w)) ->
  count_events is_prog_load (trace_of (run h (load_bpf_file sz path g) w)) = 0%nat
  /\ ((exists g', result_of (run h (load_bpf_file sz path g) w) = Done (1, g'))
      \/ exists u, result_of (run h (load_bpf_file sz path g) w) = Undefined u).
Proof.
  intros Hfail.
  pose proof (always_run h _ _ w (load_bpf_file_outcome sz path g)) as H.
  assert (Hnot : ~ Forall (fun e => failed_create e = false)
                          (trace_of (run h (load_bpf_file sz path g) w))).
  { intros Hall. apply Exists_exists in Hfail as (e & He & Hf).
    rewrite Forall_forall in Hall. rewrite (Hall e He) in Hf. discriminate. }
  destruct (result_of (run h (load_bpf_file sz path g) w)) as [[ret g']|u].
  - destruct H as [[-> Ht]|(_ & Ht & _)]; [|contradiction].
    split; [apply scan_event_counts, Ht|]. left. exists g'. reflexivity.
  - destruct H as [Ht|Ht]; [|contradiction].
    split; [apply scan_event_counts, Ht|]. right. exists u. reflexivity.
Qed.

Lemma failed_map_creation_fails_the_load_witness :
  let r := run (scripted (Some maps_and_probe))
               (load_bpf_file 20 "prog.o" initial_globals) [1; 3; 0; 5; -1; 12] in
  Exists (fun e => failed_create e = true) (trace_of r) /\
  count_events is_prog_load (trace_of r) = 0%nat /\
  ((exists g', result_of r = Done (1, g'))
   \/ exists u, result_of r = Undefined u).
Proof.
  cbv zeta.
  assert (H : Exists (fun e => failed_create e = true)
                (trace_of (run (scripted (Some maps_and_probe))
                               (load_bpf_file 20 "prog.o" initial_globals)
                               [1; 3; 0; 5; -1; 12]))).
  { vm_compute. do 5 apply Exists_cons_tl. apply Exists_cons_hd. reflexivity. }
  split; [exact H|].
  exact (failed_map_creation_fails_the_load (scripted (Some maps_and_probe)) 20
           "prog.o" initial_globals [1; 3; 0; 5; -1; 12] H).
Defined.

Lemma later_event_submission lic ver e : later_event lic ver e -> submission_of lic ver e.
Proof. intros [_ H]. exact H. Qed.

Lemma scan_event_submission lic ver e : scan_event e -> submission_of lic ver e.
Proof.
  intros [H _]. destruct e as [X c x]. destruct c; try exact I; discriminate.
Qed.

Lemma metadata_scan_submits_nothing {W : Type} (h : handler W) sz ehdr s w :
  Forall scan_event (trace_of (run h (scan_sections ehdr (scan_body sz) s) w)).
Proof.
  assert (H : always (scan_sections ehdr (scan_body sz) s) (fun o t =>
    match o with
    | Done (inr _) => Forall scan_went_on t /\ True
    | Done (inl v) => Forall scan_event t /\ v.1 = 1
    | Undefined _ => Forall scan_event t
    end)).
  { apply always_for_loop_exit; [intros e [He _]; exact He| |exact I].
    intros i s0 _. eapply always_mono; [|apply scan_body_outcome].
    intros [[v|s']|u] t Ho; intuition. }
  apply (always_run h _ _ w) in H.
  destruct (result_of _) as [[v|s']|u]; try tauto.
  destruct H as [H _]. eapply Forall_impl; [exact H|]. intros e [He _]. exact He.
Qed.

(** After the metadata scan every submission is one of a kprobe program,
    under the license and the kernel version the metadata scan left in the
    globals. *)
Lemma load_elf_submissions {W : Type} (h : handler W) (sz : Z) elf fd g w
    ehdr s1 t1 w1 :
  elf_ehdr elf = Some ehdr ->
  run h (scan_sections ehdr (scan_body sz) (mk_state g elf None))
      (h Z (system clear_kprobes) w).2 = (Done (inr s1), t1, w1) ->
  Forall (submission_of (license (st_g s1)) (kern_version (st_g s1)))
         (trace_of (run h (load_elf sz elf fd g) w)).
Proof.
  intros Hehdr Hscan.
  set (lic := license (st_g s1)). set (ver := kern_version (st_g s1)).
  assert (Ht1 : Forall (submission_of lic ver) t1).
  { pose proof (metadata_scan_submits_nothing h sz ehdr (mk_state g elf None)
                  (h Z (system clear_kprobes) w).2) as H.
    rewrite Hscan in H. eapply Forall_impl; [exact H|].
    intros e. apply scan_event_submission. }
  unfold load_elf. rewrite Hehdr.
  rewrite run_bind, run_perform. cbv beta iota zeta.
  rewrite run_bind, Hscan. cbv beta iota zeta.
  rewrite run_bind.
  pose proof (always_run h _ _ w1
                (later_scan _ (relo_pass_body_later sz)
                   (Z.to_nat (e_shnum ehdr - 1)) 1 s1)) as H2.
  fold lic ver in H2. unfold scan_sections.
  destruct (run h (for_loop _ 1 (relo_pass_body sz) s1) w1)
    as [[[[v|s2]|u] t2] w2]; destruct H2 as [Ht2 Ho2]; [contradiction| |].
  2:{ unfold trace_of. cbn [fst snd app]. constructor; [exact I|].
      apply Forall_app. split; [exact Ht1|].
      eapply Forall_impl; [exact Ht2|]. intros e. apply later_event_submission. }
  cbv beta iota zeta. rewrite run_bind.
  pose proof (always_run h _ _ w2
                (later_scan _ residual_body_later
                   (Z.to_nat (e_shnum ehdr - 1)) 1 s2)) as H3.
  destruct Ho2 as (Hl & Hv & _). rewrite Hl, Hv in H3. fold lic ver in H3.
  destruct (run h (for_loop _ 1 residual_body s2) w2)
    as [[[[v|s3]|u] t3] w3]; destruct H3 as [Ht3 Ho3]; [contradiction| |].
  2:{ unfold trace_of. cbn [fst snd app]. constructor; [exact I|].
      apply Forall_app. split; [exact Ht1|].
      apply Forall_app. split;
        (eapply Forall_impl; [eassumption|]); intros e; apply later_event_submission. }
  cbv beta iota zeta. rewrite run_bind, run_perform.
  unfold trace_of. cbn [fst snd app run]. constructor; [exact I|].
  apply Forall_app. split; [exact Ht1|].
  apply Forall_app. split;
    [eapply Forall_impl; [exact Ht2|]; intros e; apply later_event_submission|].
  apply Forall_app. split;
    [eapply Forall_impl; [exact Ht3|]; intros e; apply later_event_submission|].
  repeat constructor.
Qed.

(** X9: every program [load_bpf_file] submits is submitted as a kprobe program,
    with the license and the kernel version that the metadata scan has left
    in the globals: no later section changes them. *)
Theorem submissions_carry_license_and_version {W : Type} (h : handler W)
    (sz : Z) path g w elf fd w0 ehdr s1 t1 w1 :
  opens h path w elf fd w0 ->
  elf_ehdr elf = Some ehdr ->
  run h (scan_sections ehdr (scan_body sz) (mk_state g elf None))
      (h Z (system clear_kprobes) w0).2 = (Done (inr s1), t1, w1) ->
  Forall (submission_of (license (st_g s1)) (kern_version (st_g s1)))
         (trace_of (run h (load_bpf_file sz path g) w)).
Proof.
  intros Hopen Hehdr Hscan.
  destruct (load_bpf_file_opens h sz path g w elf fd w0 Hopen) as [_ [v ->]].
  repeat (constructor; [exact I|]).
  exact (load_elf_submissions h sz elf fd g w0 ehdr s1 t1 w1 Hehdr Hscan).
Qed.

Lemma submissions_carry_license_and_version_witness :
  exists s1 t1 w1,
    opens (scripted (Some licensed_probe)) "prog.o" [1; 3; 0; 7; 0; 4; 2; 0; 11]
          licensed_probe 3 [0; 7; 0; 4; 2; 0; 11] /\
    run (scripted (Some licensed_probe))
        (scan_sections (mk_ehdr 4) (scan_body 20)
                       (mk_state initial_globals licensed_probe None))
        ((scripted (Some licensed_probe)) Z (system clear_kprobes)
           [0; 7; 0; 4; 2; 0; 11]).2
    = (Done (inr s1), t1, w1) /\
    take 4 (license (st_g s1)) = [x47; x50; x4c; x00] /\
    kern_version (st_g s1) = 197121 /\
    count_events is_prog_load
      (trace_of (run (scripted (Some licensed_probe))
                     (load_bpf_file 20 "prog.o" initial_globals)
                     [1; 3; 0; 7; 0; 4; 2; 0; 11])) = 1%nat /\
    Forall (submission_of (license (st_g s1)) (kern_version (st_g s1)))
           (trace_of (run (scripted (Some licensed_probe))
                          (load_bpf_file 20 "prog.o" initial_globals)
                          [1; 3; 0; 7; 0; 4; 2; 0; 11])).
Proof.
  eexists _, _, _.
  assert (Hopen : opens (scripted (Some licensed_probe)) "prog.o"
                    [1; 3; 0; 7; 0; 4; 2; 0; 11] licensed_probe 3
                    [0; 7; 0; 4; 2; 0; 11]).
  { exists 1, [3; 0; 7; 0; 4; 2; 0; 11], [0; 7; 0; 4; 2; 0; 11].
    repeat split; try reflexivity; try discriminate. }
  assert (Hscan : run (scripted (Some licensed_probe))
        (scan_sections (mk_ehdr 4) (scan_body 20)
                       (mk_state initial_globals licensed_probe None))
        ((scripted (Some licensed_probe)) Z (system clear_kprobes)
           [0; 7; 0; 4; 2; 0; 11]).2
      = (Done (inr _), _, _)) by (vm_compute; reflexivity).
  split; [exact Hopen|]. split; [exact Hscan|].
  split; [reflexivity|]. split; [reflexivity|].
  split; [vm_compute; reflexivity|].
  exact (submissions_carry_license_and_version (scripted (Some licensed_probe))
           20 "prog.o" initial_globals _ licensed_probe 3 _ (mk_ehdr 4) _ _ _
           Hopen eq_refl Hscan).
Defined.

(* ===================================================================== *)
(** ** More sections than [processed_sec] has marks *)
(* ===================================================================== *)

Lemma residual_body_past_the_marks s :
  length (processed_sec (st_g s)) = 128%nat ->
  residual_body 128 s = Undef (out_of_bounds "processed_sec" 128).
Proof.
  intros Hlen. unfold residual_body, array_get, zlookup.
  change (0 <=? 128) with true. cbv iota.
  rewrite (lookup_ge_None_2 (processed_sec (st_g s))) by (rewrite Hlen; cbv; lia).
  reflexivity.
Qed.

Lemma load_elf_many_sections sz elf fd g ehdr :
  elf_ehdr elf = Some ehdr ->
  128 < e_shnum ehdr ->
  length (processed_sec g) = 128%nat ->
  always (load_elf sz elf fd g) (fun o _ =>
    match o with
    | Done (ret, _) => ret = 1
    | Undefined _ => True
    end).
Proof.
  intros Hehdr Hnum Hlen. unfold load_elf. rewrite Hehdr.
  apply always_bind. unfold perform. cbn [always]. intros x.
  apply always_bind. unfold scan_sections.
  eapply always_mono;
    [|apply (always_for_loop (scan_body sz)
               (fun s => length (processed_sec (st_g s)) = 128%nat)
               (fun v => v.1 = 1) (fun _ => True));
      [|exact Hlen]].
  2:{ intros i s Hs. eapply always_mono; [|apply scan_body_outcome].
      intros [[v|s']|u] t Ho; (split; [apply Forall_true; auto|]); [| |exact I].
      - apply Ho.
      - destruct Ho as (_ & _ & Hl). congruence. }
  intros [[[r1 g1]|s1]|u] t1 [_ Ho]; [exact Ho| |exact I].
  apply always_bind.
  eapply always_mono; [|apply (later_scan _ (relo_pass_body_later sz))].
  intros [[v|s2]|u] t2 [_ Ho2]; [contradiction| |exact I].
  destruct Ho2 as (_ & _ & Hlen2). rewrite Ho in Hlen2.
  apply always_bind.
  replace (Z.to_nat (e_shnum ehdr - 1))
    with (127 + Datatypes.S (Z.to_nat (e_shnum ehdr - 1) - 128))%nat by lia.
  apply always_for_loop_split.
  eapply always_mono; [|apply (later_scan _ residual_body_later)].
  intros [[v|s3]|u] t3 [_ Ho3]; [contradiction| |exact I].
  destruct Ho3 as (_ & _ & Hlen3). rewrite Hlen2 in Hlen3.
  rewrite for_loop_S. change (1 + Z.of_nat 127) with 128.
  rewrite (residual_body_past_the_marks s3 Hlen3). exact I.
Qed.

(** X10: [processed_sec] has 128 marks and the residual scan reads the mark of
    every section: an object with more than 128 sections is never loaded.
    [load_bpf_file] returns 1 for it, or its behaviour is undefined. *)
Theorem more_than_128_sections_are_never_loaded {W : Type} (h : handler W)
    (sz : Z) path g w elf fd w0 ehdr :
  opens h path w elf fd w0 ->
  elf_ehdr elf = Some ehdr ->
  128 < e_shnum ehdr ->
  length (processed_sec g) = 128%nat ->
  (exists g', result_of (run h (load_bpf_file sz path g) w) = Done (1, g'))
  \/ (exists u, result_of (run h (load_bpf_file sz path g) w) = Undefined u).
Proof.
  intros Hopen Hehdr Hnum Hlen.
  destruct (load_bpf_file_opens h sz path g w elf fd w0 Hopen) as [-> _].
  pose proof (always_run h _ _ w0
                (load_elf_many_sections sz elf fd g ehdr Hehdr Hnum Hlen)) as H.
  destruct (result_of (run h (load_elf sz elf fd g) w0)) as [[ret g']|u].
  - left. exists g'. subst ret. reflexivity.
  - right. exists u. reflexivity.
Qed.

Lemma more_than_128_sections_are_never_loaded_witness :
  opens (scripted (Some many_sections)) "prog.o" [1; 3] many_sections 3 [] /\
  128 < e_shnum (mk_ehdr 130) /\
  length (processed_sec initial_globals) = 128%nat /\
  result_of (run (scripted (Some many_sections))
                 (load_bpf_file 20 "prog.o" initial_globals) [1; 3])
  = Undefined (out_of_bounds "processed_sec" 128) /\
  ((exists g',
      result_of (run (scripted (Some many_sections))
                     (load_bpf_file 20 "prog.o" initial_globals) [1; 3])
      = Done (1, g'))
   \/ (exists u,
         result_of (run (scripted (Some many_sections))
                        (load_bpf_file 20 "prog.o" initial_globals) [1; 3])
         = Undefined u)).
Proof.
  assert (Hopen : opens (scripted (Some many_sections)) "prog.o" [1; 3]
                        many_sections 3 []).
  { exists 1, [3], []. repeat split; try reflexivity; try discriminate. }
  assert (Hnum : 128 < e_shnum (mk_ehdr 130)) by (simpl; lia).
  split; [exact Hopen|]. split; [exact Hnum|]. split; [reflexivity|].
  split; [vm_compute; reflexivity|].
  exact (more_than_128_sections_are_never_loaded (scripted (Some many_sections))
           20 "prog.o" initial_globals [1; 3] many_sections 3 [] (mk_ehdr 130)
           Hopen eq_refl Hnum eq_refl).
Defined.

Ltac attach_facts :=
  repeat match goal with
         | H : (_ <? 0) = true |- _ => apply Z.ltb_lt in H
         | H : (_ <? 0) = false |- _ => apply Z.ltb_ge in H
         | H : (_ || _) = false |- _ => apply orb_false_iff in H as [? ?]
         | H : (256 <=? _) = false |- _ => apply Z.leb_gt in H
         end.

Lemma attach_outcome (ret : bool) event tp fd g :
  always (attach event (negb ret) ret tp false false fd g) (fun o t =>
    loaded_fds t = [] /\
    match o with
    | Done (r, g') =>
        (fd < 0 /\ r = -1 /\ g' = g)
        \/ (0 <= fd /\
            ((r = -1 /\ g' = record_prog g fd)
             \/ (r = 0 /\
                 attached ret (advance (probe_prefix_length ret) event) fd
                          (record_prog g fd) g' t)))
    | Undefined _ => True
    end).
Proof.
  unfold attach. cbv zeta.
  destruct ret; cbn [negb orb probe_prefix_length];
  repeat always_go;
  (split; [reflexivity|]); try exact I; attach_facts;
  first
    [ left; repeat split; assumption
    | right; split; [assumption|]; left; split; reflexivity
    | right; split; [assumption|]; right; split; [reflexivity|];
      eexists _, _, _, _, _, _, _, _; split; [reflexivity|];
      repeat split; try eassumption; discriminate ].
Qed.

Lemma loaded_fds_cons e t :
  loaded_fds (e :: t)
  = match loaded_fd e with
    | Some fd => fd :: loaded_fds t
    | None => loaded_fds t
    end.
Proof. unfold loaded_fds. simpl. destruct (loaded_fd e); reflexivity. Qed.

(** What [load_and_attach] comes to for a probe: -1 with the globals as
    they were when no submission went through; else the last submission
    went through, its handle is recorded, and either some later step failed
    or the program is attached. *)
Lemma load_and_attach_outcome (ret : bool) (name : string) prog size g :
  always (load_and_attach (probe_prefix ret +++ name) prog size g) (fun o t =>
    match o with
    | Done (r, g') =>
        (r = -1 /\ g' = g /\ Forall (fun fd => fd < 0) (loaded_fds t))
        \/ (exists pre fd t',
              t = (pre ++ t')%list /\
              last pre = Some (Ev (bpf_prog_load BPF_PROG_TYPE_KPROBE prog size
                                                 (license g) (kern_version g)) fd) /\
              0 <= fd /\ loaded_fds t' = [] /\
              ((r = -1 /\ g' = record_prog g fd)
               \/ (r = 0 /\ attached ret name fd (record_prog g fd) g' t')))
    | Undefined _ => True
    end).
Proof.
  unfold load_and_attach. cbv zeta.
  destruct (probe_flags ret name) as (-> & -> & -> & -> & -> & Hadv).
  replace (negb ret || ret) with true by (destruct ret; reflexivity).
  repeat first
    [ lazymatch goal with
      | |- always (attach _ _ _ _ _ _ _ _) _ =>
          eapply always_mono; [|apply (attach_outcome ret)];
          intros [[? ?]|?] ? [? ?]
      end
    | always_go ];
  try exact I; cbn [app]; attach_facts; rewrite ?Hadv in *;
  try match goal with
      | H : _ \/ _ |- _ => destruct H as [(? & -> & ->)|(? & ?)]
      end;
  first
    [ left; split; [reflexivity|]; split; [reflexivity|];
      rewrite !loaded_fds_cons; cbn [loaded_fd];
      repeat match goal with
             | H : loaded_fds _ = [] |- _ => rewrite H
             end;
      repeat constructor; assumption
    | exfalso; lia
    | right;
      lazymatch goal with
      | |- exists _ _ _,
             (?e1 :: ?e2 :: ?e3 :: ?e4 :: ?e5 :: ?e6 :: Ev ?c ?fd :: ?t) = _ /\ _ =>
          exists [e1; e2; e3; e4; e5; e6; Ev c fd], fd, t
      | |- exists _ _ _, (Ev ?c ?fd :: ?t) = _ /\ _ =>
          exists [Ev c fd], fd, t
      end;
      repeat split; first [assumption|reflexivity] ].
Qed.

Lemma loaded_fds_app t t' :
  loaded_fds (t ++ t') = (loaded_fds t ++ loaded_fds t')%list.
Proof. apply omap_app. Qed.

Lemma last_loaded_fd pre e fd :
  last pre = Some e -> loaded_fd e = Some fd -> last (loaded_fds pre) = Some fd.
Proof.
  intros Hlast He. apply last_Some in Hlast as [l ->].
  rewrite loaded_fds_app. unfold loaded_fds at 2. simpl. rewrite He.
  apply last_snoc.
Qed.

(** X11: what [load_and_attach] leaves in the globals for a probe.  It changes
    nothing but [prog_fd], [prog_cnt] and [event_fd].  When no submission
    went through it returns -1 and the globals are as they were.  When the
    last submission went through with the handle [fd], that handle is stored
    in [prog_fd] at the old [prog_cnt] and [prog_cnt] is one more, also when
    attaching fails afterwards and -1 is returned; the slot of [event_fd] at
    the old [prog_cnt] is written when and only when 0 is returned. *)
Theorem load_and_attach_records_the_program {W : Type} (h : handler W)
    (ret : bool) (name : string) prog size g w r g' :
  result_of (run h (load_and_attach (probe_prefix ret +++ name) prog size g) w)
  = Done (r, g') ->
  let t := trace_of (run h (load_and_attach (probe_prefix ret +++ name)
                                            prog size g) w) in
  same_but_progs g g' /\
  ((r = -1 /\ g' = g /\ Forall (fun fd => fd < 0) (loaded_fds t))
   \/
   (exists fd,
      last (loaded_fds t) = Some fd /\ 0 <= fd /\
      prog_cnt g' = prog_cnt g + 1 /\
      prog_fd g' = <[Z.to_nat (prog_cnt g) := fd]> (prog_fd g) /\
      ((r = -1 /\ event_fd g' = event_fd g)
       \/ (r = 0 /\
           exists efd,
             0 <= efd /\
             event_fd g' = <[Z.to_nat (prog_cnt g) := efd]> (event_fd g))))).
Proof.
  intros Hres t.
  pose proof (always_run h _ _ w (load_and_attach_outcome ret name prog size g))
    as H.
  rewrite Hres in H. fold t in H.
  destruct H as [(-> & -> & Hfds)|(pre & fd & t' & Ht & Hlast & Hfd & Hno & Hcase)].
  { split; [repeat split|]. left. auto. }
  assert (Hlastfd : last (loaded_fds t) = Some fd).
  { rewrite Ht, loaded_fds_app, Hno, app_nil_r.
    eapply last_loaded_fd; [exact Hlast|reflexivity]. }
  destruct Hcase as [[-> ->]|[-> Hatt]].
  - split; [repeat split|]. right. exists fd. repeat split; auto.
  - destruct Hatt as (err & efd0 & n & text & c & efd & x & y & _ & _ & _ & _
                      & _ & _ & _ & Hefd & ->).
    split; [repeat split|]. right. exists fd. repeat split; auto.
    right. split; [reflexivity|]. exists efd. split; [exact Hefd|].
    cbn [event_fd set_event_fd record_prog prog_cnt set_prog_cnt set_prog_fd].
    rewrite Z.add_simpl_r. reflexivity.
Qed.

Lemma load_and_attach_records_the_program_witness :
  exists g',
    result_of (run (scripted None)
                   (load_and_attach (probe_prefix false +++ "do_sys_open")
                                    ld_map_example 32 initial_globals)
                   [7; 0; -1]) = Done (-1, g') /\
    prog_cnt g' = 1 /\ prog_fd g' !! 0%nat = Some 7 /\
    event_fd g' = event_fd initial_globals /\
    same_but_progs initial_globals g'.
Proof.
  eexists.
  assert (Hres : result_of (run (scripted None)
                   (load_and_attach (probe_prefix false +++ "do_sys_open")
                                    ld_map_example 32 initial_globals)
                   [7; 0; -1]) = Done (-1, _)) by (vm_compute; reflexivity).
  split; [exact Hres|]. split; [reflexivity|]. split; [reflexivity|].
  split; [reflexivity|].
  exact (proj1 (load_and_attach_records_the_program (scripted None) false
                  "do_sys_open" ld_map_example 32 initial_globals [7; 0; -1]
                  (-1) _ Hres)).
Defined.

(** X12: when [load_and_attach] returns 0 for a probe, its trace ends with the
    seven calls that attach the program: the submission that went through is
    the last call before them, the probe is registered under its name, its
    id is read from the id file under [events/kprobes], the file is closed,
    a perf event is opened (a tracepoint event with raw samples, whose
    [config] is the id read when that is not negative), enabled and given
    the program.  The handle of the perf event is stored in [event_fd]
    beside the handle of the program in [prog_fd]. *)
Theorem load_and_attach_attaches {W : Type} (h : handler W)
    (ret : bool) (name : string) prog size g w g' :
  result_of (run h (load_and_attach (probe_prefix ret +++ name) prog size g) w)
  = Done (0, g') ->
  exists pre fd err efd0 n text c attr efd x y,
    trace_of (run h (load_and_attach (probe_prefix ret +++ name) prog size g) w)
    = (pre ++ attach_calls ret name fd err efd0 n text c attr efd x y)%list /\
    last pre = Some (Ev (bpf_prog_load BPF_PROG_TYPE_KPROBE prog size
                                       (license g) (kern_version g)) fd) /\
    name <> "" /\
    0 <= fd /\ 0 <= err /\ 0 <= efd0 /\ 0 <= n /\ to_ulong n < 256 /\ 0 <= efd /\
    attr_type attr = PERF_TYPE_TRACEPOINT /\
    attr_sample_type attr = PERF_SAMPLE_RAW /\
    attr_sample_period attr = 1 /\ attr_wakeup_events attr = 1 /\
    (0 <= id_read n text -> attr_config attr = id_read n text) /\
    prog_fd g' = <[Z.to_nat (prog_cnt g) := fd]> (prog_fd g) /\
    event_fd g' = <[Z.to_nat (prog_cnt g) := efd]> (event_fd g) /\
    prog_cnt g' = prog_cnt g + 1.
Proof.
  intros Hres.
  pose proof (always_run h _ _ w (load_and_attach_outcome ret name prog size g))
    as H.
  rewrite Hres in H.
  destruct H as [(Hr & _)|(pre & fd & t' & Ht & Hlast & Hfd & _ & Hcase)];
    [discriminate|].
  destruct Hcase as [[Hr _]|[_ Hatt]]; [discriminate|].
  destruct Hatt as (err & efd0 & n & text & c & efd & x & y & -> & Hname & _
                    & Herr & Hefd0 & Hn & Hn' & Hefd & ->).
  exists pre, fd, err, efd0, n, text, c,
         (mk_attr PERF_TYPE_TRACEPOINT PERF_SAMPLE_RAW 1 1 (id_read n text)),
         efd, x, y.
  repeat split; try assumption.
  cbn [event_fd set_event_fd record_prog prog_cnt set_prog_cnt set_prog_fd].
  rewrite Z.add_simpl_r. reflexivity.
Qed.

Lemma load_and_attach_attaches_witness :
  exists g',
    result_of (run (scripted None)
                   (load_and_attach (probe_prefix true +++ "do_sys_open")
                                    ld_map_example 32 initial_globals)
                   [7; 0; 4; 2; 0; 11]) = Done (0, g') /\
    exists pre fd err efd0 n text c attr efd x y,
      trace_of (run (scripted None)
                    (load_and_attach (probe_prefix true +++ "do_sys_open")
                                     ld_map_example 32 initial_globals)
                    [7; 0; 4; 2; 0; 11])
      = (pre ++ attach_calls true "do_sys_open" fd err efd0 n text c attr efd
                             x y)%list /\
      last pre = Some (Ev (bpf_prog_load BPF_PROG_TYPE_KPROBE ld_map_example 32
                                         (license initial_globals)
                                         (kern_version initial_globals)) fd) /\
      "do_sys_open" <> "" /\
      0 <= fd /\ 0 <= err /\ 0 <= efd0 /\ 0 <= n /\ to_ulong n < 256 /\ 0 <= efd /\
      attr_type attr = PERF_TYPE_TRACEPOINT /\
      attr_sample_type attr = PERF_SAMPLE_RAW /\
      attr_sample_period attr = 1 /\ attr_wakeup_events attr = 1 /\
      (0 <= id_read n text -> attr_config attr = id_read n text) /\
      prog_fd g' = <[Z.to_nat (prog_cnt initial_globals) := fd]>
                     (prog_fd initial_globals) /\
      event_fd g' = <[Z.to_nat (prog_cnt initial_globals) := efd]>
                      (event_fd initial_globals) /\
      prog_cnt g' = prog_cnt initial_globals + 1.
Proof.
  eexists.
  assert (Hres : result_of (run (scripted None)
                   (load_and_attach (probe_prefix true +++ "do_sys_open")
                                    ld_map_example 32 initial_globals)
                   [7; 0; 4; 2; 0; 11]) = Done (0, _))
    by (vm_compute; reflexivity).
  split; [exact Hres|].
  exact (load_and_attach_attaches (scripted None) true "do_sys_open"
           ld_map_example 32 initial_globals [7; 0; 4; 2; 0; 11] _ Hres).
Defined.

Lemma length_append (a b : string) :
  String.length (a +++ b) = (String.length a + String.length b)%nat.
Proof. induction a as [|c a IH]; simpl; [reflexivity|]. rewrite IH. reflexivity. Qed.

Lemma id_file_length ret name :
  Z.of_nat (String.length (id_file ret name)) = 45 + Z.of_nat (String.length name).
Proof.
  unfold id_file. rewrite !length_append. destruct ret; simpl String.length; lia.
Qed.

(** X13: the path of a probe's id file is put together in [buf[256]] without a
    check: a probe whose name has more than 210 characters is never
    attached.  [load_and_attach] returns -1 for it, or its behaviour is
    undefined, as when the path is written past the end of [buf]. *)
Theorem long_probe_name_is_never_attached {W : Type} (h : handler W)
    (ret : bool) (name : string) prog size g w :
  210 < Z.of_nat (String.length name) ->
  (exists g',
     result_of (run h (load_and_attach (probe_prefix ret +++ name) prog size g) w)
     = Done (-1, g'))
  \/ (exists u,
        result_of (run h (load_and_attach (probe_prefix ret +++ name) prog size g) w)
        = Undefined u).
Proof.
  intros Hlong.
  pose proof (always_run h _ _ w (load_and_attach_outcome ret name prog size g))
    as H.
  destruct (result_of _) as [[r g']|u]; [|right; exists u; reflexivity].
  left. exists g'.
  destruct H as [(-> & _)|(pre & fd & t' & _ & _ & _ & _ & Hcase)];
    [reflexivity|].
  destruct Hcase as [[-> _]|[_ Hatt]]; [reflexivity|].
  destruct Hatt as (err & efd0 & n & text & c & efd & x & y & _ & _ & Hlen & _).
  rewrite id_file_length in Hlen. lia.
Qed.

Lemma long_probe_name_is_never_attached_witness :
  210 < Z.of_nat (String.length long_name) /\
  result_of (run (scripted None)
                 (load_and_attach (probe_prefix false +++ long_name)
                                  ld_map_example 32 initial_globals) [7; 0])
  = Undefined (out_of_bounds "buf" 256) /\
  ((exists g',
      result_of (run (scripted None)
                     (load_and_attach (probe_prefix false +++ long_name)
                                      ld_map_example 32 initial_globals) [7; 0])
      = Done (-1, g'))
   \/ (exists u,
         result_of (run (scripted None)
                        (load_and_attach (probe_prefix false +++ long_name)
                                         ld_map_example 32 initial_globals) [7; 0])
         = Undefined u)).
Proof.
  assert (H : 210 < Z.of_nat (String.length long_name)) by (vm_compute; reflexivity).
  split; [exact H|]. split; [vm_compute; reflexivity|].
  exact (long_probe_name_is_never_attached (scripted None) false long_name
           ld_map_example 32 initial_globals [7; 0] H).
Defined.

(* ===================================================================== *)
(** ** From relocation to submission *)
(* ===================================================================== *)

Lemma parse_relo_passes {W : Type} (h : handler W) (sz : Z) data symbols shdr
    insn g w :
  sh_entsize shdr <> 0 ->
  (nrels shdr <= length (as_rels data))%nat ->
  Forall (fun r => entry_ok sz symbols (map_fd g) insn r = true)
         (take (nrels shdr) (as_rels data)) ->
  exists insn',
    run h (parse_relo_and_apply sz data symbols shdr insn g) w
    = (Done (0, insn'), [], w).
Proof.
  intros Hent Hlen Hok. unfold parse_relo_and_apply.
  apply Z.eqb_neq in Hent. rewrite Hent. rewrite run_bind.
  fold (nrels shdr). change 0 with (Z.of_nat 0) at 1.
  destruct (relo_loop_passes h sz data symbols g (nrels shdr) 0 insn w)
    as [insn' Hrun].
  - intros j Hj.
    destruct (lookup_lt_is_Some_2 (as_rels data) j ltac:(lia)) as [r Hr].
    exists r. split; [exact Hr|].
    rewrite Forall_lookup in Hok. apply (Hok j).
    rewrite lookup_take_lt by lia. exact Hr.
  - exists insn'. rewrite Hrun. reflexivity.
Qed.

Lemma load_and_attach_first_call {W : Type} (h : handler W) (ret : bool)
    (name : string) prog size g w :
  exists fd more,
    trace_of (run h (load_and_attach (probe_prefix ret +++ name) prog size g) w)
    = Ev (bpf_prog_load BPF_PROG_TYPE_KPROBE prog size (license g)
                        (kern_version g)) fd :: more.
Proof.
  unfold load_and_attach. cbv zeta.
  destruct (probe_flags ret name) as (-> & -> & _).
  replace (negb ret || ret) with true by (destruct ret; reflexivity).
  rewrite run_bind, run_perform. cbv beta iota zeta.
  destruct (run h _ _) as [[o t] w']. eexists _, _. reflexivity.
Qed.

Lemma probe_is_prog_name (ret : bool) (name : string) :
  is_prog_name (probe_prefix ret +++ name) = true.
Proof. destruct ret; reflexivity. Qed.

(** X14: a relocation section whose entries are all fine, for a probe program:
    the round of the relocation scan patches the program and submits the
    patched instructions, with the size of the program section, as its next
    call; the patched instructions stay in the object. *)
Theorem relocated_program_is_submitted {W : Type} (h : handler W) (sz : Z)
    i s w shname shdr data (ret : bool) (name : string) shdr_prog data_prog :
  length (processed_sec (st_g s)) = 128%nat ->
  0 <= i < 128 -> 0 <= sh_info shdr < 128 ->
  get_sec (st_elf s) i = inr (shname, shdr, data) ->
  sh_type shdr = SHT_REL ->
  get_sec (st_elf s) (to_int (sh_info shdr))
  = inr (probe_prefix ret +++ name, shdr_prog, data_prog) ->
  sh_entsize shdr <> 0 ->
  (nrels shdr <= length (as_rels data))%nat ->
  Forall (fun r => entry_ok sz (st_symbols s) (map_fd (st_g s))
                            (as_insns data_prog) r = true)
         (take (nrels shdr) (as_rels data)) ->
  let g1 := set_processed_sec (st_g s)
              (<[Z.to_nat i := true]>
                 (<[Z.to_nat (sh_info shdr) := true]> (processed_sec (st_g s)))) in
  exists insn' fd more,
    run h (parse_relo_and_apply sz data (st_symbols s) shdr (as_insns data_prog)
                                g1) w
    = (Done (0, insn'), [], w) /\
    trace_of (run h (relo_pass_body sz i s) w)
    = Ev (bpf_prog_load BPF_PROG_TYPE_KPROBE insn' (to_int (d_size data_prog))
                        (license (st_g s)) (kern_version (st_g s))) fd :: more /\
    match result_of (run h (relo_pass_body sz i s) w) with
    | Done (inr s') =>
        st_elf s' = store_insns (st_elf s) (to_ulong (to_int (sh_info shdr))) insn'
    | Done (inl _) => False
    | Undefined _ => True
    end.
Proof.
  intros Hlen Hi Hinfo Hsec Hrel_t Hprog Hent Hn Hok g1.
  destruct (zlookup_lt (processed_sec (st_g s)) (sh_info shdr)) as [b1 Hb1];
    [lia|].
  destruct (zlookup_lt (<[Z.to_nat (sh_info shdr) := true]> (processed_sec (st_g s))) i)
    as [b2 Hb2]; [rewrite length_insert; lia|].
  destruct (parse_relo_passes h sz data (st_symbols s) shdr (as_insns data_prog)
              g1 w Hent Hn Hok) as [insn' Hparse].
  destruct (load_and_attach_first_call h ret name insn'
              (to_int (d_size data_prog)) g1 w) as (fd & more & Hfirst).
  exists insn', fd, more. split; [exact Hparse|].
  unfold relo_pass_body. rewrite Hsec. cbv beta iota zeta.
  apply Z.eqb_eq in Hrel_t. rewrite Hrel_t. rewrite Hprog. cbv beta iota zeta.
  unfold array_set. rewrite Hb1. simpl bind. rewrite Hb2. simpl bind.
  fold g1. rewrite run_bind, Hparse. cbv beta iota zeta.
  change (negb (0 =? 0)) with false. cbv iota.
  rewrite probe_is_prog_name. rewrite run_bind.
  destruct (run h (load_and_attach _ _ _ _) w) as [[[r|u] t] w'];
    unfold trace_of, result_of in *; cbn [fst snd app run] in *.
  - rewrite app_nil_r. split; [exact Hfirst|reflexivity].
  - split; [exact Hfirst|exact I].
Qed.

Lemma relocated_program_is_submitted_witness :
  let s := mk_state two_maps_globals good_rel_object (Some symtab_example) in
  let g1 := set_processed_sec two_maps_globals
              (<[Z.to_nat 3 := true]>
                 (<[Z.to_nat (sh_info (mk_shdr SHT_REL 16 16 1 0 0)) := true]>
                    (processed_sec two_maps_globals))) in
  exists insn' fd more,
    run (scripted None)
        (parse_relo_and_apply 20 (mk_data 16 [] [] [] [mk_rel 8 (2 ^ 32)] [])
           (Some symtab_example) (mk_shdr SHT_REL 16 16 1 0 0) ld_map_example g1)
        [7; 0; 4; 2; 0; 11]
    = (Done (0, insn'), [], [7; 0; 4; 2; 0; 11]) /\
    trace_of (run (scripted None) (relo_pass_body 20 3 s) [7; 0; 4; 2; 0; 11])
    = Ev (bpf_prog_load BPF_PROG_TYPE_KPROBE insn' (to_int 32)
                        (license two_maps_globals)
                        (kern_version two_maps_globals)) fd :: more /\
    match result_of (run (scripted None) (relo_pass_body 20 3 s)
                         [7; 0; 4; 2; 0; 11]) with
    | Done (inr s') =>
        st_elf s' = store_insns good_rel_object (to_ulong (to_int 1)) insn'
    | Done (inl _) => False
    | Undefined _ => True
    end.
Proof.
  exact (relocated_program_is_submitted (scripted None) 20 3
           (mk_state two_maps_globals good_rel_object (Some symtab_example))
           [7; 0; 4; 2; 0; 11] ".relkprobe/do_sys_open"
           (mk_shdr SHT_REL 16 16 1 0 0)
           (mk_data 16 [] [] [] [mk_rel 8 (2 ^ 32)] [])
           false "do_sys_open" (mk_shdr 1 32 0 0 0 6)
           (mk_data 32 [] [] ld_map_example [] [])
           eq_refl ltac:(lia) ltac:(simpl; lia) eq_refl eq_refl eq_refl
           ltac:(simpl; discriminate) ltac:(vm_compute; lia)
           ltac:(repeat constructor)).
Defined.

(* ===================================================================== *)
(** ** What the metadata scan reads *)
(* ===================================================================== *)

(** One round of the metadata scan that goes on: the object is as it was;
    [license] is overwritten from a section named "license" and from no
    other; [symbols] is set from a section of type [SHT_SYMTAB] that has
    none of the three names, and kept otherwise. *)
Lemma scan_body_reads sz i s :
  always (scan_body sz i s) (fun o _ =>
    match o with
    | Done (inr s') =>
        st_elf s' = st_elf s /\
        license (st_g s')
        = match license_section (st_elf s) i with
          | Some data => license_copied data (license (st_g s))
          | None => license (st_g s)
          end /\
        st_symbols s'
        = match symtab_section (st_elf s) i with
          | Some data => Some data
          | None => st_symbols s
          end
    | _ => True
    end).
Proof.
  unfold scan_body, memcpy, license_section, symtab_section.
  destruct (get_sec (st_elf s) i) as [e|[[shname shdr] data]] eqn:Hsec;
    [simpl; auto|].
  destruct (String.eqb shname "license") eqn:Hlic.
  { repeat always_step; auto. }
  destruct (String.eqb shname "version") eqn:Hver.
  { repeat always_step; auto. }
  destruct (String.eqb shname "maps") eqn:Hmaps.
  { repeat always_step; try exact I.
    eapply always_mono; [|apply load_maps_outcome].
    intros [[ret g']|u] t Ho; simpl; [|exact I].
    destruct Ho as [(Hl & _) _].
    destruct (negb (ret =? 0)); simpl; [exact I|].
    repeat split. exact Hl. }
  cbn [orb]. repeat always_step; auto.
Qed.

Lemma scan_reads_section {W : Type} (h : handler W) (sz : Z) ehdr s w
    (j : Z) (Before After : state -> Prop) s1 t1 w1 :
  1 <= j < e_shnum ehdr ->
  Before s ->
  (forall i s0 s',
     1 <= i < j -> st_elf s0 = st_elf s -> Before s0 ->
     (st_elf s' = st_elf s0 /\
      license (st_g s')
      = match license_section (st_elf s0) i with
        | Some data => license_copied data (license (st_g s0))
        | None => license (st_g s0)
        end /\
      st_symbols s'
      = match symtab_section (st_elf s0) i with
        | Some data => Some data
        | None => st_symbols s0
        end) ->
     Before s') ->
  (forall i s0 s',
     j <= i < e_shnum ehdr -> st_elf s0 = st_elf s ->
     (if i =? j then Before s0 else After s0) ->
     (st_elf s' = st_elf s0 /\
      license (st_g s')
      = match license_section (st_elf s0) i with
        | Some data => license_copied data (license (st_g s0))
        | None => license (st_g s0)
        end /\
      st_symbols s'
      = match symtab_section (st_elf s0) i with
        | Some data => Some data
        | None => st_symbols s0
        end) ->
     After s') ->
  run h (scan_sections ehdr (scan_body sz) s) w = (Done (inr s1), t1, w1) ->
  After s1.
Proof.
  intros Hj Hs Hbefore Hafter Hrun.
  assert (H : always (scan_sections ehdr (scan_body sz) s) (fun o t =>
    Forall (fun _ => True) t /\
    match o with
    | Done (inl _) => True
    | Done (inr s') =>
        st_elf s' = st_elf s /\
        (if j <? 1 + Z.of_nat (Z.to_nat (e_shnum ehdr - 1))
         then After s' else Before s')
    | Undefined _ => True
    end)).
  { unfold scan_sections.
    apply (always_for_loop_ind (scan_body sz) (fun _ => True) (fun _ => True)
             (fun _ => True) (Z.to_nat (e_shnum ehdr - 1))
             (fun k s' => st_elf s' = st_elf s /\
                          (if j <? 1 + Z.of_nat k then After s' else Before s'))).
    - intros k s0 Hk [Helf Hinv].
      eapply always_mono; [|apply scan_body_reads].
      intros [[v|s']|u] t Ho; (split; [apply Forall_true; auto|]); try exact I.
      split; [destruct Ho as [-> _]; exact Helf|].
      replace (1 + Z.of_nat (S k)) with (1 + Z.of_nat k + 1) by lia.
      destruct (j <? 1 + Z.of_nat k) eqn:E1.
      + apply Z.ltb_lt in E1.
        replace (j <? 1 + Z.of_nat k + 1) with true by (symmetry; apply Z.ltb_lt; lia).
        apply (Hafter (1 + Z.of_nat k) s0 s'); [lia|exact Helf| |exact Ho].
        replace (1 + Z.of_nat k =? j) with false by (symmetry; apply Z.eqb_neq; lia).
        exact Hinv.
      + apply Z.ltb_ge in E1.
        destruct (j <? 1 + Z.of_nat k + 1) eqn:E2.
        * apply Z.ltb_lt in E2.
          apply (Hafter (1 + Z.of_nat k) s0 s'); [lia|exact Helf| |exact Ho].
          replace (1 + Z.of_nat k =? j) with true by (symmetry; apply Z.eqb_eq; lia).
          exact Hinv.
        * apply Z.ltb_ge in E2.
          apply (Hbefore (1 + Z.of_nat k) s0 s'); [lia|exact Helf|exact Hinv|exact Ho].
    - split; [reflexivity|].
      destruct (j <? 1 + Z.of_nat 0) eqn:E; [|exact Hs].
      apply Z.ltb_lt in E. simpl in E. lia. }
  apply (always_run h _ _ w) in H. rewrite Hrun in H.
  destruct H as [_ [_ H]].
  replace (j <? 1 + Z.of_nat (Z.to_nat (e_shnum ehdr - 1))) with true in H;
    [exact H|].
  symmetry. apply Z.ltb_lt. lia.
Qed.

(** X15: when one section of the object is named "license", the metadata scan
    leaves its bytes at the start of [license]; what [license] held beyond
    them stays. *)
Theorem license_is_read_from_its_section {W : Type} (h : handler W) (sz : Z)
    ehdr g elf w j data s1 t1 w1 :
  1 <= j < e_shnum ehdr ->
  license_section elf j = Some data ->
  (forall i, 1 <= i < e_shnum ehdr -> i <> j -> license_section elf i = None) ->
  run h (scan_sections ehdr (scan_body sz) (mk_state g elf None)) w
  = (Done (inr s1), t1, w1) ->
  license (st_g s1)
  = (take (Z.to_nat (d_size data)) (d_buf data)
     ++ drop (Z.to_nat (d_size data)) (license g))%list.
Proof.
  intros Hj Hlic Hothers Hrun.
  apply (scan_reads_section h sz ehdr (mk_state g elf None) w j
           (fun s => license (st_g s) = license g)
           (fun s => license (st_g s) = license_copied data (license g))
           s1 t1 w1 Hj eq_refl); [| |exact Hrun].
  - intros i s0 s' Hi Helf Hs0 (_ & Hl & _). rewrite Helf in Hl. simpl in Hl.
    rewrite (Hothers i) in Hl by lia. congruence.
  - intros i s0 s' Hi Helf Hs0 (_ & Hl & _). rewrite Helf in Hl. simpl in Hl.
    destruct (i =? j) eqn:E.
    + apply Z.eqb_eq in E. subst i. rewrite Hlic in Hl. congruence.
    + apply Z.eqb_neq in E. rewrite (Hothers i) in Hl by lia. congruence.
Qed.

(** X16: after the metadata scan [symbols] is the data of the last section
    of type [SHT_SYMTAB] that has none of the names "license", "version" and
    "maps", wherever that section stands in the object: the symbol table is
    picked before the relocation scan begins. *)
Theorem last_symbol_table_is_used {W : Type} (h : handler W) (sz : Z)
    ehdr s w j data s1 t1 w1 :
  1 <= j < e_shnum ehdr ->
  symtab_section (st_elf s) j = Some data ->
  (forall i, j < i < e_shnum ehdr -> symtab_section (st_elf s) i = None) ->
  run h (scan_sections ehdr (scan_body sz) s) w = (Done (inr s1), t1, w1) ->
  st_symbols s1 = Some data.
Proof.
  intros Hj Hsym Hothers Hrun.
  apply (scan_reads_section h sz ehdr s w j
           (fun _ => True) (fun s' => st_symbols s' = Some data)
           s1 t1 w1 Hj I); [auto| |exact Hrun].
  intros i s0 s' Hi Helf Hs0 (_ & _ & Hs). rewrite Helf in Hs.
  destruct (i =? j) eqn:E.
  - apply Z.eqb_eq in E. subst i. rewrite Hsym in Hs. exact Hs.
  - apply Z.eqb_neq in E. rewrite (Hothers i) in Hs by lia. congruence.
Qed.

Lemma license_is_read_from_its_section_witness :
  exists s1 t1 w1,
    1 <= 1 < e_shnum (mk_ehdr 4) /\
    license_section licensed_probe 1
    = Some (mk_data 4 [x47; x50; x4c; x00] [] [] [] []) /\
    run (scripted None)
        (scan_sections (mk_ehdr 4) (scan_body 20)
                       (mk_state initial_globals licensed_probe None)) []
    = (Done (inr s1), t1, w1) /\
    license (st_g s1)
    = (take (Z.to_nat 4) [x47; x50; x4c; x00]
       ++ drop (Z.to_nat 4) (license initial_globals))%list.
Proof.
  eexists _, _, _.
  assert (Hj : 1 <= 1 < e_shnum (mk_ehdr 4)) by (simpl; lia).
  assert (Hrun : run (scripted None)
        (scan_sections (mk_ehdr 4) (scan_body 20)
                       (mk_state initial_globals licensed_probe None)) []
      = (Done (inr _), _, _)) by (vm_compute; reflexivity).
  assert (Hothers : forall i, 1 <= i < e_shnum (mk_ehdr 4) -> i <> 1 ->
                              license_section licensed_probe i = None).
  { intros i Hi Hne. simpl in Hi.
    assert (Hcases : i = 2 \/ i = 3) by lia.
    destruct Hcases as [->| ->]; reflexivity. }
  split; [exact Hj|]. split; [reflexivity|]. split; [exact Hrun|].
  exact (license_is_read_from_its_section (scripted None) 20 (mk_ehdr 4)
           initial_globals licensed_probe [] 1
           (mk_data 4 [x47; x50; x4c; x00] [] [] [] []) _ _ _ Hj eq_refl
           Hothers Hrun).
Defined.

Lemma last_symbol_table_is_used_witness :
  exists s1 t1 w1,
    1 <= 2 < e_shnum (mk_ehdr 4) /\
    symtab_section good_rel_object 2
    = Some (mk_data 48 [] [] [] [] [mk_sym 0; mk_sym 20]) /\
    run (scripted None)
        (scan_sections (mk_ehdr 4) (scan_body 20)
                       (mk_state initial_globals good_rel_object None)) []
    = (Done (inr s1), t1, w1) /\
    st_symbols s1 = Some (mk_data 48 [] [] [] [] [mk_sym 0; mk_sym 20]).
Proof.
  eexists _, _, _.
  assert (Hj : 1 <= 2 < e_shnum (mk_ehdr 4)) by (simpl; lia).
  assert (Hrun : run (scripted None)
        (scan_sections (mk_ehdr 4) (scan_body 20)
                       (mk_state initial_globals good_rel_object None)) []
      = (Done (inr _), _, _)) by (vm_compute; reflexivity).
  assert (Hothers : forall i, 2 < i < e_shnum (mk_ehdr 4) ->
                              symtab_section good_rel_object i = None).
  { intros i Hi. simpl in Hi. assert (i = 3) as -> by lia. reflexivity. }
  split; [exact Hj|]. split; [reflexivity|]. split; [exact Hrun|].
  exact (last_symbol_table_is_used (scripted None) 20 (mk_ehdr 4)
           (mk_state initial_globals good_rel_object None) [] 2
           (mk_data 48 [] [] [] [] [mk_sym 0; mk_sym 20]) _ _ _ Hj eq_refl
           Hothers Hrun).
Defined.

(* ===================================================================== *)
(** ** [prog_cnt] counts the programs in the kernel *)
(* ===================================================================== *)

Lemma count_events_app p t t' :
  count_events p (t ++ t') = (count_events p t + count_events p t')%nat.
Proof. unfold count_events. rewrite List.filter_app, length_app. reflexivity. Qed.

Lemma attach_counts event k kr tp xdp pe fd g :
  always (attach event k kr tp xdp pe fd g) (fun o t =>
    count_events is_loaded t = 0%nat /\
    match o with
    | Done (_, g') => prog_cnt g' = prog_cnt g + (if fd <? 0 then 0 else 1)
    | Undefined _ => True
    end).
Proof.
  unfold attach. cbv zeta.
  repeat always_go; (split; [reflexivity|]); try exact I;
    cbn [prog_cnt set_prog_cnt set_prog_fd set_event_fd];
    repeat match goal with
           | H : (fd <? 0) = _ |- _ => rewrite H
           end; lia.
Qed.

(** Whatever the name of the event, [load_and_attach] adds to [prog_cnt]
    the number of its submissions that went through. *)
Lemma load_and_attach_counts event prog size g :
  always (load_and_attach event prog size g) (fun o t =>
    match o with
    | Done (_, g') =>
        prog_cnt g' = prog_cnt g + Z.of_nat (count_events is_loaded t)
    | Undefined _ => True
    end).
Proof.
  unfold load_and_attach. cbv zeta.
  repeat first
    [ lazymatch goal with
      | |- always (attach _ _ _ _ _ _ _ _) _ =>
          eapply always_mono; [|apply attach_counts];
          intros [[? ?]|?] ? [? ?]
      end
    | always_go ];
  try exact I; cbn [app]; rewrite ?count_events_cons;
  cbn [is_loaded loaded_fd];
  repeat match goal with
         | H : count_events is_loaded _ = 0%nat |- _ => rewrite H; clear H
         | H : prog_cnt _ = _ |- _ => rewrite H; clear H
         | H : (?x <? 0) = _ |- context [?x <? 0] => rewrite H
         end;
  change (count_events is_loaded []) with 0%nat;
  repeat match goal with
         | |- context [?x <? 0] => destruct (x <? 0)
         end;
  cbn [negb]; lia.
Qed.

Lemma always_for_loop_count {S R : Type} (body : Z -> S -> proc (R + S))
    (m : S -> Z) (mr : R -> Z) (p : event -> bool) count :
  (forall i s,
     always (body i s) (fun o t =>
       match o with
       | Done (inr s') => m s' = m s + Z.of_nat (count_events p t)
       | Done (inl v) => mr v = m s + Z.of_nat (count_events p t)
       | Undefined _ => True
       end)) ->
  forall i s,
    always (for_loop count i body s) (fun o t =>
      match o with
      | Done (inr s') => m s' = m s + Z.of_nat (count_events p t)
      | Done (inl v) => mr v = m s + Z.of_nat (count_events p t)
      | Undefined _ => True
      end).
Proof.
  intros Hbody. induction count as [|n IH]; intros i s.
  - simpl. unfold count_events. simpl. lia.
  - rewrite for_loop_S. apply always_bind.
    eapply always_mono; [|apply Hbody].
    intros [[v|s']|u] t Ho; simpl; [rewrite app_nil_r; exact Ho| |exact I].
    eapply always_mono; [|apply IH].
    intros [[v|s'']|u] t' Ho'; try exact I;
      rewrite count_events_app, Ho', Ho; lia.
Qed.

Lemma scan_event_not_loaded e : scan_event e -> is_loaded e = false.
Proof.
  intros [H _]. destruct e as [X c x]. destruct c; try reflexivity; discriminate.
Qed.

Lemma not_loaded_count t :
  Forall (fun e => is_loaded e = false) t -> count_events is_loaded t = 0%nat.
Proof. apply count_events_0. Qed.

Lemma scan_body_counts sz i s :
  always (scan_body sz i s) (fun o t =>
    match o with
    | Done (inr s') =>
        prog_cnt (st_g s') = prog_cnt (st_g s) + Z.of_nat (count_events is_loaded t)
    | Done (inl v) =>
        prog_cnt v.2 = prog_cnt (st_g s) + Z.of_nat (count_events is_loaded t)
    | Undefined _ => True
    end).
Proof.
  unfold scan_body, memcpy.
  destruct (get_sec (st_elf s) i) as [e|[[shname shdr] data]] eqn:Hsec;
    [simpl; unfold count_events; simpl; lia|].
  destruct (String.eqb shname "license") eqn:Hlic.
  { repeat always_step; try exact I; unfold count_events; simpl; lia. }
  destruct (String.eqb shname "version") eqn:Hver.
  { repeat always_step; try exact I; unfold count_events; simpl; lia. }
  destruct (String.eqb shname "maps") eqn:Hmaps.
  { repeat always_step; try exact I.
    eapply always_mono; [|apply load_maps_outcome].
    intros [[ret g']|u] t Ho; simpl; [|exact I].
    assert (Hc : count_events is_loaded t = 0%nat).
    { apply not_loaded_count.
      destruct Ho as [_ [[_ Ht]|[_ Ht]]];
        (eapply Forall_impl; [exact Ht|]); intros e He;
        apply scan_event_not_loaded; apply He. }
    destruct Ho as [(_ & _ & _ & _ & _ & Hcnt) _].
    destruct (negb (ret =? 0)); simpl; rewrite app_nil_r, Hc, Hcnt; simpl; lia. }
  repeat always_step; try exact I; unfold count_events; simpl; lia.
Qed.

Lemma relo_pass_body_counts sz i s :
  always (relo_pass_body sz i s) (fun o t =>
    match o with
    | Done (inr s') =>
        prog_cnt (st_g s') = prog_cnt (st_g s) + Z.of_nat (count_events is_loaded t)
    | Done (inl v) =>
        prog_cnt v.2 = prog_cnt (st_g s) + Z.of_nat (count_events is_loaded t)
    | Undefined _ => True
    end).
Proof.
  unfold relo_pass_body.
  repeat first
    [ lazymatch goal with
      | |- always (parse_relo_and_apply _ _ _ _ _ _) _ =>
          eapply always_mono;
          [|apply (parse_relo_prints_only _ _ _ _ _ _
                     (fun e => is_loaded e = false)); reflexivity];
          intros [[? ?]|?] ? ?%not_loaded_count
      | |- always (load_and_attach _ _ _ _) _ =>
          eapply always_mono; [|apply load_and_attach_counts];
          intros [[? ?]|?] ? ?
      end
    | always_go ];
  try exact I; cbn [app snd st_g prog_cnt set_processed_sec] in *;
  rewrite ?app_nil_r, ?count_events_app;
  change (count_events is_loaded []) with 0%nat; lia.
Qed.

Lemma residual_body_counts i s :
  always (residual_body i s) (fun o t =>
    match o with
    | Done (inr s') =>
        prog_cnt (st_g s') = prog_cnt (st_g s) + Z.of_nat (count_events is_loaded t)
    | Done (inl v) =>
        prog_cnt v.2 = prog_cnt (st_g s) + Z.of_nat (count_events is_loaded t)
    | Undefined _ => True
    end).
Proof.
  unfold residual_body.
  repeat first
    [ lazymatch goal with
      | |- always (load_and_attach _ _ _ _) _ =>
          eapply always_mono; [|apply load_and_attach_counts];
          intros [[? ?]|?] ? ?
      end
    | always_go ];
  try exact I; cbn [app snd st_g with_g prog_cnt] in *;
  rewrite ?app_nil_r; change (count_events is_loaded []) with 0%nat; lia.
Qed.

Lemma load_bpf_file_counts sz path g :
  always (load_bpf_file sz path g) (fun o t =>
    match o with
    | Done (_, g') =>
        prog_cnt g' = prog_cnt g + Z.of_nat (count_events is_loaded t)
    | Undefined _ => True
    end).
Proof.
  assert (Hscan : forall ehdr body s,
    (forall i s0,
       always (body i s0) (fun o t =>
         match o with
         | Done (inr s') =>
             prog_cnt (st_g s')
             = prog_cnt (st_g s0) + Z.of_nat (count_events is_loaded t)
         | Done (inl v) =>
             prog_cnt v.2
             = prog_cnt (st_g s0) + Z.of_nat (count_events is_loaded t)
         | Undefined _ => True
         end)) ->
    always (scan_sections ehdr body s) (fun o t =>
      match o with
      | Done (inr s') =>
          prog_cnt (st_g s')
          = prog_cnt (st_g s) + Z.of_nat (count_events is_loaded t)
      | Done (inl v) =>
          prog_cnt v.2 = prog_cnt (st_g s) + Z.of_nat (count_events is_loaded t)
      | Undefined _ => True
      end)).
  { intros ehdr body s Hbody. unfold scan_sections.
    apply (always_for_loop_count body (fun s => prog_cnt (st_g s))
             (fun v => prog_cnt v.2) is_loaded). exact Hbody. }
  unfold load_bpf_file, load_elf.
  repeat first
    [ lazymatch goal with
      | |- always (scan_sections _ (scan_body _) _) _ =>
          eapply always_mono; [|apply Hscan, scan_body_counts];
          intros [[[? ?]|?]|?] ? ?
      | |- always (scan_sections _ (relo_pass_body _) _) _ =>
          eapply always_mono; [|apply Hscan, relo_pass_body_counts];
          intros [[[? ?]|?]|?] ? ?
      | |- always (scan_sections _ residual_body _) _ =>
          eapply always_mono; [|apply Hscan, residual_body_counts];
          intros [[[? ?]|?]|?] ? ?
      end
    | always_go ];
  try exact I; cbn [app snd st_g prog_cnt] in *;
  rewrite ?app_nil_r, ?count_events_cons, ?count_events_app, ?count_events_cons;
  cbn [is_loaded loaded_fd];
  change (count_events is_loaded []) with 0%nat; lia.
Qed.

(** X17: [prog_cnt] counts the programs in the kernel: whatever
    [load_bpf_file] returns, it has added to [prog_cnt] the number of
    submissions that went through, whether the program could then be
    attached or not. *)
Theorem prog_cnt_counts_the_loaded_programs {W : Type} (h : handler W)
    (sz : Z) path g w ret g' :
  result_of (run h (load_bpf_file sz path g) w) = Done (ret, g') ->
  prog_cnt g'
  = prog_cnt g
    + Z.of_nat (count_events is_loaded
                  (trace_of (run h (load_bpf_file sz path g) w))).
Proof.
  intros Hres.
  pose proof (always_run h _ _ w (load_bpf_file_counts sz path g)) as H.
  rewrite Hres in H. exact H.
Qed.

Lemma prog_cnt_counts_the_loaded_programs_witness :
  exists g',
    result_of (run (scripted (Some twice_relocated))
                   (load_bpf_file 20 "prog.o" initial_globals) [1; 3; 0; 7; -1])
    = Done (0, g') /\
    count_events is_prog_load
      (trace_of (run (scripted (Some twice_relocated))
                     (load_bpf_file 20 "prog.o" initial_globals) [1; 3; 0; 7; -1]))
    = 2%nat /\
    prog_cnt g' = 2 /\
    prog_cnt g'
    = prog_cnt initial_globals
      + Z.of_nat (count_events is_loaded
                    (trace_of (run (scripted (Some twice_relocated))
                                   (load_bpf_file 20 "prog.o" initial_globals)
                                   [1; 3; 0; 7; -1]))).
Proof.
  eexists.
  assert (Hres : result_of (run (scripted (Some twice_relocated))
                   (load_bpf_file 20 "prog.o" initial_globals) [1; 3; 0; 7; -1])
                 = Done (0, _)) by (vm_compute; reflexivity).
  split; [exact Hres|]. split; [vm_compute; reflexivity|].
  split; [reflexivity|].
  exact (prog_cnt_counts_the_loaded_programs (scripted (Some twice_relocated))
           20 "prog.o" initial_globals [1; 3; 0; 7; -1] 0 _ Hres).
Defined.

(* ===================================================================== *)
(** ** What the residual scan submits *)
(* ===================================================================== *)

Lemma strncmp_memcmp_kprobe a : strncmp_eq a "kprobe/" 7 = memcmp_eq a "kprobe/" 7.
Proof.
  do 7 (destruct a as [|? a]; [reflexivity|];
        cbn [strncmp_eq memcmp_eq]; destruct (Ascii.eqb _ _); [|reflexivity]).
  reflexivity.
Qed.

Lemma strncmp_memcmp_kretprobe a :
  strncmp_eq a "kretprobe/" 10 = memcmp_eq a "kretprobe/" 10.
Proof.
  do 10 (destruct a as [|? a]; [reflexivity|];
         cbn [strncmp_eq memcmp_eq]; destruct (Ascii.eqb _ _); [|reflexivity]).
  reflexivity.
Qed.

Lemma probe_name_is_prog_name shname :
  is_probe_name shname = true -> is_prog_name shname = true.
Proof.
  unfold is_probe_name, is_prog_name.
  rewrite strncmp_memcmp_kprobe, strncmp_memcmp_kretprobe.
  intros ->. reflexivity.
Qed.

Lemma load_and_attach_probe_first {W : Type} (h : handler W) event prog size g w :
  is_probe_name event = true ->
  exists fd more,
    trace_of (run h (load_and_attach event prog size g) w)
    = Ev (bpf_prog_load BPF_PROG_TYPE_KPROBE prog size (license g)
                        (kern_version g)) fd :: more.
Proof.
  intros Hp. unfold load_and_attach. cbv zeta. unfold is_probe_name in Hp.
  rewrite Hp. rewrite run_bind, run_perform. cbv beta iota zeta.
  destruct (run h _ _) as [[o t] w']. eexists _, _. reflexivity.
Qed.

Lemma load_and_attach_unknown {W : Type} (h : handler W) event prog size g w :
  is_probe_name event = false ->
  run h (load_and_attach event prog size g) w
  = (Done (-1, g), [Ev (printf (msg_unknown_event event)) tt],
     (h unit (printf (msg_unknown_event event)) w).2).
Proof.
  intros Hp. unfold load_and_attach. cbv zeta. unfold is_probe_name in Hp.
  rewrite Hp. rewrite run_bind, run_perform. simpl.
  destruct (h unit (printf (msg_unknown_event event)) w) as [[] w1]. reflexivity.
Qed.

(** X18: the residual scan submits a section exactly when the section is not
    marked, [get_sec] accepts it and its name starts with [kprobe/] or
    [kretprobe/]: the submission is then the first call of the round and
    carries the instructions and the size of the section.  In every other
    case the round submits nothing; a section that [get_sec] turns down
    causes no call at all. *)
Theorem residual_scan_submits_unmarked_probes {W : Type} (h : handler W)
    (i : Z) (s : state) w (b : bool) :
  zlookup (processed_sec (st_g s)) i = Some b ->
  match get_sec (st_elf s) i with
  | inr (shname, shdr, data) =>
      if negb b && is_probe_name shname
      then exists fd more,
             trace_of (run h (residual_body i s) w)
             = Ev (bpf_prog_load BPF_PROG_TYPE_KPROBE (as_insns data)
                                 (to_int (d_size data)) (license (st_g s))
                                 (kern_version (st_g s))) fd :: more
      else count_events is_prog_load (trace_of (run h (residual_body i s) w))
           = 0%nat
  | inl _ => trace_of (run h (residual_body i s) w) = []
  end.
Proof.
  intros Hb. unfold residual_body, array_get. rewrite Hb. cbn [bind].
  destruct (get_sec (st_elf s) i) as [e|[[shname shdr] data]] eqn:Hsec.
  { destruct b; reflexivity. }
  destruct b; cbn [negb andb]; [reflexivity|].
  destruct (is_probe_name shname) eqn:Hp.
  - rewrite (probe_name_is_prog_name _ Hp). rewrite run_bind.
    destruct (load_and_attach_probe_first h shname (as_insns data)
                (to_int (d_size data)) (st_g s) w Hp) as (fd & more & Hfirst).
    destruct (run h (load_and_attach _ _ _ _) w) as [[[r|u] t] w'];
      unfold trace_of in *; cbn [fst snd run] in *.
    + rewrite app_nil_r. eexists _, _. exact Hfirst.
    + eexists _, _. exact Hfirst.
  - destruct (is_prog_name shname); [|reflexivity].
    rewrite run_bind, (load_and_attach_unknown h _ _ _ _ _ Hp). reflexivity.
Qed.

Lemma residual_scan_submits_unmarked_probes_witness :
  zlookup (processed_sec initial_globals) 1 = Some false /\
  exists fd more,
    trace_of (run (scripted None)
                  (residual_body 1 (mk_state initial_globals kprobe_only None))
                  [-1; 22; 22])
    = Ev (bpf_prog_load BPF_PROG_TYPE_KPROBE ld_map_example (to_int 32)
                        (license initial_globals) (kern_version initial_globals))
         fd :: more.
Proof.
  split; [reflexivity|].
  exact (residual_scan_submits_unmarked_probes (scripted None) 1
           (mk_state initial_globals kprobe_only None) [-1; 22; 22] false
           eq_refl).
Defined.

(* ===================================================================== *)
(** ** A full [prog_fd] *)
(* ===================================================================== *)

Lemma attach_no_slot event k kr tp xdp pe fd g :
  zlookup (prog_fd g) (prog_cnt g) = None ->
  always (attach event k kr tp xdp pe fd g) (fun o t =>
    match o with
    | Done v => fd < 0 /\ v = (-1, g)
    | Undefined u => 0 <= fd /\ u = out_of_bounds "prog_fd" (prog_cnt g)
    end).
Proof.
  intros Hslot. unfold attach, array_set. rewrite Hslot.
  destruct (fd <? 0) eqn:Hfd.
  - apply Z.ltb_lt in Hfd. repeat always_go. auto.
  - apply Z.ltb_ge in Hfd. simpl. auto.
Qed.

(** X19: [prog_fd] has 32 slots and [prog_cnt] is not checked against them: when
    [prog_cnt] is no index of [prog_fd], [load_and_attach] records nothing.
    It comes back with -1 and the globals as they were, no submission having
    gone through, or a submission went through and its handle is written
    outside [prog_fd]. *)
Theorem full_prog_fd_records_nothing {W : Type} (h : handler W)
    event prog size g w :
  zlookup (prog_fd g) (prog_cnt g) = None ->
  (result_of (run h (load_and_attach event prog size g) w) = Done (-1, g) /\
   count_events is_loaded (trace_of (run h (load_and_attach event prog size g) w))
   = 0%nat)
  \/
  (result_of (run h (load_and_attach event prog size g) w)
   = Undefined (out_of_bounds "prog_fd" (prog_cnt g)) /\
   count_events is_loaded (trace_of (run h (load_and_attach event prog size g) w))
   = 1%nat).
Proof.
  intros Hslot.
  assert (H : always (load_and_attach event prog size g) (fun o t =>
    match o with
    | Done v => v = (-1, g) /\ count_events is_loaded t = 0%nat
    | Undefined u =>
        u = out_of_bounds "prog_fd" (prog_cnt g) /\
        count_events is_loaded t = 1%nat
    end)).
  { unfold load_and_attach. cbv zeta.
    repeat first
      [ lazymatch goal with
        | |- always (attach _ _ _ _ _ _ _ _) _ =>
            eapply always_mono;
            [|apply always_conj;
              [apply (attach_no_slot _ _ _ _ _ _ _ _ Hslot)|apply attach_counts]];
            intros [?|?] ? [[? ->] [? _]]
        end
      | always_go ];
    cbn [app]; rewrite ?count_events_cons; cbn [is_loaded loaded_fd];
    change (count_events is_loaded []) with 0%nat;
    repeat match goal with
           | H : count_events is_loaded _ = 0%nat |- _ => rewrite H; clear H
           | H : (?x <? 0) = _ |- context [?x <? 0] => rewrite H
           | H : ?x < 0 |- context [?x <? 0] =>
               rewrite (proj2 (Z.ltb_lt x 0) H)
           | H : 0 <= ?x |- context [?x <? 0] =>
               rewrite (proj2 (Z.ltb_ge x 0) H)
           end;
    cbn [negb]; split; first [reflexivity|lia]. }
  apply (always_run h _ _ w) in H.
  destruct (result_of _) as [v|u]; destruct H as [-> Hc]; auto.
Qed.

Lemma full_prog_fd_records_nothing_witness :
  zlookup (prog_fd full_globals) (prog_cnt full_globals) = None /\
  result_of (run (scripted None)
                 (load_and_attach "kprobe/do_sys_open" ld_map_example 32
                                  full_globals) [7])
  = Undefined (out_of_bounds "prog_fd" 32) /\
  ((result_of (run (scripted None)
                   (load_and_attach "kprobe/do_sys_open" ld_map_example 32
                                    full_globals) [7]) = Done (-1, full_globals) /\
    count_events is_loaded
      (trace_of (run (scripted None)
                     (load_and_attach "kprobe/do_sys_open" ld_map_example 32
                                      full_globals) [7])) = 0%nat)
   \/
   (result_of (run (scripted None)
                   (load_and_attach "kprobe/do_sys_open" ld_map_example 32
                                    full_globals) [7])
    = Undefined (out_of_bounds "prog_fd" (prog_cnt full_globals)) /\
    count_events is_loaded
      (trace_of (run (scripted None)
                     (load_and_attach "kprobe/do_sys_open" ld_map_example 32
                                      full_globals) [7])) = 1%nat)).
Proof.
  assert (H : zlookup (prog_fd full_globals) (prog_cnt full_globals) = None)
    by reflexivity.
  split; [exact H|]. split; [vm_compute; reflexivity|].
  exact (full_prog_fd_records_nothing (scripted None) "kprobe/do_sys_open"
           ld_map_example 32 full_globals [7] H).
Defined.

(* ===================================================================== *)
(** ** Maps first, programs afterwards *)
(* ===================================================================== *)

Lemma scan_event_no_load t :
  Forall scan_event t -> Forall (fun e => is_prog_load e = false) t.
Proof. intros H. eapply Forall_impl; [exact H|]. intros e He. apply He. Qed.

Lemma later_event_no_create lic ver t :
  Forall (later_event lic ver) t -> Forall (fun e => is_create_map e = false) t.
Proof. intros H. eapply Forall_impl; [exact H|]. intros e He. apply He. Qed.

Lemma load_elf_order sz elf fd g :
  always (load_elf sz elf fd g) (fun _ t =>
    exists t1 t2,
      t = (t1 ++ t2)%list /\
      Forall (fun e => is_prog_load e = false) t1 /\
      Forall (fun e => is_create_map e = false) t2).
Proof.
  unfold load_elf.
  destruct (elf_ehdr elf) as [ehdr|];
    [|exists [], []; repeat split; constructor].
  apply always_bind. unfold perform. cbn [always]. intros x.
  apply always_bind. unfold scan_sections.
  eapply always_mono;
    [|apply (always_for_loop_exit (scan_body sz) (fun _ => True)
               scan_went_on scan_event (fun v => v.1 = 1));
      [intros e [He _]; exact He
      |intros i s _;
       eapply always_mono; [|apply scan_body_outcome];
       intros [[v|s']|u] t Ho; intuition
      |exact I]].
  intros [[[r1 g1]|s1]|u] t1 Ho.
  { destruct Ho as [Ht _]. exists (Ev (system clear_kprobes) x :: t1), [].
    simpl. rewrite !app_nil_r. split; [reflexivity|].
    split; [constructor; [reflexivity|apply scan_event_no_load, Ht]|constructor]. }
  2:{ exists (Ev (system clear_kprobes) x :: t1), [].
      simpl. rewrite !app_nil_r. split; [reflexivity|].
      split; [constructor; [reflexivity|apply scan_event_no_load, Ho]|constructor]. }
  destruct Ho as [Ht1 _].
  assert (H1 : Forall (fun e => is_prog_load e = false)
                      (Ev (system clear_kprobes) x :: t1)).
  { constructor; [reflexivity|]. apply scan_event_no_load.
    eapply Forall_impl; [exact Ht1|]. intros e [He _]. exact He. }
  apply always_bind.
  eapply always_mono; [|apply (later_scan _ (relo_pass_body_later sz))].
  intros [[v|s2]|u] t2 [Ht2 Ho2]; [contradiction| |].
  2:{ exists (Ev (system clear_kprobes) x :: t1), t2.
      split; [reflexivity|]. split; [exact H1|].
      eapply later_event_no_create, Ht2. }
  apply always_bind.
  eapply always_mono; [|apply (later_scan _ residual_body_later)].
  intros [[v|s3]|u] t3 [Ht3 Ho3]; [contradiction| |].
  2:{ exists (Ev (system clear_kprobes) x :: t1), (t2 ++ t3)%list.
      split; [reflexivity|]. split; [exact H1|].
      apply Forall_app. split; eapply later_event_no_create; eassumption. }
  apply always_bind. cbn [always]. intros c.
  exists (Ev (system clear_kprobes) x :: t1), (t2 ++ t3 ++ [Ev (close fd) c])%list.
  split; [cbn [app]; rewrite ?app_nil_r; reflexivity|]. split; [exact H1|].
  apply Forall_app. split; [eapply later_event_no_create; eassumption|].
  apply Forall_app. split; [eapply later_event_no_create; eassumption|].
  repeat constructor.
Qed.

(** X20: in every run of [load_bpf_file] the maps come first: once a program has
    been submitted no map is created any more. *)
Theorem maps_are_created_before_programs_are_submitted {W : Type}
    (h : handler W) (sz : Z) path g w :
  exists t1 t2,
    trace_of (run h (load_bpf_file sz path g) w) = (t1 ++ t2)%list /\
    Forall (fun e => is_prog_load e = false) t1 /\
    Forall (fun e => is_create_map e = false) t2.
Proof.
  assert (H : always (load_bpf_file sz path g) (fun _ t =>
    exists t1 t2,
      t = (t1 ++ t2)%list /\
      Forall (fun e => is_prog_load e = false) t1 /\
      Forall (fun e => is_create_map e = false) t2)).
  { unfold load_bpf_file.
    apply always_bind. unfold perform. cbn [always]. intros v. cbn [app].
    destruct (v =? EV_NONE).
    { eexists _, []. rewrite app_nil_r. split; [reflexivity|].
      split; repeat constructor. }
    apply always_bind. cbn [always]. intros fd. cbn [app].
    destruct (fd <? 0).
    { eexists _, []. rewrite app_nil_r. split; [reflexivity|].
      split; repeat constructor. }
    apply always_bind. cbn [always]. intros [elf|]; cbn [app].
    2:{ eexists _, []. rewrite app_nil_r. split; [reflexivity|].
        split; repeat constructor. }
    eapply always_mono; [|apply load_elf_order].
    intros o t (t1 & t2 & -> & H1 & H2).
    exists (Ev (elf_version EV_CURRENT) v :: Ev (open path O_RDONLY 0) fd
            :: Ev (elf_begin fd) (Some elf) :: t1), t2.
    split; [reflexivity|]. split; [|exact H2].
    repeat (constructor; [reflexivity|]). exact H1. }
  exact (always_run h _ _ w H).
Qed.

Lemma maps_are_created_before_programs_are_submitted_witness :
  exists t1 t2,
    trace_of (run (scripted (Some maps_and_probe))
                  (load_bpf_file 20 "prog.o" initial_globals) [1; 3; 0; 5; 6; 7])
    = (t1 ++ t2)%list /\
    Forall (fun e => is_prog_load e = false) t1 /\
    Forall (fun e => is_create_map e = false) t2.
Proof.
  exact (maps_are_created_before_programs_are_submitted
           (scripted (Some maps_and_probe)) 20 "prog.o" initial_globals
           [1; 3; 0; 5; 6; 7]).
Defined.


(* ===================================================================== *)
(** ** How [load_and_attach] fails *)
(* ===================================================================== *)

Ltac units :=
  repeat match goal with
         | u : unit |- _ => destruct u
         end.

Lemma attach_reports event k kr tp xdp pe fd g :
  always (attach event k kr tp xdp pe fd g) (fun o t =>
    (count_events is_read_failure t = 0%nat \/ count_events is_close t = 0%nat)
    /\
    match o with
    | Done (r, _) =>
        r = 0 \/ (r = -1 /\ exists m, last t = Some (Ev (printf m) tt))
    | Undefined _ => True
    end).
Proof.
  unfold attach. cbv zeta.
  repeat always_go; units;
    (split; [first [left; reflexivity|right; reflexivity]|]);
    try exact I;
    first [left; reflexivity|right; split; [reflexivity|eexists; reflexivity]].
Qed.

Lemma load_and_attach_reports event prog size g :
  always (load_and_attach event prog size g) (fun o t =>
    (count_events is_read_failure t = 0%nat \/ count_events is_close t = 0%nat)
    /\
    match o with
    | Done (r, _) =>
        r = 0 \/ (r = -1 /\ exists m, last t = Some (Ev (printf m) tt))
    | Undefined _ => True
    end).
Proof.
  unfold load_and_attach. cbv zeta.
  repeat first
    [ lazymatch goal with
      | |- always (attach _ _ _ _ _ _ _ _) _ =>
          eapply always_mono; [|apply attach_reports];
          intros [[? ?]|?] ? [? ?]
      end
    | always_go ];
  units; cbn [app]; rewrite ?count_events_cons;
  cbn [is_read_failure is_close plus];
  (split; [first [assumption|left; reflexivity]|]); try exact I;
  try match goal with
      | H : _ \/ _ |- _ => destruct H as [->|[-> [m Hm]]]
      end;
  first
    [ left; reflexivity
    | right; split; [reflexivity|];
      first [ exists m; rewrite ?last_cons, Hm; reflexivity
            | eexists; reflexivity ] ].
Qed.

(** X21: [load_and_attach] returns 0 or -1, and it never fails silently: when
    it returns -1 its last call has printed a message. *)
Theorem load_and_attach_never_fails_silently {W : Type} (h : handler W)
    event prog size g w r g' :
  result_of (run h (load_and_attach event prog size g) w) = Done (r, g') ->
  r = 0
  \/ (r = -1 /\
      exists m,
        last (trace_of (run h (load_and_attach event prog size g) w))
        = Some (Ev (printf m) tt)).
Proof.
  intros Hres.
  pose proof (always_run h _ _ w (load_and_attach_reports event prog size g))
    as [_ H].
  rewrite Hres in H. exact H.
Qed.

Lemma load_and_attach_never_fails_silently_witness :
  exists g',
    result_of (run (scripted None)
                   (load_and_attach "kprobe/do_sys_open" ld_map_example 32
                                    initial_globals) [7; 0; 4; -1; 5])
    = Done (-1, g') /\
    (-1 = 0
     \/ (-1 = -1 /\
         exists m,
           last (trace_of (run (scripted None)
                               (load_and_attach "kprobe/do_sys_open"
                                  ld_map_example 32 initial_globals)
                               [7; 0; 4; -1; 5]))
           = Some (Ev (printf m) tt))).
Proof.
  eexists.
  assert (Hres : result_of (run (scripted None)
                   (load_and_attach "kprobe/do_sys_open" ld_map_example 32
                                    initial_globals) [7; 0; 4; -1; 5])
                 = Done (-1, _)) by (vm_compute; reflexivity).
  split; [exact Hres|].
  exact (load_and_attach_never_fails_silently (scripted None)
           "kprobe/do_sys_open" ld_map_example 32 initial_globals
           [7; 0; 4; -1; 5] (-1) _ Hres).
Defined.

(** X22: when the [read] of the id file fails, [load_and_attach] returns
    without closing the file: a trace that holds the report of a failed
    [read] holds no [close]. *)
Theorem failed_read_leaves_the_id_file_open {W : Type} (h : handler W)
    event prog size g w :
  count_events is_read_failure
    (trace_of (run h (load_and_attach event prog size g) w)) <> 0%nat ->
  count_events is_close
    (trace_of (run h (load_and_attach event prog size g) w)) = 0%nat.
Proof.
  intros Hfail.
  pose proof (always_run h _ _ w (load_and_attach_reports event prog size g))
    as [[H|H] _]; [contradiction|exact H].
Qed.

Lemma failed_read_leaves_the_id_file_open_witness :
  let r := run (scripted None)
               (load_and_attach "kprobe/do_sys_open" ld_map_example 32
                                initial_globals) [7; 0; 4; -1; 5] in
  printed (trace_of r) = [msg_read_failed "do_sys_open" 5] /\
  count_events is_read_failure (trace_of r) <> 0%nat /\
  count_events is_close (trace_of r) = 0%nat.
Proof.
  cbv zeta.
  assert (H : count_events is_read_failure
                (trace_of (run (scripted None)
                               (load_and_attach "kprobe/do_sys_open"
                                  ld_map_example 32 initial_globals)
                               [7; 0; 4; -1; 5])) <> 0%nat)
    by (vm_compute; discriminate).
  split; [vm_compute; reflexivity|]. split; [exact H|].
  exact (failed_read_leaves_the_id_file_open (scripted None)
           "kprobe/do_sys_open" ld_map_example 32 initial_globals
           [7; 0; 4; -1; 5] H).
Defined.

(* ===================================================================== *)
(** ** Where the load ends: a malformed version, a program that fails *)
(* ===================================================================== *)

(** A loop of [a + b] rounds whose first [a] rounds go through. *)
Lemma for_loop_run_app {W S R : Type} (h : handler W)
    (body : Z -> S -> proc (R + S)) (b : nat) :
  forall (a : nat) i s w s' t w',
    run h (for_loop a i body s) w = (Done (inr s'), t, w') ->
    run h (for_loop (a + b) i body s) w
    = let '(o, t2, w2) := run h (for_loop b (i + Z.of_nat a) body s') w' in
      (o, (t ++ t2)%list, w2).
Proof.
  induction a as [|a IH]; intros i s w s' t w' Hrun.
  - simpl in Hrun. injection Hrun as -> <- ->.
    change (Z.of_nat 0) with 0. rewrite Z.add_0_r. simpl.
    destruct (run h (for_loop b i body s') w') as [[o t2] w2]. reflexivity.
  - change (Datatypes.S a + b)%nat with (Datatypes.S (a + b)).
    rewrite for_loop_S, run_bind in *.
    destruct (run h (body i s) w) as [[[[v|s1]|u] t1] w1]; [discriminate| |discriminate].
    destruct (run h (for_loop a (i + 1) body s1) w1) as [[o ta] wa] eqn:Ea.
    injection Hrun as -> <- ->.
    rewrite (IH (i + 1) s1 w1 s' ta w' Ea).
    replace (i + 1 + Z.of_nat a) with (i + Z.of_nat (Datatypes.S a)) by lia.
    destruct (run h (for_loop b (i + Z.of_nat (Datatypes.S a)) body s') w')
      as [[o2 t2] w2].
    rewrite app_assoc. reflexivity.
Qed.

(** The rounds of the metadata scan keep the object and the number of
    marks. *)
Lemma scan_rounds_keep {W : Type} (h : handler W) sz n i s w s' t w' :
  run h (for_loop n i (scan_body sz) s) w = (Done (inr s'), t, w') ->
  st_elf s' = st_elf s /\
  length (processed_sec (st_g s')) = length (processed_sec (st_g s)).
Proof.
  intros Hrun.
  assert (H := always_for_loop (scan_body sz)
                 (fun s0 => st_elf s0 = st_elf s /\
                            length (processed_sec (st_g s0))
                            = length (processed_sec (st_g s)))
                 (fun _ => True) (fun _ => True) n).
  assert (Hb : forall j s0,
             st_elf s0 = st_elf s /\
             length (processed_sec (st_g s0)) = length (processed_sec (st_g s)) ->
             always (scan_body sz j s0) (fun o t =>
               Forall (fun _ => True) t /\
               match o with
               | Done (inl _) => True
               | Done (inr s1) =>
                   st_elf s1 = st_elf s /\
                   length (processed_sec (st_g s1))
                   = length (processed_sec (st_g s))
               | Undefined _ => True
               end)).
  { intros j s0 [He Hl]. eapply always_mono; [|apply scan_body_outcome].
    intros [[v|s1]|u] t0 Ho; (split; [apply Forall_true; auto|]); auto.
    destruct Ho as (_ & He1 & Hl1). split; congruence. }
  specialize (H Hb i s (conj eq_refl eq_refl)).
  apply (always_run h _ _ w) in H. rewrite Hrun in H. apply H.
Qed.

(** The round of the metadata scan at a "version" section of the wrong
    size: the section is marked, the size is reported, 1 is returned. *)
Lemma scan_body_bad_version_run {W : Type} (h : handler W) sz j s w shdr data b :
  get_sec (st_elf s) j = inr ("version", shdr, data) ->
  d_size data <> sizeof_int ->
  zlookup (processed_sec (st_g s)) j = Some b ->
  run h (scan_body sz j s) w
  = (Done (inl (1, set_processed_sec (st_g s)
                     (<[Z.to_nat j := true]> (processed_sec (st_g s))))),
     [Ev (printf (msg_invalid_version_size (d_size data))) tt],
     (h unit (printf (msg_invalid_version_size (d_size data))) w).2).
Proof.
  intros Hsec Hsize Hb. unfold scan_body. rewrite Hsec.
  change (String.eqb "version" "license") with false.
  change (String.eqb "version" "version") with true. cbv iota.
  unfold array_set. rewrite Hb. cbn [bind].
  apply Z.eqb_neq in Hsize. rewrite Hsize. cbn [negb].
  rewrite run_bind, run_perform.
  destruct (h unit (printf (msg_invalid_version_size (d_size data))) w)
    as [[] w1].
  reflexivity.
Qed.

(** C7, as the code has it: a "version" section that [get_sec] accepts and
    whose payload is not exactly four bytes ends the load.  Whatever the
    environment answers, the load returns 1 unless it has left defined
    behaviour, and it submits no program; it creates no map either unless a
    "maps" section comes before the "version" section in the object.  When
    the metadata scan gets as far as that section, and the section has a
    mark in [processed_sec], the load marks the section, reports the size
    as its last call and returns 1. *)
Theorem bad_version_fails_load {W : Type} (h : handler W) (sz : Z) path g w
    elf fd w0 ehdr j shdr data :
  opens h path w elf fd w0 ->
  elf_ehdr elf = Some ehdr ->
  1 <= j < e_shnum ehdr ->
  get_sec elf j = inr ("version", shdr, data) ->
  d_size data <> sizeof_int ->
  ((exists g', result_of (run h (load_bpf_file sz path g) w) = Done (1, g'))
   \/ (exists u, result_of (run h (load_bpf_file sz path g) w) = Undefined u))
  /\ count_events is_prog_load (trace_of (run h (load_bpf_file sz path g) w)) = 0%nat
  /\ ((forall i, 1 <= i < j ->
         forall shdr' data', get_sec elf i <> inr ("maps", shdr', data')) ->
      count_events is_create_map (trace_of (run h (load_bpf_file sz path g) w))
      = 0%nat)
  /\ (forall s' t' w',
        j < 128 ->
        length (processed_sec g) = 128%nat ->
        run h (for_loop (Z.to_nat (j - 1)) 1 (scan_body sz) (mk_state g elf None))
            (h Z (system clear_kprobes) w0).2 = (Done (inr s'), t', w') ->
        result_of (run h (load_bpf_file sz path g) w)
        = Done (1, set_processed_sec (st_g s')
                     (<[Z.to_nat j := true]> (processed_sec (st_g s'))))
        /\ exists v x,
             trace_of (run h (load_bpf_file sz path g) w)
             = Ev (elf_version EV_CURRENT) v :: Ev (open path O_RDONLY 0) fd
               :: Ev (elf_begin fd) (Some elf) :: Ev (system clear_kprobes) x
               :: (t' ++ [Ev (printf (msg_invalid_version_size (d_size data)))
                             tt])%list).
Proof.
  intros Hopen Hehdr Hj Hsec Hsize.
  destruct (load_bpf_file_opens h sz path g w elf fd w0 Hopen) as [-> [v ->]].
  set (nomaps := forall i, 1 <= i < j ->
         forall shdr' data', get_sec elf i <> inr ("maps", shdr', data')).
  assert (H := always_run h _ _ w0
                 (load_elf_bad_version sz elf fd g ehdr j shdr data nomaps
                    Hehdr Hj Hsec Hsize (fun Hn => Hn))).
  destruct H as [Ht Ho]. split; [|split; [|split]].
  - destruct (result_of (run h (load_elf sz elf fd g) w0)) as [[ret g']|u].
    + left. exists g'. simpl in Ho. subst ret. reflexivity.
    + right. exists u. reflexivity.
  - apply count_events_0. repeat (constructor; [reflexivity|]).
    eapply Forall_impl; [exact Ht|]. intros e He. apply He.
  - intros Hn. apply count_events_0. repeat (constructor; [reflexivity|]).
    eapply Forall_impl; [exact Ht|]. intros e He. apply He, Hn.
  - intros s' t' w' Hj128 Hlen Hbefore.
    destruct (scan_rounds_keep h sz _ _ _ _ _ _ _ Hbefore) as [Helf Hmarks].
    simpl in Helf, Hmarks.
    destruct (zlookup_lt (processed_sec (st_g s')) j) as [b Hb];
      [rewrite Hmarks, Hlen; lia|].
    assert (Hround := scan_body_bad_version_run h sz j s' w' shdr data b
                        ltac:(rewrite Helf; exact Hsec) Hsize Hb).
    assert (Hscan :
      run h (scan_sections ehdr (scan_body sz) (mk_state g elf None))
          (h Z (system clear_kprobes) w0).2
      = (Done (inl (1, set_processed_sec (st_g s')
                         (<[Z.to_nat j := true]> (processed_sec (st_g s'))))),
         (t' ++ [Ev (printf (msg_invalid_version_size (d_size data))) tt])%list,
         (h unit (printf (msg_invalid_version_size (d_size data))) w').2)).
    { unfold scan_sections.
      replace (Z.to_nat (e_shnum ehdr - 1))
        with (Z.to_nat (j - 1) + S (Z.to_nat (e_shnum ehdr - 1 - j)))%nat by lia.
      rewrite (for_loop_run_app h (scan_body sz) _ _ _ _ _ _ _ _ Hbefore).
      replace (1 + Z.of_nat (Z.to_nat (j - 1))) with j by lia.
      rewrite for_loop_S, run_bind, Hround. reflexivity. }
    unfold load_elf. rewrite Hehdr.
    rewrite run_bind, run_perform. cbv beta iota zeta.
    rewrite run_bind, Hscan. cbv beta iota zeta.
    split; [reflexivity|].
    exists v, (h Z (system clear_kprobes) w0).1.
    unfold trace_of. simpl. rewrite app_nil_r. reflexivity.
Qed.

Lemma bad_version_fails_load_witness :
  let r := run (scripted (Some version_only))
               (load_bpf_file 20 "prog.o" initial_globals) [1; 3] in
  opens (scripted (Some version_only)) "prog.o" [1; 3] version_only 3 [] /\
  1 <= 1 < e_shnum (mk_ehdr 4) /\
  get_sec version_only 1
  = inr ("version", mk_shdr 1 3 0 0 0 3, mk_data 3 [x01; x02; x03] [] [] [] []) /\
  result_of r
  = Done (1, set_processed_sec initial_globals
               (<[1%nat := true]> (processed_sec initial_globals))) /\
  (exists v x,
     trace_of r
     = [Ev (elf_version EV_CURRENT) v; Ev (open "prog.o" O_RDONLY 0) 3;
        Ev (elf_begin 3) (Some version_only); Ev (system clear_kprobes) x;
        Ev (printf (msg_invalid_version_size 3)) tt]) /\
  count_events is_prog_load (trace_of r) = 0%nat /\
  count_events is_create_map (trace_of r) = 0%nat.
Proof.
  cbv zeta.
  assert (Hopen : opens (scripted (Some version_only)) "prog.o" [1; 3]
                        version_only 3 []).
  { exists 1, [3], []. repeat split; try reflexivity; try discriminate. }
  assert (Hj : 1 <= 1 < e_shnum (mk_ehdr 4)) by (simpl; lia).
  assert (Hsize : d_size (mk_data 3 [x01; x02; x03] [] [] [] []) <> sizeof_int)
    by (simpl; discriminate).
  destruct (bad_version_fails_load (scripted (Some version_only)) 20 "prog.o"
              initial_globals [1; 3] version_only 3 [] (mk_ehdr 4) 1
              (mk_shdr 1 3 0 0 0 3) (mk_data 3 [x01; x02; x03] [] [] [] [])
              Hopen eq_refl Hj eq_refl Hsize)
    as (_ & Hload & Hmaps & Hpin).
  destruct (Hpin (mk_state initial_globals version_only None) [] []
              ltac:(lia) eq_refl eq_refl) as [Hres Htrace].
  split; [exact Hopen|]. split; [exact Hj|]. split; [reflexivity|].
  split; [exact Hres|]. split; [exact Htrace|]. split; [exact Hload|].
  apply Hmaps. intros i Hi. lia.
Defined.

(** *** What [load_and_attach] returns is dropped *)

(** The load once the metadata scan has gone through and the two later
    scans get through their sections. *)
Lemma load_elf_scans_through {W : Type} (h : handler W) (sz : Z) elf fd g w
    ehdr s1 t1 w1 s2 t2 w2 s3 t3 w3 :
  elf_ehdr elf = Some ehdr ->
  run h (scan_sections ehdr (scan_body sz) (mk_state g elf None))
      (h Z (system clear_kprobes) w).2 = (Done (inr s1), t1, w1) ->
  run h (scan_sections ehdr (relo_pass_body sz) s1) w1 = (Done (inr s2), t2, w2) ->
  run h (scan_sections ehdr residual_body s2) w2 = (Done (inr s3), t3, w3) ->
  run h (load_elf sz elf fd g) w
  = (Done (0, st_g s3),
     Ev (system clear_kprobes) (h Z (system clear_kprobes) w).1
     :: (t1 ++ t2 ++ t3 ++ [Ev (close fd) (h Z (close fd) w3).1])%list,
     (h Z (close fd) w3).2).
Proof.
  intros Hehdr H1 H2 H3. unfold load_elf. rewrite Hehdr.
  rewrite run_bind, run_perform. cbv beta iota zeta.
  rewrite run_bind, H1. cbv beta iota zeta.
  rewrite run_bind, H2. cbv beta iota zeta.
  rewrite run_bind, H3. cbv beta iota zeta.
  rewrite run_bind, run_perform. cbv beta iota zeta. simpl.
  reflexivity.
Qed.

(** A round of the residual scan that calls [load_and_attach]. *)
Lemma residual_body_run {W : Type} (h : handler W) i s w shname shdr data
    r g2 t w' :
  zlookup (processed_sec (st_g s)) i = Some false ->
  get_sec (st_elf s) i = inr (shname, shdr, data) ->
  is_prog_name shname = true ->
  run h (load_and_attach shname (as_insns data) (to_int (d_size data)) (st_g s)) w
  = (Done (r, g2), t, w') ->
  run h (residual_body i s) w = (Done (inr (with_g s g2)), t, w').
Proof.
  intros Hmark Hsec Hname Hrun. unfold residual_body, array_get.
  rewrite Hmark. cbn [bind]. rewrite Hsec, Hname.
  rewrite run_bind, Hrun. simpl. rewrite ?app_nil_r. reflexivity.
Qed.

(** A round of the relocation scan that calls [load_and_attach]. *)
Lemma relo_pass_body_run {W : Type} (h : handler W) (sz : Z) i s w
    shname shdr data shname_prog shdr_prog data_prog insn' tp wp r g2 t w' :
  length (processed_sec (st_g s)) = 128%nat ->
  0 <= i < 128 -> 0 <= sh_info shdr < 128 ->
  get_sec (st_elf s) i = inr (shname, shdr, data) ->
  sh_type shdr = SHT_REL ->
  get_sec (st_elf s) (to_int (sh_info shdr))
  = inr (shname_prog, shdr_prog, data_prog) ->
  is_prog_name shname_prog = true ->
  let g1 := set_processed_sec (st_g s)
              (<[Z.to_nat i := true]>
                 (<[Z.to_nat (sh_info shdr) := true]> (processed_sec (st_g s)))) in
  run h (parse_relo_and_apply sz data (st_symbols s) shdr (as_insns data_prog) g1) w
  = (Done (0, insn'), tp, wp) ->
  run h (load_and_attach shname_prog insn' (to_int (d_size data_prog)) g1) wp
  = (Done (r, g2), t, w') ->
  run h (relo_pass_body sz i s) w
  = (Done (inr (mk_state g2
                  (store_insns (st_elf s) (to_ulong (to_int (sh_info shdr))) insn')
                  (st_symbols s))),
     (tp ++ t)%list, w').
Proof.
  intros Hlen Hi Hinfo Hsec Hrel Hprog Hname g1 Hparse Hrun.
  destruct (zlookup_lt (processed_sec (st_g s)) (sh_info shdr)) as [b1 Hb1];
    [lia|].
  destruct (zlookup_lt (<[Z.to_nat (sh_info shdr) := true]> (processed_sec (st_g s))) i)
    as [b2 Hb2]; [rewrite length_insert; lia|].
  unfold relo_pass_body. rewrite Hsec.
  apply Z.eqb_eq in Hrel. rewrite Hrel. rewrite Hprog.
  unfold array_set. rewrite Hb1. cbn [bind]. rewrite Hb2. cbn [bind].
  fold g1. rewrite run_bind, Hparse. cbv beta iota zeta.
  change (negb (0 =? 0)) with false. cbv iota. rewrite Hname.
  rewrite run_bind, Hrun. simpl. rewrite ?app_nil_r. reflexivity.
Qed.

(** A scan goes on with the next section after a round that went on. *)
Lemma for_loop_run_next {W S R : Type} (h : handler W)
    (body : Z -> S -> proc (R + S)) i s w s' t w' :
  run h (body i s) w = (Done (inr s'), t, w') ->
  forall n,
    run h (for_loop (Datatypes.S n) i body s) w
    = let '(o, t2, w2) := run h (for_loop n (i + 1) body s') w' in
      (o, (t ++ t2)%list, w2).
Proof.
  intros Hrun n. rewrite for_loop_S, run_bind, Hrun. reflexivity.
Qed.

(** C10, as the code has it: once the metadata scan (license, version,
    maps) has gone through all sections, [load_bpf_file] never returns an
    error, whatever the kernel answers to the submissions and attachments
    of the two later scans: it returns 0 unless it leaves defined
    behaviour.  What [load_and_attach] returns is dropped in both scans: a
    round in which [load_and_attach] returns, with 0 or with -1, goes on
    with the next section and with the globals [load_and_attach] has left;
    and when both scans get through their sections, the load closes the
    file as its last call and returns 0. *)
Theorem load_returns_success_after_metadata {W : Type} (h : handler W)
    (sz : Z) path g w elf fd w0 ehdr s1 t1 w1 :
  opens h path w elf fd w0 ->
  elf_ehdr elf = Some ehdr ->
  run h (scan_sections ehdr (scan_body sz) (mk_state g elf None))
      (h Z (system clear_kprobes) w0).2 = (Done (inr s1), t1, w1) ->
  ((exists g', result_of (run h (load_bpf_file sz path g) w) = Done (0, g'))
   \/ (exists u, result_of (run h (load_bpf_file sz path g) w) = Undefined u))
  /\ (forall s2 t2 w2 s3 t3 w3,
        run h (scan_sections ehdr (relo_pass_body sz) s1) w1
        = (Done (inr s2), t2, w2) ->
        run h (scan_sections ehdr residual_body s2) w2 = (Done (inr s3), t3, w3) ->
        result_of (run h (load_bpf_file sz path g) w) = Done (0, st_g s3)
        /\ exists v x c,
             trace_of (run h (load_bpf_file sz path g) w)
             = Ev (elf_version EV_CURRENT) v :: Ev (open path O_RDONLY 0) fd
               :: Ev (elf_begin fd) (Some elf) :: Ev (system clear_kprobes) x
               :: (t1 ++ t2 ++ t3 ++ [Ev (close fd) c])%list)
  /\ (forall i s wr shname shdr data shname_prog shdr_prog data_prog
             insn' tp wp r g2 t w',
        length (processed_sec (st_g s)) = 128%nat ->
        0 <= i < 128 -> 0 <= sh_info shdr < 128 ->
        get_sec (st_elf s) i = inr (shname, shdr, data) ->
        sh_type shdr = SHT_REL ->
        get_sec (st_elf s) (to_int (sh_info shdr))
        = inr (shname_prog, shdr_prog, data_prog) ->
        is_prog_name shname_prog = true ->
        run h (parse_relo_and_apply sz data (st_symbols s) shdr
                 (as_insns data_prog)
                 (set_processed_sec (st_g s)
                    (<[Z.to_nat i := true]>
                       (<[Z.to_nat (sh_info shdr) := true]>
                          (processed_sec (st_g s)))))) wr
        = (Done (0, insn'), tp, wp) ->
        run h (load_and_attach shname_prog insn' (to_int (d_size data_prog))
                 (set_processed_sec (st_g s)
                    (<[Z.to_nat i := true]>
                       (<[Z.to_nat (sh_info shdr) := true]>
                          (processed_sec (st_g s)))))) wp
        = (Done (r, g2), t, w') ->
        let s' := mk_state g2
                    (store_insns (st_elf s) (to_ulong (to_int (sh_info shdr)))
                                 insn')
                    (st_symbols s) in
        run h (relo_pass_body sz i s) wr = (Done (inr s'), (tp ++ t)%list, w')
        /\ forall n,
             run h (for_loop (S n) i (relo_pass_body sz) s) wr
             = let '(o, t2, w2) :=
                 run h (for_loop n (i + 1) (relo_pass_body sz) s') w' in
               (o, ((tp ++ t) ++ t2)%list, w2))
  /\ (forall i s wr shname shdr data r g2 t w',
        zlookup (processed_sec (st_g s)) i = Some false ->
        get_sec (st_elf s) i = inr (shname, shdr, data) ->
        is_prog_name shname = true ->
        run h (load_and_attach shname (as_insns data) (to_int (d_size data))
                 (st_g s)) wr
        = (Done (r, g2), t, w') ->
        run h (residual_body i s) wr = (Done (inr (with_g s g2)), t, w')
        /\ forall n,
             run h (for_loop (S n) i residual_body s) wr
             = let '(o, t2, w2) :=
                 run h (for_loop n (i + 1) residual_body (with_g s g2)) w' in
               (o, (t ++ t2)%list, w2)).
Proof.
  intros Hopen Hehdr Hscan. split; [|split; [|split]].
  - destruct (load_bpf_file_opens h sz path g w elf fd w0 Hopen) as [-> _].
    exact (load_elf_after_scan h sz elf fd g w0 ehdr s1 t1 w1 Hehdr Hscan).
  - intros s2 t2 w2 s3 t3 w3 H2 H3.
    destruct (load_bpf_file_opens h sz path g w elf fd w0 Hopen) as [-> [v ->]].
    rewrite (load_elf_scans_through h sz elf fd g w0 ehdr s1 t1 w1 s2 t2 w2
               s3 t3 w3 Hehdr Hscan H2 H3).
    split; [reflexivity|].
    exists v, (h Z (system clear_kprobes) w0).1, (h Z (close fd) w3).1.
    reflexivity.
  - intros i s wr shname shdr data shname_prog shdr_prog data_prog insn' tp wp
           r g2 t w' Hlen Hi Hinfo Hsec Hrel Hprog Hname Hparse Hrun s'.
    assert (Hround := relo_pass_body_run h sz i s wr shname shdr data
                        shname_prog shdr_prog data_prog insn' tp wp r g2 t w'
                        Hlen Hi Hinfo Hsec Hrel Hprog Hname Hparse Hrun).
    split; [exact Hround|]. exact (for_loop_run_next h _ _ _ _ _ _ _ Hround).
  - intros i s wr shname shdr data r g2 t w' Hmark Hsec Hname Hrun.
    assert (Hround := residual_body_run h i s wr shname shdr data r g2 t w'
                        Hmark Hsec Hname Hrun).
    split; [exact Hround|]. exact (for_loop_run_next h _ _ _ _ _ _ _ Hround).
Qed.

Lemma load_returns_success_after_metadata_witness :
  let h := scripted (Some kprobe_only) in
  let r := run h (load_bpf_file 20 "prog.o" initial_globals)
               [1; 3; 0; -1; 22; 22; 0] in
  let s := mk_state initial_globals kprobe_only None in
  opens h "prog.o" [1; 3; 0; -1; 22; 22; 0] kprobe_only 3 [0; -1; 22; 22; 0] /\
  result_of (run h (load_and_attach "kprobe/do_sys_open" ld_map_example 32
                                    initial_globals) [-1; 22; 22; 0])
  = Done (-1, initial_globals) /\
  run h (residual_body 1 s) [-1; 22; 22; 0]
  = (Done (inr s),
     [Ev (bpf_prog_load BPF_PROG_TYPE_KPROBE ld_map_example 32
                        (license initial_globals) (kern_version initial_globals))
         (-1);
      Ev errno 22; Ev errno 22; Ev (printf (msg_prog_load_failed 22)) tt],
     [0]) /\
  result_of r = Done (0, initial_globals) /\
  printed (trace_of r) = [msg_prog_load_failed 22] /\
  last (trace_of r) = Some (Ev (close 3) 0).
Proof.
  cbv zeta.
  assert (Hopen : opens (scripted (Some kprobe_only)) "prog.o"
                        [1; 3; 0; -1; 22; 22; 0] kprobe_only 3 [0; -1; 22; 22; 0]).
  { exists 1, [3; 0; -1; 22; 22; 0], [0; -1; 22; 22; 0].
    repeat split; try reflexivity; try discriminate. }
  destruct (load_returns_success_after_metadata (scripted (Some kprobe_only)) 20
              "prog.o" initial_globals [1; 3; 0; -1; 22; 22; 0] kprobe_only 3
              [0; -1; 22; 22; 0] (mk_ehdr 2)
              (mk_state initial_globals kprobe_only None) [] [-1; 22; 22; 0]
              Hopen eq_refl eq_refl)
    as (_ & Hthrough & _ & Hresidual).
  destruct (Hthrough (mk_state initial_globals kprobe_only None) []
              [-1; 22; 22; 0]
              (mk_state initial_globals kprobe_only None)
              [Ev (bpf_prog_load BPF_PROG_TYPE_KPROBE ld_map_example 32
                                 (license initial_globals)
                                 (kern_version initial_globals)) (-1);
               Ev errno 22; Ev errno 22;
               Ev (printf (msg_prog_load_failed 22)) tt]
              [0] eq_refl eq_refl) as [Hres (v & x & c & Htrace)].
  destruct (Hresidual 1 (mk_state initial_globals kprobe_only None)
              [-1; 22; 22; 0] "kprobe/do_sys_open" (mk_shdr 1 32 0 0 0 6)
              (mk_data 32 [] [] ld_map_example [] []) (-1) initial_globals
              [Ev (bpf_prog_load BPF_PROG_TYPE_KPROBE ld_map_example 32
                                 (license initial_globals)
                                 (kern_version initial_globals)) (-1);
               Ev errno 22; Ev errno 22;
               Ev (printf (msg_prog_load_failed 22)) tt]
              [0] eq_refl eq_refl eq_refl eq_refl) as [Hround _].
  split; [exact Hopen|]. split; [reflexivity|]. split; [exact Hround|].
  split; [exact Hres|]. split; [reflexivity|]. reflexivity.
Defined.

(** C10 as stated does not hold: the metadata scan of this object goes
    through (the license and the version are taken over, the map is
    created), its probe is submitted and attached, every call succeeds, and
    still the load does not return 0: the object has 130 sections and the
    residual scan reads [processed_sec[128]]. *)
Lemma metadata_scan_through_without_success :
  let h := scripted (Some complete_and_padded) in
  let r := run h (load_bpf_file 20 "prog.o" initial_globals)
               [1; 3; 0; 5; 7; 0; 4; 2; 0; 11] in
  (exists s1 t1 w1,
     run h (scan_sections (mk_ehdr 130) (scan_body 20)
                          (mk_state initial_globals complete_and_padded None))
         [5; 7; 0; 4; 2; 0; 11]
     = (Done (inr s1), t1, w1) /\
     take 4 (license (st_g s1)) = [x47; x50; x4c; x00] /\
     kern_version (st_g s1) = 197121 /\
     created_maps t1 = [(1, 5)]) /\
  printed (trace_of r) = [] /\
  count_events is_prog_load (trace_of r) = 1%nat /\
  result_of r = Undefined (out_of_bounds "processed_sec" 128) /\
  (forall g', result_of r <> Done (0, g')).
Proof.
  cbv zeta. split; [|split; [|split; [|split]]].
  - eexists _, _, _. split; [vm_compute; reflexivity|].
    split; [vm_compute; reflexivity|]. split; vm_compute; reflexivity.
  - vm_compute. reflexivity.
  - vm_compute. reflexivity.
  - vm_compute. reflexivity.
  - intros g'. vm_compute. discriminate.
Qed.
